(** * The live-audio pipeline of the HSK1 tutor (src/App.tsx)

    A shallow embedding of the audio helper functions ([encode], [decode],
    [decodeAudioData], [createBlob]) and of the [AIConversation] component's
    session handling ([cleanup], [startSession], its transport callbacks and
    [stopSession]), with the properties of the specification stated and
    settled against them.  The scoring of the [TypingExercise] component and
    the stored API key of [App] are embedded as well, with further
    properties of all of these.

    Conventions of the model.
    - A [Uint8Array] that a helper builds, or reads element by element, is
      the [list byte] of its elements; [decodeAudioData], which reads
      [data.buffer], takes a [Uint8Array.t]: the bytes of the buffer under
      the array, with the offset and the length of the view.  An
      [Int16Array] is a list of integers in the signed 16-bit range; a
      typed-array store at an index outside the array is ignored and a read
      there yields [undefined], as in JavaScript.
    - A JavaScript string whose code units are all below 256 (every string the
      helpers build, and every string [atob] accepts) is a [string].
    - A sample is a [number]: NaN, an infinity, or a finite value kept as a
      rational.  Every finite double is a rational, and the products and
      quotients by 32768 that the helpers compute on 32-bit samples and
      16-bit integers are exact in double precision.
    - The times of the playback scheduler (the clock of the output context,
      the cursor, the durations) are binary64 numbers, the [float] of the
      kernel with the operations of IEEE 754: the quotient that gives a
      duration and the sum that moves the cursor round to the nearest
      number, and a time may be NaN or an infinity.
    - An exception is a value of [exn] returned on the left of [Completion].
*)

From Stdlib Require Import Floats.
From Stdlib Require Import ZArith NArith QArith Qround Qabs Qminmax Lia Bool List.
From Stdlib Require Import Strings.Byte Strings.Ascii Strings.String.
From stdpp Require Import base option list gmap.

Local Open Scope Z_scope.

(** ** Exceptions and completions *)

Inductive exn : Type :=
| InvalidCharacterError   (* atob on text that is not base64 *)
| RangeError              (* Int16Array over a buffer of odd byte length;
                             start at a negative time *)
| NotSupportedError       (* createBuffer outside its limits *)
| TypeError               (* start at a time that is not a finite number *)
| Rejection (message : option string).
                          (* the reason of a rejected platform promise, known
                             by its message *)

Inductive Completion (A : Type) : Type :=
| Normal (a : A)
| Throw (e : exn).
Arguments Normal {A} a.
Arguments Throw {A} e.

(** [for (let i = 0; i < n; i++) body] for an integer bound [n]: the body is
    run at 0, 1, ..., n-1 on the state it mutates. *)
Definition for_range {S : Type} (n : nat) (body : nat -> S -> S) (s : S) : S :=
  fold_left (fun acc i => body i acc) (seq 0 n) s.

(** ** The platform's base64: [btoa] and [atob] *)

Module Base64.

(** The base64 alphabet, from a 6-bit value to its character. *)
Definition char_of_sextet (n : N) : ascii :=
  if (n <? 26)%N then ascii_of_N (65 + n)
  else if (n <? 52)%N then ascii_of_N (97 + (n - 26))
  else if (n <? 62)%N then ascii_of_N (48 + (n - 52))
  else if (n =? 62)%N then "+"%char
  else "/"%char.

(** A character of the alphabet back to its 6-bit value; [None] for any
    other character, the padding sign included. *)
Definition sextet_of_char (c : ascii) : option N :=
  let n := N_of_ascii c in
  if ((65 <=? n) && (n <=? 90))%N then Some (n - 65)%N
  else if ((97 <=? n) && (n <=? 122))%N then Some (n - 97 + 26)%N
  else if ((48 <=? n) && (n <=? 57))%N then Some (n - 48 + 52)%N
  else if (n =? 43)%N then Some 62%N
  else if (n =? 47)%N then Some 63%N
  else None.

(** [btoa] on the code units of the binary string: three bytes give four
    characters; a last group of one or two bytes is padded with "=". *)
Fixpoint encode_units (l : list N) : list ascii :=
  match l with
  | [] => []
  | [a] =>
      [char_of_sextet (a / 4); char_of_sextet ((a mod 4) * 16);
       "="%char; "="%char]
  | [a; b] =>
      [char_of_sextet (a / 4); char_of_sextet ((a mod 4) * 16 + b / 16);
       char_of_sextet ((b mod 16) * 4); "="%char]
  | a :: b :: c :: rest =>
      char_of_sextet (a / 4)
      :: char_of_sextet ((a mod 4) * 16 + b / 16)
      :: char_of_sextet ((b mod 16) * 4 + c / 64)
      :: char_of_sextet (c mod 64)
      :: encode_units rest
  end%N.

Definition btoa (binary : string) : string :=
  string_of_list_ascii (encode_units (map N_of_ascii (list_ascii_of_string binary))).

(** [atob] is the forgiving base64 decoding of the HTML standard. *)

(** Step 1: ASCII whitespace (TAB, LF, FF, CR, SPACE) is removed. *)
Definition is_ascii_whitespace (c : ascii) : bool :=
  let n := N_of_ascii c in
  ((n =? 9) || (n =? 10) || (n =? 12) || (n =? 13) || (n =? 32))%N.

(** Step 2: when the length is a multiple of four, one or two "=" at the end
    are removed. *)
Fixpoint drop_trailing_pad (l : list ascii) : list ascii :=
  match l with
  | [] => []
  | c :: r =>
      match r with
      | [] => if Ascii.eqb c "=" then [] else [c]
      | [d] => if Ascii.eqb c "=" && Ascii.eqb d "=" then []
               else c :: drop_trailing_pad r
      | _ => c :: drop_trailing_pad r
      end
  end.

Definition strip_padding (l : list ascii) : list ascii :=
  if (length l mod 4 =? 0)%nat then drop_trailing_pad l else l.

(** Step 4: every remaining character has to be in the alphabet. *)
Fixpoint sextets_of_chars (l : list ascii) : option (list N) :=
  match l with
  | [] => Some []
  | c :: r =>
      match sextet_of_char c, sextets_of_chars r with
      | Some n, Some ns => Some (n :: ns)
      | _, _ => None
      end
  end.

(** Steps 3 and 5 to 10: four sextets give three bytes; a remainder of one
    sextet is a failure, of two gives one byte (four bits dropped), of three
    gives two bytes (two bits dropped). *)
Fixpoint decode_sextets (l : list N) : option (list N) :=
  match l with
  | [] => Some []
  | [_] => None
  | [a; b] => Some [a * 4 + b / 16]
  | [a; b; c] => Some [a * 4 + b / 16; (b mod 16) * 16 + c / 4]
  | a :: b :: c :: d :: rest =>
      match decode_sextets rest with
      | Some out =>
          Some ((a * 4 + b / 16) :: ((b mod 16) * 16 + c / 4)
                :: ((c mod 4) * 64 + d) :: out)
      | None => None
      end
  end%N.

(** What [atob] computes on text without whitespace whose length is a
    multiple of four. *)
Definition decode_chars (l : list ascii) : option (list N) :=
  match sextets_of_chars (drop_trailing_pad l) with
  | Some ns => decode_sextets ns
  | None => None
  end.

Definition atob (text : string) : option string :=
  let data := List.filter (fun c => negb (is_ascii_whitespace c))
                     (list_ascii_of_string text) in
  match sextets_of_chars (strip_padding data) with
  | Some ns =>
      match decode_sextets ns with
      | Some units => Some (string_of_list_ascii (map ascii_of_N units))
      | None => None
      end
  | None => None
  end.

End Base64.

(** ** encode and decode (src/App.tsx) *)

(** [String.fromCharCode(bytes[i])]: the one-unit string of that byte. *)
Definition fromCharCode (b : byte) : string := String (ascii_of_byte b) EmptyString.

(** [s.charCodeAt(i)]: the code unit, [None] (NaN) outside the string. *)
Definition charCodeAt (s : string) (i : nat) : option N :=
  match String.get i s with
  | Some c => Some (N_of_ascii c)
  | None => None
  end.

(** The conversion of a store into a [Uint8Array]: modulo 256, NaN to 0. *)
Definition ToUint8 (v : option N) : byte :=
  match v with
  | Some n => byte_of_ascii (ascii_of_N (n mod 256))
  | None => Byte.x00
  end.

Definition encode (bytes : list byte) : string :=
  let len := length bytes in
  let binary :=
    for_range len
      (fun i binary =>
         match bytes !! i with
         | Some b => (binary ++ fromCharCode b)%string
         | None => binary
         end)
      EmptyString in
  Base64.btoa binary.

(** [decode] returns a new array, which spans its own buffer: it is given by
    its elements. *)
Definition decode (base64 : string) : Completion (list byte) :=
  match Base64.atob base64 with
  | None => Throw InvalidCharacterError
  | Some binaryString =>
      let len := String.length binaryString in
      let bytes := repeat Byte.x00 len in
      Normal (for_range len
                (fun i bytes => <[i := ToUint8 (charCodeAt binaryString i)]> bytes)
                bytes)
  end.

(** ** Numbers, typed arrays and audio buffers *)

Inductive number : Type :=
| NaN
| Infinity (negative : bool)
| Fin (q : Q).

(** [x * 32768] and [x / 32768.0]; [undefined] (a read outside the array)
    becomes NaN in arithmetic. *)
Definition times_32768 (x : option number) : number :=
  match x with
  | Some (Fin q) => Fin (q * 32768)
  | Some other => other
  | None => NaN
  end.

Definition over_32768 (x : option Z) : number :=
  match x with
  | Some v => Fin (v # 32768)
  | None => NaN
  end.

(** The mathematical value with its fraction discarded (toward zero). *)
Definition truncate (q : Q) : Z := Z.quot (Qnum q) (Z.pos (Qden q)).

(** The conversion of a store into an [Int16Array] (ECMAScript ToInt16):
    NaN and the infinities give 0; a finite number is truncated, reduced
    modulo 2^16 and read as a signed 16-bit integer. *)
Definition ToInt16 (x : number) : Z :=
  match x with
  | Fin q =>
      let int16bit := truncate q mod 65536 in
      if 32768 <=? int16bit then int16bit - 65536 else int16bit
  | _ => 0
  end.

Definition byte_of_Z (z : Z) : byte :=
  byte_of_ascii (ascii_of_N (Z.to_N (z mod 256))).

Definition Z_of_byte (b : byte) : Z := Z.of_N (Byte.to_N b).

(** [new Uint8Array(int16.buffer)]: the two bytes of each element, low byte
    first. *)
Definition bytes_of_int16 (v : Z) : list byte := [byte_of_Z v; byte_of_Z (v / 256)].

Definition Uint8Array_of_Int16Array (a : list Z) : list byte :=
  flat_map bytes_of_int16 a.

Definition int16_of_bytes (lo hi : byte) : Z :=
  let u := Z_of_byte lo + 256 * Z_of_byte hi in
  if 32768 <=? u then u - 65536 else u.

(** A [Uint8Array] as an argument that may be a view of a part of a larger
    buffer: the bytes of its [ArrayBuffer], and where the view starts and how
    many bytes it has. *)
Module Uint8Array.

Record t : Type := { buffer : list byte; byteOffset : nat; byteLength : nat }.

(** The elements of the array. *)
Definition elements (a : t) : list byte :=
  take (byteLength a) (drop (byteOffset a) (buffer a)).

(** The array of [new Uint8Array(n)] with the elements stored into it: it
    spans its buffer. *)
Definition of_elements (bytes : list byte) : t :=
  {| buffer := bytes; byteOffset := 0; byteLength := length bytes |}.

(** [a.subarray(start, stop)] for [start <= stop <= a.length]: a view of the
    same buffer. *)
Definition subarray (a : t) (start stop : nat) : t :=
  {| buffer := buffer a; byteOffset := byteOffset a + start; byteLength := stop - start |}.

(** The array is the whole of its buffer. *)
Definition spans_buffer (a : t) : Prop :=
  byteOffset a = 0%nat /\ byteLength a = length (buffer a).

End Uint8Array.

(** [new Int16Array(data.buffer)]: a view of the bytes two by two, low byte
    first; the constructor throws a RangeError on an odd byte length. *)
Fixpoint Int16Array_of_buffer (buf : list byte) : Completion (list Z) :=
  match buf with
  | [] => Normal []
  | [_] => Throw RangeError
  | lo :: hi :: rest =>
      match Int16Array_of_buffer rest with
      | Normal a => Normal (int16_of_bytes lo hi :: a)
      | Throw e => Throw e
      end
  end.

Record AudioBuffer : Type := {
  numberOfChannels : nat;
  buffer_length : nat;          (* [length], in sample frames *)
  sampleRate : positive;
  channelData : list (list number)
}.

(** An integer as a JavaScript number: the nearest binary64 number, which is
    the integer itself below 2^53.  (The conversion goes through the 63-bit
    integers of the kernel; lengths and rates are far below 2^63.) *)
Definition number_of_Z (z : Z) : float := of_uint63 (Uint63.of_Z z).

(** [audioBuffer.duration], in seconds: the length over the sample rate, a
    division of binary64 numbers, which rounds. *)
Definition duration (b : AudioBuffer) : float :=
  (number_of_Z (Z.of_nat (buffer_length b)) / number_of_Z (Z.pos (sampleRate b)))%float.

(** The limits of [createBuffer]: the Web Audio specification asks for at
    least 32 channels and the rates from 8000 to 96000 Hz and leaves the rest
    to the implementation; these are the limits of Chromium. *)
Definition max_channels : nat := 32.
Definition min_sampleRate : positive := 3000.
Definition max_sampleRate : positive := 768000.

Definition supported_sampleRate (sampleRate : positive) : bool :=
  ((min_sampleRate <=? sampleRate) && (sampleRate <=? max_sampleRate))%positive.

(** [ctx.createBuffer(numberOfChannels, length, sampleRate)]: [length] is
    converted to an unsigned long, which drops its fraction (lengths here
    come from a string and stay far below 2^32); no channel, more channels
    than the limit, no frame, or a rate outside the limits is a
    NotSupportedError; the channels start filled with zeros. *)
Definition createBuffer (numberOfChannels : nat) (length : Q) (sampleRate : positive)
  : Completion AudioBuffer :=
  let frames := Z.to_nat (truncate length) in
  if ((numberOfChannels =? 0) || (max_channels <? numberOfChannels)
      || (frames =? 0))%nat
     || negb (supported_sampleRate sampleRate)
  then Throw NotSupportedError
  else Normal {| numberOfChannels := numberOfChannels;
                 buffer_length := frames;
                 sampleRate := sampleRate;
                 channelData := repeat (repeat (Fin 0) frames) numberOfChannels |}.

(** [buffer.getChannelData(channel)] is the channel's own array: a store
    into it is a store into the buffer. *)
Definition getChannelData (b : AudioBuffer) (channel : nat) : list number :=
  default [] (channelData b !! channel).

Definition with_channelData (b : AudioBuffer) (channel : nat) (samples : list number)
  : AudioBuffer :=
  {| numberOfChannels := numberOfChannels b;
     buffer_length := buffer_length b;
     sampleRate := sampleRate b;
     channelData := <[channel := samples]> (channelData b) |}.

(** [for (let i = 0; i < bound; i++) body] for a bound that need not be an
    integer: [i < bound] holds exactly for the naturals below its ceiling. *)
Definition for_below {S : Type} (bound : Q) (body : nat -> S -> S) (s : S) : S :=
  for_range (Z.to_nat (Qceiling bound)) body s.

(** [decodeAudioData(data, ctx, sampleRate, numChannels)]; [ctx] only
    provides [createBuffer].  The 16-bit view is taken of [data.buffer], the
    whole buffer under the array, whatever part of it the array is.  With no
    channel, [frameCount] is Infinity or NaN and [createBuffer] throws on the
    channel count. *)
Definition decodeAudioData (data : Uint8Array.t) (sampleRate : positive) (numChannels : nat)
  : Completion AudioBuffer :=
  match Int16Array_of_buffer (Uint8Array.buffer data) with
  | Throw e => Throw e
  | Normal dataInt16 =>
      match numChannels with
      | O => Throw NotSupportedError
      | S _ =>
          let frameCount : Q := Z.of_nat (length dataInt16) # Pos.of_nat numChannels in
          match createBuffer numChannels frameCount sampleRate with
          | Throw e => Throw e
          | Normal buffer =>
              Normal
                (for_range numChannels
                   (fun channel buffer =>
                      let channelData := getChannelData buffer channel in
                      with_channelData buffer channel
                        (for_below frameCount
                           (fun i channelData =>
                              <[i := over_32768 (dataInt16 !! (i * numChannels + channel)%nat)]>
                                channelData)
                           channelData))
                   buffer)
          end
      end
  end.

Record Blob : Type := { data : string; mimeType : string }.

Definition createBlob (samples : list number) : Blob :=
  let l := length samples in
  let int16 :=
    for_range l
      (fun i int16 => <[i := ToInt16 (times_32768 (samples !! i))]> int16)
      (repeat 0 l) in
  {| data := encode (Uint8Array_of_Int16Array int16);
     mimeType := "audio/pcm;rate=16000" |}.

(** What the specification writes [wireToSamples(samplesToWire(S), 1)]: the
    samples go through [createBlob], [decode] and [decodeAudioData] with one
    channel. *)
Definition roundtrip (samples : list number) : Completion (list number) :=
  match decode (data (createBlob samples)) with
  | Throw e => Throw e
  | Normal bytes =>
      match decodeAudioData (Uint8Array.of_elements bytes) 16000 1 with
      | Throw e => Throw e
      | Normal buffer => Normal (getChannelData buffer 0)
      end
  end.

(** [z] is an integer nearest to [x]: what the specification writes
    [round(x)]. *)
Definition nearest_integer (x : Q) (z : Z) : Prop :=
  (Qabs (x - inject_Z z) <= 1 # 2)%Q.

(** ** The AIConversation component *)

(** The value of [micState]. *)
Inductive MicState : Type := Idle | Requesting | Ready | Error.

(** The texts shown by [setStatus] and [setError]. *)
Inductive StatusText : Type :=
| StatusWaiting        (* initial status *)
| StatusConnecting     (* after the microphone is granted *)
| StatusConnected      (* onopen *)
| StatusDisconnected   (* onclose *)
| StatusStopped.       (* stopSession *)

Inductive ErrorText : Type :=
| ErrNoApiKey                       (* no API key configured *)
| ErrNoLessonContent (lessonName : string)
| ErrConnection                     (* onerror *)
| ErrMessage (message : string)     (* e.message of a caught exception *)
| ErrCannotStartRecording.          (* caught exception without a message *)

Inductive Speaker : Type := SpeakerUser | SpeakerAi.

(** Platform objects are known by their identity. *)
Definition handle : Type := nat.

Record MediaStream : Type := { stream_id : handle; getTracks : list handle }.

(** What the handlers do to the world outside the component. *)
Inductive effect : Type :=
| ConsoleLog
| ConsoleError
| UnhandledRejection (e : exn)
| SessionClose (session : handle)
| TrackStop (track : handle)
| NodeDisconnect (node : handle)
| ContextClose (ctx : handle)
| SpeechSynthesisCancel
| GetUserMedia
| NewAudioContext (ctx : handle) (rate : positive)
| CreateGain (ctx node : handle)
| LiveConnect (apiKey : string) (prompts : list string)
| CreateMediaStreamSource (ctx : handle) (stream : MediaStream) (node : handle)
| CreateScriptProcessor (ctx node : handle)
| NodeConnect (node target : handle)
| ConnectDestination (node ctx : handle)
| SendRealtimeInput (session : handle) (media : Blob)
| CreateBufferSource (ctx node : handle)
| SourceStart (node : handle) (when : float) (buffer : AudioBuffer)
| ClearTimeout (timer : handle)
| SetTimeout (timer : handle) (ms : nat).

(** A release of one of the five resources that [cleanup] owns. *)
Definition is_release (e : effect) : bool :=
  match e with
  | SessionClose _ | TrackStop _ | NodeDisconnect _ | ContextClose _ => true
  | _ => false
  end.

(** An inbound message: [serverContent?.modelTurn?.parts?.[0]?.inlineData?.data]
    and [serverContent?.turnComplete]. *)
Record Part : Type := { inlineData : option string }.
Record ModelTurn : Type := { parts : option (list Part) }.
Record ServerContent : Type := { modelTurn : option ModelTurn; turnComplete : bool }.
Record LiveServerMessage : Type := { serverContent : option ServerContent }.

Definition audioData_of (msg : LiveServerMessage) : option string :=
  sc ← serverContent msg; mt ← modelTurn sc; ps ← parts mt; p ← head ps; inlineData p.

(** The promise returned by [ai.live.connect], with the [then] callbacks of
    [onaudioprocess] that wait for it. *)
Inductive Promise : Type :=
| Pending (thens : list Blob)
| Resolved (session : handle)
| Rejected (message : option string).

(** The local variables of one [startSession] call that its callbacks
    capture. *)
Record Closure : Type := {
  localStream : MediaStream;
  inputAudioContext : handle;
  outputAudioContext : handle;
  outputNode : handle;
  sessionPromise : Promise
}.

(** Where the running [startSession] call is suspended. *)
Inductive Continuation : Type :=
| NotRunning
| AwaitGetUserMedia (effectiveApiKey : string) (prompts : list string)
| AwaitSessionPromise.

(** The component's state and refs, the closure of the current
    [startSession] call, and the effects performed so far (oldest first). *)
Record World : Type := {
  micState : MicState;
  status : StatusText;
  error : option ErrorText;
  liveSpeaker : option Speaker;
  sessionRef : option handle;
  streamRef : option MediaStream;
  inputAudioContextRef : option handle;
  outputAudioContextRef : option handle;
  sourcesRef : gset handle;
  nextStartTimeRef : float;
  scriptProcessorRef : option handle;
  liveSpeakerTimeoutRef : option handle;
  closure : option Closure;
  continuation : Continuation;
  trace : list effect;
  next_handle : handle
}.

Definition setMicState (v : MicState) (w : World) : World :=
  {| micState := v; status := status w; error := error w;
     liveSpeaker := liveSpeaker w; sessionRef := sessionRef w;
     streamRef := streamRef w; inputAudioContextRef := inputAudioContextRef w;
     outputAudioContextRef := outputAudioContextRef w; sourcesRef := sourcesRef w;
     nextStartTimeRef := nextStartTimeRef w; scriptProcessorRef := scriptProcessorRef w;
     liveSpeakerTimeoutRef := liveSpeakerTimeoutRef w; closure := closure w;
     continuation := continuation w; trace := trace w; next_handle := next_handle w |}.

Definition setStatus (v : StatusText) (w : World) : World :=
  {| micState := micState w; status := v; error := error w;
     liveSpeaker := liveSpeaker w; sessionRef := sessionRef w;
     streamRef := streamRef w; inputAudioContextRef := inputAudioContextRef w;
     outputAudioContextRef := outputAudioContextRef w; sourcesRef := sourcesRef w;
     nextStartTimeRef := nextStartTimeRef w; scriptProcessorRef := scriptProcessorRef w;
     liveSpeakerTimeoutRef := liveSpeakerTimeoutRef w; closure := closure w;
     continuation := continuation w; trace := trace w; next_handle := next_handle w |}.

Definition setError (v : option ErrorText) (w : World) : World :=
  {| micState := micState w; status := status w; error := v;
     liveSpeaker := liveSpeaker w; sessionRef := sessionRef w;
     streamRef := streamRef w; inputAudioContextRef := inputAudioContextRef w;
     outputAudioContextRef := outputAudioContextRef w; sourcesRef := sourcesRef w;
     nextStartTimeRef := nextStartTimeRef w; scriptProcessorRef := scriptProcessorRef w;
     liveSpeakerTimeoutRef := liveSpeakerTimeoutRef w; closure := closure w;
     continuation := continuation w; trace := trace w; next_handle := next_handle w |}.

Definition setLiveSpeaker (v : option Speaker) (w : World) : World :=
  {| micState := micState w; status := status w; error := error w;
     liveSpeaker := v; sessionRef := sessionRef w;
     streamRef := streamRef w; inputAudioContextRef := inputAudioContextRef w;
     outputAudioContextRef := outputAudioContextRef w; sourcesRef := sourcesRef w;
     nextStartTimeRef := nextStartTimeRef w; scriptProcessorRef := scriptProcessorRef w;
     liveSpeakerTimeoutRef := liveSpeakerTimeoutRef w; closure := closure w;
     continuation := continuation w; trace := trace w; next_handle := next_handle w |}.

Definition set_sessionRef (v : option handle) (w : World) : World :=
  {| micState := micState w; status := status w; error := error w;
     liveSpeaker := liveSpeaker w; sessionRef := v;
     streamRef := streamRef w; inputAudioContextRef := inputAudioContextRef w;
     outputAudioContextRef := outputAudioContextRef w; sourcesRef := sourcesRef w;
     nextStartTimeRef := nextStartTimeRef w; scriptProcessorRef := scriptProcessorRef w;
     liveSpeakerTimeoutRef := liveSpeakerTimeoutRef w; closure := closure w;
     continuation := continuation w; trace := trace w; next_handle := next_handle w |}.

Definition set_streamRef (v : option MediaStream) (w : World) : World :=
  {| micState := micState w; status := status w; error := error w;
     liveSpeaker := liveSpeaker w; sessionRef := sessionRef w;
     streamRef := v; inputAudioContextRef := inputAudioContextRef w;
     outputAudioContextRef := outputAudioContextRef w; sourcesRef := sourcesRef w;
     nextStartTimeRef := nextStartTimeRef w; scriptProcessorRef := scriptProcessorRef w;
     liveSpeakerTimeoutRef := liveSpeakerTimeoutRef w; closure := closure w;
     continuation := continuation w; trace := trace w; next_handle := next_handle w |}.

Definition set_inputAudioContextRef (v : option handle) (w : World) : World :=
  {| micState := micState w; status := status w; error := error w;
     liveSpeaker := liveSpeaker w; sessionRef := sessionRef w;
     streamRef := streamRef w; inputAudioContextRef := v;
     outputAudioContextRef := outputAudioContextRef w; sourcesRef := sourcesRef w;
     nextStartTimeRef := nextStartTimeRef w; scriptProcessorRef := scriptProcessorRef w;
     liveSpeakerTimeoutRef := liveSpeakerTimeoutRef w; closure := closure w;
     continuation := continuation w; trace := trace w; next_handle := next_handle w |}.

Definition set_outputAudioContextRef (v : option handle) (w : World) : World :=
  {| micState := micState w; status := status w; error := error w;
     liveSpeaker := liveSpeaker w; sessionRef := sessionRef w;
     streamRef := streamRef w; inputAudioContextRef := inputAudioContextRef w;
     outputAudioContextRef := v; sourcesRef := sourcesRef w;
     nextStartTimeRef := nextStartTimeRef w; scriptProcessorRef := scriptProcessorRef w;
     liveSpeakerTimeoutRef := liveSpeakerTimeoutRef w; closure := closure w;
     continuation := continuation w; trace := trace w; next_handle := next_handle w |}.

Definition set_sourcesRef (v : gset handle) (w : World) : World :=
  {| micState := micState w; status := status w; error := error w;
     liveSpeaker := liveSpeaker w; sessionRef := sessionRef w;
     streamRef := streamRef w; inputAudioContextRef := inputAudioContextRef w;
     outputAudioContextRef := outputAudioContextRef w; sourcesRef := v;
     nextStartTimeRef := nextStartTimeRef w; scriptProcessorRef := scriptProcessorRef w;
     liveSpeakerTimeoutRef := liveSpeakerTimeoutRef w; closure := closure w;
     continuation := continuation w; trace := trace w; next_handle := next_handle w |}.

Definition set_nextStartTimeRef (v : float) (w : World) : World :=
  {| micState := micState w; status := status w; error := error w;
     liveSpeaker := liveSpeaker w; sessionRef := sessionRef w;
     streamRef := streamRef w; inputAudioContextRef := inputAudioContextRef w;
     outputAudioContextRef := outputAudioContextRef w; sourcesRef := sourcesRef w;
     nextStartTimeRef := v; scriptProcessorRef := scriptProcessorRef w;
     liveSpeakerTimeoutRef := liveSpeakerTimeoutRef w; closure := closure w;
     continuation := continuation w; trace := trace w; next_handle := next_handle w |}.

Definition set_scriptProcessorRef (v : option handle) (w : World) : World :=
  {| micState := micState w; status := status w; error := error w;
     liveSpeaker := liveSpeaker w; sessionRef := sessionRef w;
     streamRef := streamRef w; inputAudioContextRef := inputAudioContextRef w;
     outputAudioContextRef := outputAudioContextRef w; sourcesRef := sourcesRef w;
     nextStartTimeRef := nextStartTimeRef w; scriptProcessorRef := v;
     liveSpeakerTimeoutRef := liveSpeakerTimeoutRef w; closure := closure w;
     continuation := continuation w; trace := trace w; next_handle := next_handle w |}.

Definition set_liveSpeakerTimeoutRef (v : option handle) (w : World) : World :=
  {| micState := micState w; status := status w; error := error w;
     liveSpeaker := liveSpeaker w; sessionRef := sessionRef w;
     streamRef := streamRef w; inputAudioContextRef := inputAudioContextRef w;
     outputAudioContextRef := outputAudioContextRef w; sourcesRef := sourcesRef w;
     nextStartTimeRef := nextStartTimeRef w; scriptProcessorRef := scriptProcessorRef w;
     liveSpeakerTimeoutRef := v; closure := closure w;
     continuation := continuation w; trace := trace w; next_handle := next_handle w |}.

Definition set_closure (v : option Closure) (w : World) : World :=
  {| micState := micState w; status := status w; error := error w;
     liveSpeaker := liveSpeaker w; sessionRef := sessionRef w;
     streamRef := streamRef w; inputAudioContextRef := inputAudioContextRef w;
     outputAudioContextRef := outputAudioContextRef w; sourcesRef := sourcesRef w;
     nextStartTimeRef := nextStartTimeRef w; scriptProcessorRef := scriptProcessorRef w;
     liveSpeakerTimeoutRef := liveSpeakerTimeoutRef w; closure := v;
     continuation := continuation w; trace := trace w; next_handle := next_handle w |}.

Definition set_continuation (v : Continuation) (w : World) : World :=
  {| micState := micState w; status := status w; error := error w;
     liveSpeaker := liveSpeaker w; sessionRef := sessionRef w;
     streamRef := streamRef w; inputAudioContextRef := inputAudioContextRef w;
     outputAudioContextRef := outputAudioContextRef w; sourcesRef := sourcesRef w;
     nextStartTimeRef := nextStartTimeRef w; scriptProcessorRef := scriptProcessorRef w;
     liveSpeakerTimeoutRef := liveSpeakerTimeoutRef w; closure := closure w;
     continuation := v; trace := trace w; next_handle := next_handle w |}.

(** Perform effects: they are appended to the trace. *)
Definition emit (es : list effect) (w : World) : World :=
  {| micState := micState w; status := status w; error := error w;
     liveSpeaker := liveSpeaker w; sessionRef := sessionRef w;
     streamRef := streamRef w; inputAudioContextRef := inputAudioContextRef w;
     outputAudioContextRef := outputAudioContextRef w; sourcesRef := sourcesRef w;
     nextStartTimeRef := nextStartTimeRef w; scriptProcessorRef := scriptProcessorRef w;
     liveSpeakerTimeoutRef := liveSpeakerTimeoutRef w; closure := closure w;
     continuation := continuation w; trace := trace w ++ es; next_handle := next_handle w |}.

(** A new platform object: its identity is fresh. *)
Definition fresh (w : World) : handle * World :=
  (next_handle w,
   {| micState := micState w; status := status w; error := error w;
      liveSpeaker := liveSpeaker w; sessionRef := sessionRef w;
      streamRef := streamRef w; inputAudioContextRef := inputAudioContextRef w;
      outputAudioContextRef := outputAudioContextRef w; sourcesRef := sourcesRef w;
      nextStartTimeRef := nextStartTimeRef w; scriptProcessorRef := scriptProcessorRef w;
      liveSpeakerTimeoutRef := liveSpeakerTimeoutRef w; closure := closure w;
      continuation := continuation w; trace := trace w; next_handle := S (next_handle w) |}).

(** The component as first rendered: the initial values of [useState] and
    [useRef]. *)
Definition initial : World :=
  {| micState := Idle; status := StatusWaiting; error := None;
     liveSpeaker := None; sessionRef := None; streamRef := None;
     inputAudioContextRef := None; outputAudioContextRef := None;
     sourcesRef := ∅; nextStartTimeRef := 0%float; scriptProcessorRef := None;
     liveSpeakerTimeoutRef := None; closure := None;
     continuation := NotRunning; trace := []; next_handle := 0%nat |}.

(** A JavaScript value used as a condition: [undefined] and the empty string
    are falsy. *)
Definition truthy (s : option string) : option string :=
  match s with
  | Some EmptyString => None
  | other => other
  end.

Section AIConversation.

(** The props of the component and what it reads from its environment. *)
Variable lessonName : string.
Variable apiKey : string.
(** [process.env.API_KEY], [None] when it is undefined. *)
Variable env_API_KEY : option string.
(** The table of ./constants, which is not part of the sources at hand:
    the prompts of a lesson, [None] for a lesson without an entry. *)
Variable AI_CONVERSATION_PROMPTS : string -> option (list string).
(** Whether [window.speechSynthesis] exists. *)
Variable speechSynthesis : bool.

Definition cleanup (w : World) : World :=
  let w := emit [ConsoleLog] w in
  let w := match sessionRef w with
           | Some session => set_sessionRef None (emit [SessionClose session] w)
           | None => w
           end in
  let w := match streamRef w with
           | Some stream =>
               set_streamRef None (emit (map TrackStop (getTracks stream)) w)
           | None => w
           end in
  let w := match scriptProcessorRef w with
           | Some node => set_scriptProcessorRef None (emit [NodeDisconnect node] w)
           | None => w
           end in
  let w := match inputAudioContextRef w with
           | Some ctx => emit [ContextClose ctx] w
           | None => w
           end in
  let w := set_inputAudioContextRef None w in
  let w := match outputAudioContextRef w with
           | Some ctx => emit [ContextClose ctx] w
           | None => w
           end in
  let w := set_outputAudioContextRef None w in
  if speechSynthesis then emit [SpeechSynthesisCancel] w else w.

(** [apiKey || process.env.API_KEY] *)
Definition effectiveApiKey : option string :=
  match truthy (Some apiKey) with
  | Some key => Some key
  | None => env_API_KEY
  end.

(** [startSession] up to its first [await]. *)
Definition startSession (w : World) : World :=
  let w := setMicState Requesting w in
  let w := setError None w in
  match truthy effectiveApiKey with
  | None =>
      let w := setError (Some ErrNoApiKey) w in
      setMicState Error w
  | Some key =>
      match AI_CONVERSATION_PROMPTS lessonName with
      | None =>
          let w := setError (Some (ErrNoLessonContent lessonName)) w in
          setMicState Error w
      | Some prompts =>
          set_continuation (AwaitGetUserMedia key prompts) (emit [GetUserMedia] w)
      end
  end.

(** The [catch] block of [startSession]. *)
Definition startSession_catch (message : option string) (w : World) : World :=
  let w := emit [ConsoleError] w in
  let w := setError (Some match truthy message with
                          | Some m => ErrMessage m
                          | None => ErrCannotStartRecording
                          end) w in
  let w := setMicState Error w in
  set_continuation NotRunning w.

(** [startSession] from the microphone grant to [await sessionPromise]. *)
Definition startSession_granted (stream : MediaStream) (w : World) : World :=
  match continuation w with
  | AwaitGetUserMedia key prompts =>
      let w := set_streamRef (Some stream) w in
      let w := setStatus StatusConnecting w in
      let w := setMicState Ready w in
      let '(inputCtx, w) := fresh w in
      let w := emit [NewAudioContext inputCtx 16000] w in
      let w := set_inputAudioContextRef (Some inputCtx) w in
      let '(outputCtx, w) := fresh w in
      let w := emit [NewAudioContext outputCtx 24000] w in
      let w := set_outputAudioContextRef (Some outputCtx) w in
      let '(gain, w) := fresh w in
      let w := emit [CreateGain outputCtx gain; ConnectDestination gain outputCtx] w in
      let w := emit [LiveConnect key prompts] w in
      let w := set_closure (Some {| localStream := stream;
                                    inputAudioContext := inputCtx;
                                    outputAudioContext := outputCtx;
                                    outputNode := gain;
                                    sessionPromise := Pending [] |}) w in
      set_continuation AwaitSessionPromise w
  | _ => w
  end.

Definition with_sessionPromise (p : Promise) (cl : Closure) : Closure :=
  {| localStream := localStream cl;
     inputAudioContext := inputAudioContext cl;
     outputAudioContext := outputAudioContext cl;
     outputNode := outputNode cl;
     sessionPromise := p |}.

(** [sessionPromise] is fulfilled: [sessionRef.current = await sessionPromise]
    resumes, then the [then] callbacks of [onaudioprocess] send their
    blobs. *)
Definition sessionPromise_resolved (session : handle) (w : World) : World :=
  match closure w with
  | Some cl =>
      match sessionPromise cl with
      | Pending thens =>
          let w := set_closure (Some (with_sessionPromise (Resolved session) cl)) w in
          let w := match continuation w with
                   | AwaitSessionPromise =>
                       set_continuation NotRunning (set_sessionRef (Some session) w)
                   | _ => w
                   end in
          emit (map (SendRealtimeInput session) thens) w
      | _ => w
      end
  | None => w
  end.

(** [sessionPromise] is rejected: the [catch] block runs; then the promises
    that the [then] calls of [onaudioprocess] returned are rejected with the
    same reason, and no one handles them. *)
Definition sessionPromise_rejected (message : option string) (w : World) : World :=
  match closure w with
  | Some cl =>
      match sessionPromise cl with
      | Pending thens =>
          let w := set_closure (Some (with_sessionPromise (Rejected message) cl)) w in
          let w := match continuation w with
                   | AwaitSessionPromise => startSession_catch message w
                   | _ => w
                   end in
          emit (map (fun _ => UnhandledRejection (Rejection message)) thens) w
      | _ => w
      end
  | None => w
  end.

(** [onopen]: it reads no ref and tests nothing before it wires the capture;
    creating the nodes is taken to succeed whatever the state of the
    context. *)
Definition onopen (w : World) : World :=
  match closure w with
  | Some cl =>
      let w := setStatus StatusConnected w in
      let '(source, w) := fresh w in
      let w := emit [CreateMediaStreamSource (inputAudioContext cl) (localStream cl) source] w in
      let '(scriptProcessor, w) := fresh w in
      let w := emit [CreateScriptProcessor (inputAudioContext cl) scriptProcessor] w in
      let w := set_scriptProcessorRef (Some scriptProcessor) w in
      emit [NodeConnect source scriptProcessor;
            ConnectDestination scriptProcessor (inputAudioContext cl)] w
  | None => w
  end.

(** [scriptProcessor.onaudioprocess]: the send waits for the promise; on a
    promise that is rejected, the promise that [then] returns is rejected
    too, and no one handles it. *)
Definition onaudioprocess (inputData : list number) (w : World) : World :=
  match closure w with
  | Some cl =>
      let pcmBlob := createBlob inputData in
      match sessionPromise cl with
      | Pending thens =>
          set_closure (Some (with_sessionPromise (Pending (thens ++ [pcmBlob])) cl)) w
      | Resolved session => emit [SendRealtimeInput session pcmBlob] w
      | Rejected message => emit [UnhandledRejection (Rejection message)] w
      end
  | None => w
  end.

(** [source.start(when)] takes a WebIDL double, so a NaN or an infinity is a
    TypeError, and it throws a RangeError on a negative time. *)
Definition start_error (when : float) : option exn :=
  if negb (is_finite when) then Some TypeError
  else if (when <? 0)%float then Some RangeError
  else None.

(** The playback branch of [onmessage] once the audio is decoded;
    [currentTime] is what [ctx.currentTime] reads.  The comparison and the
    sum are those of binary64 numbers.  When [start] throws, the exception
    leaves the branch with what was done before it. *)
Definition schedule (ctx : handle) (gain : handle) (currentTime : float)
    (audioBuffer : AudioBuffer) (w : World) : World * option exn :=
  let '(source, w) := fresh w in
  let w := emit [CreateBufferSource ctx source; NodeConnect source gain] w in
  let w := if (nextStartTimeRef w <? currentTime)%float
           then set_nextStartTimeRef currentTime w
           else w in
  match start_error (nextStartTimeRef w) with
  | Some e => (w, Some e)
  | None =>
      let w := emit [SourceStart source (nextStartTimeRef w) audioBuffer] w in
      let w := set_nextStartTimeRef (nextStartTimeRef w + duration audioBuffer)%float w in
      (set_sourcesRef ({[source]} ∪ sourcesRef w) w, None)
  end.

(** The speaking indicator at the end of [onmessage]. *)
Definition indicate (sc : option ServerContent) (w : World) : World :=
  match sc with
  | Some c =>
      match modelTurn c, turnComplete c with
      | Some _, false =>
          let w := setLiveSpeaker (Some SpeakerAi) w in
          let w := match liveSpeakerTimeoutRef w with
                   | Some t => emit [ClearTimeout t] w
                   | None => w
                   end in
          let '(timer, w) := fresh w in
          set_liveSpeakerTimeoutRef (Some timer) (emit [SetTimeout timer 2000] w)
      | _, true => setLiveSpeaker None w
      | None, false => w
      end
  | None => w
  end.

(** [onmessage]; an exception of the decoding or of [start] rejects the
    handler's promise and the rest of the handler is not run. *)
Definition onmessage (currentTime : float) (msg : LiveServerMessage) (w : World) : World :=
  match closure w with
  | Some cl =>
      match truthy (audioData_of msg), outputAudioContextRef w with
      | Some audioData, Some ctx =>
          match decode audioData with
          | Throw e => emit [UnhandledRejection e] w
          | Normal bytes =>
              match decodeAudioData (Uint8Array.of_elements bytes) 24000 1 with
              | Throw e => emit [UnhandledRejection e] w
              | Normal audioBuffer =>
                  match schedule ctx (outputNode cl) currentTime audioBuffer w with
                  | (w, Some e) => emit [UnhandledRejection e] w
                  | (w, None) => indicate (serverContent msg) w
                  end
              end
          end
      | _, _ => indicate (serverContent msg) w
      end
  | None => w
  end.

Definition onclose (w : World) : World :=
  let w := setStatus StatusDisconnected w in
  setMicState Idle w.

Definition onerror (w : World) : World :=
  let w := emit [ConsoleError] w in
  let w := setError (Some ErrConnection) w in
  setMicState Error w.

Definition stopSession (w : World) : World :=
  let w := cleanup w in
  let w := setStatus StatusStopped w in
  setMicState Idle w.

(** [source.onended] *)
Definition onended (source : handle) (w : World) : World :=
  set_sourcesRef (sourcesRef w ∖ {[source]}) w.

(** What can happen to the component. *)
Inductive event : Type :=
| ClickStart
| ClickStop
| Unmount
| GetUserMediaResolved (stream : MediaStream)
| GetUserMediaRejected (message : option string)
| SessionResolved (session : handle)
| SessionRejected (message : option string)
| Open
| Message (currentTime : float) (msg : LiveServerMessage)
| Close
| TransportError
| AudioProcess (inputData : list number)
| Ended (source : handle)
| SpeakerTimeout.

Definition step (w : World) (e : event) : World :=
  match e with
  | ClickStart => startSession w
  | ClickStop => stopSession w
  | Unmount => cleanup w
  | GetUserMediaResolved stream => startSession_granted stream w
  | GetUserMediaRejected message =>
      match continuation w with
      | AwaitGetUserMedia _ _ => startSession_catch message w
      | _ => w
      end
  | SessionResolved session => sessionPromise_resolved session w
  | SessionRejected message => sessionPromise_rejected message w
  | Open => onopen w
  | Message currentTime msg => onmessage currentTime msg w
  | Close => onclose w
  | TransportError => onerror w
  | AudioProcess inputData => onaudioprocess inputData w
  | Ended source => onended source w
  | SpeakerTimeout => setLiveSpeaker None w
  end.

Definition run (events : list event) (w : World) : World := fold_left step events w.

End AIConversation.

(** The audio buffer that [onmessage] decodes from a message, if any. *)
Definition inbound_audio (msg : LiveServerMessage) : option AudioBuffer :=
  match truthy (audioData_of msg) with
  | Some audioData =>
      match decode audioData with
      | Normal bytes =>
          match decodeAudioData (Uint8Array.of_elements bytes) 24000 1 with
          | Normal audioBuffer => Some audioBuffer
          | Throw _ => None
          end
      | Throw _ => None
      end
  | None => None
  end.

(** The start time that [schedule] gives a buffer, from the clock reading
    and the cursor. *)
Definition start_time (currentTime cursor : float) : float :=
  if (cursor <? currentTime)%float then currentTime else cursor.

(** A time that [start] accepts: a finite number that is not negative. *)
Definition accepted (when : float) : Prop := start_error when = None.

(** [b] is not before [a]: the same number, or one that is not less. *)
Definition not_before (a b : float) : Prop := b = a \/ (a <=? b)%float = true.

(** The buffers that a sequence of effects starts, in order, each with its
    start time and its duration. *)
Definition scheduled (es : list effect) : list (float * float) :=
  flat_map (fun e => match e with
                     | SourceStart _ when buffer => [(when, duration buffer)]
                     | _ => []
                     end) es.

(** The releases of the resources that a world holds, in the order of
    [cleanup]. *)
Definition held_releases (w : World) : list effect :=
  match sessionRef w with Some session => [SessionClose session] | None => [] end
  ++ match streamRef w with Some stream => map TrackStop (getTracks stream) | None => [] end
  ++ match scriptProcessorRef w with Some node => [NodeDisconnect node] | None => [] end
  ++ match inputAudioContextRef w with Some ctx => [ContextClose ctx] | None => [] end
  ++ match outputAudioContextRef w with Some ctx => [ContextClose ctx] | None => [] end.

(** No resource is held. *)
Definition released (w : World) : Prop :=
  sessionRef w = None /\ streamRef w = None /\ scriptProcessorRef w = None /\
  inputAudioContextRef w = None /\ outputAudioContextRef w = None.

(** The effects of a second [cleanup] in a row. *)
Definition cleanup_again (speechSynthesis : bool) : list effect :=
  ConsoleLog :: if speechSynthesis then [SpeechSynthesisCancel] else [].

(** ** Inputs for the examples *)

Module Examples.

Definition microphone : MediaStream := {| stream_id := 100%nat; getTracks := [101%nat] |}.

Definition prompts (lesson : string) : option (list string) :=
  if String.eqb lesson "Bai 1" then Some ["q1"%string; "q2"%string] else None.

(** The component of lesson "Bai 1" with a stored key, its events and
    runs. *)
Definition run_lesson : list (event) -> World -> World :=
  run "Bai 1" "stored-key" None prompts true.

(** After the start button and the microphone grant: the connect attempt
    is pending. *)
Definition connecting : World :=
  run_lesson [ClickStart; GetUserMediaResolved microphone] initial.

(** A message whose first part carries the given base64 audio. *)
Definition audio_message (audio : string) : LiveServerMessage :=
  {| serverContent :=
       Some {| modelTurn := Some {| parts := Some [ {| inlineData := Some audio |} ] |};
               turnComplete := false |} |}.

(** The buffers of "AAA=" (one frame) and "AAAAAA==" (two frames). *)
Definition one_frame : AudioBuffer :=
  {| numberOfChannels := 1%nat; buffer_length := 1%nat; sampleRate := 24000;
     channelData := [[Fin (0 # 32768)]] |}.


Definition connecting_closure : Closure :=
  {| localStream := microphone; inputAudioContext := 0%nat;
     outputAudioContext := 1%nat; outputNode := 2%nat;
     sessionPromise := Pending [] |}.

End Examples.

(** The playback state is left alone between two worlds: the cursor and the
    live set are the same, handles are only added, and the effects performed
    in between start no buffer. *)
Definition playback_untouched (w w' : World) : Prop :=
  nextStartTimeRef w' = nextStartTimeRef w /\
  sourcesRef w' = sourcesRef w /\
  (next_handle w <= next_handle w')%nat /\
  exists es, trace w' = trace w ++ es /\ scheduled es = [].

(** Every source of the live set is a platform object made earlier, and one
    that was started. *)
Definition live_sources_started (w : World) : Prop :=
  forall source, source ∈ sourcesRef w ->
    (source < next_handle w)%nat /\
    exists when buffer, In (SourceStart source when buffer) (trace w).

(** The timers that a sequence of effects has set and not cleared since. *)
Definition timer_effect (pending : gset handle) (e : effect) : gset handle :=
  match e with
  | SetTimeout timer _ => {[timer]} ∪ pending
  | ClearTimeout timer => pending ∖ {[timer]}
  | _ => pending
  end.

Definition pending_timeouts (es : list effect) : gset handle :=
  fold_left timer_effect es ∅.

(** The timer in [liveSpeakerTimeoutRef] is the only one set and not
    cleared. *)
Definition one_indicator_timer (w : World) : Prop :=
  pending_timeouts (trace w)
  = match liveSpeakerTimeoutRef w with
    | Some timer => {[timer]}
    | None => ∅
    end.

(** The effects performed between two worlds touch no timer, and the timer
    ref is the same. *)
Definition timers_untouched (w w' : World) : Prop :=
  liveSpeakerTimeoutRef w' = liveSpeakerTimeoutRef w /\
  exists es, trace w' = trace w ++ es /\
             Forall (fun e => forall pending, timer_effect pending e = pending) es.

(** ** The typing exercise (src/types.ts, TypingExercise) *)

(** A JavaScript string that may hold any character, as the sequence of its
    UTF-16 code units; [===] on strings is the equality of these
    sequences. *)
Definition ustring : Type := list N.

Module VocabularyWord.
Record t : Type := { id : Z; char : ustring; pinyin : ustring; vi : ustring }.
End VocabularyWord.

Module TypingExercise.

(** The code points that [String.prototype.trim] removes: the white space
    and the line terminators of ECMAScript. *)
Definition is_white_space (c : N) : bool :=
  ((c =? 9) || (c =? 10) || (c =? 11) || (c =? 12) || (c =? 13) || (c =? 32)
   || (c =? 160) || (c =? 5760) || ((8192 <=? c) && (c <=? 8202))
   || (c =? 8232) || (c =? 8233) || (c =? 8239) || (c =? 8287)
   || (c =? 12288) || (c =? 65279))%N.

Fixpoint trimStart (s : ustring) : ustring :=
  match s with
  | [] => []
  | c :: r => if is_white_space c then trimStart r else s
  end.

Definition trimEnd (s : ustring) : ustring := rev (trimStart (rev s)).

Definition trim (s : ustring) : ustring := trimEnd (trimStart s).

(** The state of the component; [userInputs] is an object keyed by word
    id. *)
Record State : Type := {
  shuffledWords : list VocabularyWord.t;
  userInputs : gmap Z ustring;
  score : Z
}.

(** [shuffleAndReset]; [shuffled] is what the sort with the random
    comparator returns, the words in some order. *)
Definition shuffleAndReset (shuffled : list VocabularyWord.t) : State :=
  {| shuffledWords := shuffled; userInputs := ∅; score := 0 |}.

(** The loop of the effect that keeps the score. *)
Definition currentScore (shuffledWords : list VocabularyWord.t)
    (userInputs : gmap Z ustring) : Z :=
  fold_left
    (fun currentScore word =>
       match userInputs !! VocabularyWord.id word with
       | None => currentScore
       | Some input =>
           if decide (input = []) then currentScore
           else if decide (input = VocabularyWord.char word) then currentScore + 1
           else currentScore - 1
       end)
    shuffledWords 0.

(** The effect on [userInputs] and [shuffledWords]: [setScore(currentScore)]. *)
Definition scoreEffect (st : State) : State :=
  {| shuffledWords := shuffledWords st;
     userInputs := userInputs st;
     score := currentScore (shuffledWords st) (userInputs st) |}.

(** [handleInputChange]: [{...prev, [wordId]: value.trim()}]. *)
Definition handleInputChange (wordId : Z) (value : ustring) (st : State) : State :=
  {| shuffledWords := shuffledWords st;
     userInputs := <[wordId := trim value]> (userInputs st);
     score := score st |}.

(** The three class lists that [getInputClassName] returns: the gray
    border, the green one and the red one. *)
Inductive InputClassName : Type := ClassEmpty | ClassCorrect | ClassIncorrect.

Definition getInputClassName (word : VocabularyWord.t) (inputValue : option ustring)
  : InputClassName :=
  match inputValue with
  | None => ClassEmpty
  | Some v =>
      if decide (v = []) then ClassEmpty
      else if decide (v = VocabularyWord.char word) then ClassCorrect
      else ClassIncorrect
  end.

(** The class of the input field of a word, as rendered. *)
Definition rendered (userInputs : gmap Z ustring) (word : VocabularyWord.t)
  : InputClassName :=
  getInputClassName word (userInputs !! VocabularyWord.id word).

(** The points that go with a class. *)
Definition points (c : InputClassName) : Z :=
  match c with
  | ClassEmpty => 0
  | ClassCorrect => 1
  | ClassIncorrect => -1
  end.

End TypingExercise.

(** ** The stored API key (App) *)

Module App.

(** The part of the state of [App] that the settings touch, with the items
    of [localStorage]. *)
Record Settings : Type := {
  userApiKey : string;
  isSettingsOpen : bool;
  localStorage : gmap string string
}.

(** The initial value of [userApiKey]:
    [localStorage.getItem('gemini_api_key') || ''], and [''] where there is
    no [localStorage] at all. *)
Definition initialUserApiKey (storage : option (gmap string string)) : string :=
  match storage with
  | Some items => default EmptyString (items !! "gemini_api_key"%string)
  | None => EmptyString
  end.

Definition handleSaveSettings (key : string) (st : Settings) : Settings :=
  {| userApiKey := key;
     isSettingsOpen := false;
     localStorage := <["gemini_api_key"%string := key]> (localStorage st) |}.

End App.

(** ** Binary64 numbers on a line of integers *)

(** The magnitude of the finite number [m * 2^e], in units of [2^-1074],
    the least positive number of the format. *)
Definition magnitude (m : positive) (e : Z) : Z := Z.pos m * 2 ^ (e + 1074).

(** A number of the format other than NaN as an integer: the order of the
    numbers is the order of these integers. *)
Definition SFord (x : spec_float) : Z :=
  match x with
  | S754_zero _ => 0
  | S754_nan => 0
  | S754_infinity s => if s then - 2 ^ 2100 else 2 ^ 2100
  | S754_finite s m e => if s then - magnitude m e else magnitude m e
  end.

(** A zero, a positive number or the positive infinity. *)
Definition nonnegative (p : spec_float) : Prop :=
  match p with
  | S754_zero _ | S754_finite false _ _ | S754_infinity false => True
  | _ => False
  end.

(** * Properties *)

(** ** Binary64 numbers: the order and the rounding of sums

    The operations of the kernel's [float] are specified by [SpecFloat];
    the facts below are read off that specification at the format of
    binary64 numbers (53 bits, least exponent -1074). *)

Lemma digits2_pos_bounds (m : positive) :
  2 ^ (Z.pos (digits2_pos m) - 1) <= Z.pos m < 2 ^ Z.pos (digits2_pos m).
Proof.
  induction m as [p IH|p IH|]; cbn [digits2_pos].
  - rewrite Pos2Z.inj_succ. replace (Z.succ (Z.pos (digits2_pos p)) - 1)
      with (Z.succ (Z.pos (digits2_pos p) - 1)) by lia.
    rewrite !Z.pow_succ_r by lia. lia.
  - rewrite Pos2Z.inj_succ. replace (Z.succ (Z.pos (digits2_pos p)) - 1)
      with (Z.succ (Z.pos (digits2_pos p) - 1)) by lia.
    rewrite !Z.pow_succ_r by lia. lia.
  - cbn. lia.
Qed.

Lemma bounded_inv (m : positive) (e : Z) :
  bounded prec emax m e = true ->
  Z.max (Z.pos (digits2_pos m) + e - 53) (-1074) = e /\ e <= 971.
Proof.
  unfold bounded, canonical_mantissa, fexp, SpecFloat.emin, prec, emax.
  intros H. apply andb_prop in H. destruct H as [H1 H2].
  apply Z.eqb_eq in H1. apply Z.leb_le in H2. split; [exact H1 | exact H2].
Qed.

Lemma magnitude_pos m e : -1074 <= e -> 0 < magnitude m e.
Proof. intros He. unfold magnitude. apply Z.mul_pos_pos; [lia|]. apply Z.pow_pos_nonneg; lia. Qed.

Lemma magnitude_lt_exponent m1 e1 m2 e2 :
  bounded prec emax m1 e1 = true -> bounded prec emax m2 e2 = true ->
  e1 < e2 -> magnitude m1 e1 < magnitude m2 e2.
Proof.
  intros H1 H2 He. apply bounded_inv in H1, H2.
  destruct H1 as [H1 _], H2 as [H2 _].
  pose proof (digits2_pos_bounds m1) as [_ B1].
  pose proof (digits2_pos_bounds m2) as [B2 _].
  assert (D1 : Z.pos (digits2_pos m1) <= 53) by lia.
  assert (D2 : Z.pos (digits2_pos m2) = 53) by lia.
  rewrite D2 in B2. change (2 ^ (53 - 1)) with 4503599627370496 in B2.
  assert (B1' : Z.pos m1 < 9007199254740992).
  { eapply Z.lt_le_trans; [exact B1|].
    change 9007199254740992 with (2 ^ 53). apply Z.pow_le_mono_r; lia. }
  unfold magnitude.
  assert (E : 2 ^ (e2 + 1074) = 2 ^ (e1 + 1074) * 2 ^ (e2 - e1)).
  { rewrite <- Z.pow_add_r by lia. f_equal. lia. }
  assert (P : 0 < 2 ^ (e1 + 1074)) by (apply Z.pow_pos_nonneg; lia).
  assert (Q : 2 <= 2 ^ (e2 - e1)).
  { change 2 with (2 ^ 1) at 1. apply Z.pow_le_mono_r; lia. }
  rewrite E. nia.
Qed.

Lemma magnitude_max m e : bounded prec emax m e = true -> magnitude m e < 2 ^ 2100.
Proof.
  intros H. apply bounded_inv in H. destruct H as [H1 H2].
  pose proof (digits2_pos_bounds m) as [_ B1].
  unfold magnitude.
  assert (Z.pos m < 2 ^ 53).
  { eapply Z.lt_le_trans; [exact B1|]. apply Z.pow_le_mono_r; lia. }
  assert (2 ^ (e + 1074) <= 2 ^ 2045) by (apply Z.pow_le_mono_r; lia).
  assert (0 < 2 ^ (e + 1074)) by (apply Z.pow_pos_nonneg; lia).
  replace (2 ^ 2100) with (2 ^ 53 * 2 ^ 2047) by (rewrite <- Z.pow_add_r by lia; reflexivity).
  assert (2 ^ 2045 < 2 ^ 2047) by (apply Z.pow_lt_mono_r; lia).
  assert (0 < 2 ^ 53) by (apply Z.pow_pos_nonneg; lia).
  nia.
Qed.

Lemma SFcompare_ord (x y : spec_float) :
  valid_binary x = true -> valid_binary y = true ->
  x <> S754_nan -> y <> S754_nan ->
  SFcompare x y = Some (SFord x ?= SFord y).
Proof.
  intros Vx Vy Nx Ny.
  assert (P : 0 < 2 ^ 2100) by (apply Z.pow_pos_nonneg; lia).
  set (top := 2 ^ 2100) in *.
  assert (Mp : forall m e, bounded prec emax m e = true ->
                           0 < magnitude m e < top).
  { intros m e V. split; [|apply magnitude_max, V].
    apply magnitude_pos. apply bounded_inv in V. lia. }
  destruct x as [sx|sx| |sx mx ex], y as [sy|sy| |sy my ey]; try congruence;
    cbn [SFcompare SFord valid_binary] in *; fold top;
    try pose proof (Mp _ _ Vx); try pose proof (Mp _ _ Vy);
    try (destruct sx); try (destruct sy);
    try (f_equal; symmetry;
         first [apply Z.compare_eq_iff; lia | apply Z.compare_lt_iff; lia
               | apply Z.compare_gt_iff; lia]).
  - f_equal. rewrite Pos.compare_cont_spec. cbn [Pos.switch_Eq].
    destruct (Z.compare_spec ex ey) as [E|E|E].
    + subst ey. rewrite Z.compare_opp. unfold magnitude.
      rewrite <- Zmult_compare_compat_r
        by (apply Z.lt_gt, Z.pow_pos_nonneg; [lia|apply bounded_inv in Vx; lia]).
      change (Z.pos my ?= Z.pos mx) with (my ?= mx)%positive.
      rewrite (Pos.compare_antisym mx my). destruct (mx ?= my)%positive; reflexivity.
    + symmetry. apply Z.compare_gt_iff.
      pose proof (magnitude_lt_exponent _ _ _ _ Vx Vy E). lia.
    + symmetry. apply Z.compare_lt_iff.
      pose proof (magnitude_lt_exponent _ _ _ _ Vy Vx E). lia.
  - f_equal. rewrite Pos.compare_cont_spec. cbn [Pos.switch_Eq].
    destruct (Z.compare_spec ex ey) as [E|E|E].
    + subst ey. unfold magnitude.
      rewrite <- Zmult_compare_compat_r
        by (apply Z.lt_gt, Z.pow_pos_nonneg; [lia|apply bounded_inv in Vx; lia]).
      change (Z.pos mx ?= Z.pos my) with (mx ?= my)%positive.
      destruct (mx ?= my)%positive; reflexivity.
    + symmetry. apply Z.compare_lt_iff. apply magnitude_lt_exponent; assumption.
    + symmetry. apply Z.compare_gt_iff. apply magnitude_lt_exponent; assumption.
Qed.

Lemma fexp_eq (e : Z) : fexp prec emax e = Z.max (e - 53) (-1074).
Proof. reflexivity. Qed.

Lemma Zdigits2_bounds (m : Z) :
  0 < m -> 2 ^ (Zdigits2 m - 1) <= m < 2 ^ Zdigits2 m.
Proof. destruct m as [|p|p]; try lia. intros _. apply digits2_pos_bounds. Qed.

Lemma Zdigits2_unique (m d : Z) :
  0 < m -> 2 ^ (d - 1) <= m < 2 ^ d -> Zdigits2 m = d.
Proof.
  intros Hm [L U]. pose proof (Zdigits2_bounds m Hm) as [L' U'].
  assert (0 < Zdigits2 m) by (destruct m; cbn; lia).
  assert (0 < d).
  { destruct (Z.ltb_spec 0 d) as [|Hd]; [assumption|exfalso].
    assert (2 ^ d <= 2 ^ 0) by (apply Z.pow_le_mono_r; lia).
    change (2 ^ 0) with 1 in *. lia. }
  assert (d - 1 < Zdigits2 m).
  { apply (Z.pow_lt_mono_r_iff 2); [lia|lia|]. lia. }
  assert (Zdigits2 m - 1 < d).
  { apply (Z.pow_lt_mono_r_iff 2); [lia|lia|]. lia. }
  lia.
Qed.

Lemma shr_1_m (r : shr_record) : 0 <= shr_m r -> shr_m (shr_1 r) = shr_m r / 2.
Proof.
  destruct r as [m rb sb]. cbn [shr_m]. intros Hm.
  rewrite <- Z.div2_div. destruct m as [|[p|p|]|p]; try lia; reflexivity.
Qed.

Lemma shr_iter_m (p : positive) (r : shr_record) :
  0 <= shr_m r -> shr_m (SpecFloat.iter_pos shr_1 p r) = shr_m r / 2 ^ Z.pos p.
Proof.
  revert r. induction p as [p IH|p IH|]; intros r Hm; cbn [SpecFloat.iter_pos].
  - assert (H1 : 0 <= shr_m (shr_1 r)).
    { rewrite shr_1_m by assumption. apply Z.div_pos; lia. }
    assert (P : 0 < 2 ^ Z.pos p) by (apply Z.pow_pos_nonneg; lia).
    assert (H2 : 0 <= shr_m (SpecFloat.iter_pos shr_1 p (shr_1 r))).
    { rewrite IH by assumption. apply Z.div_pos; lia. }
    assert (E : 2 ^ Z.pos p~1 = 2 * 2 ^ Z.pos p * 2 ^ Z.pos p).
    { replace (Z.pos p~1) with (1 + Z.pos p + Z.pos p) by lia.
      rewrite !Z.pow_add_r by lia. reflexivity. }
    rewrite IH, IH, shr_1_m by assumption.
    rewrite !Z.div_div by lia. rewrite E. f_equal; lia.
  - assert (P : 0 < 2 ^ Z.pos p) by (apply Z.pow_pos_nonneg; lia).
    assert (H2 : 0 <= shr_m (SpecFloat.iter_pos shr_1 p r)).
    { rewrite IH by assumption. apply Z.div_pos; lia. }
    assert (E : 2 ^ Z.pos p~0 = 2 ^ Z.pos p * 2 ^ Z.pos p).
    { replace (Z.pos p~0) with (Z.pos p + Z.pos p) by lia.
      rewrite !Z.pow_add_r by lia. reflexivity. }
    rewrite IH, IH by assumption.
    rewrite !Z.div_div by lia. rewrite E. f_equal; lia.
  - rewrite shr_1_m by assumption. reflexivity.
Qed.

(** [shr_fexp] shifts the mantissa right by the number of bits that it has
    beyond the format, if any. *)
Lemma shr_fexp_spec (m e : Z) (l : location) :
  0 <= m ->
  let n := Z.max (fexp prec emax (Zdigits2 m + e) - e) 0 in
  shr_m (fst (shr_fexp prec emax m e l)) = m / 2 ^ n /\
  snd (shr_fexp prec emax m e l) = e + n.
Proof.
  intros Hm. cbv zeta. unfold shr_fexp, shr.
  assert (Hr : shr_m (shr_record_of_loc m l) = m) by (destruct l as [|[]]; reflexivity).
  destruct (fexp prec emax (Zdigits2 m + e) - e) as [|p|p]; cbn [fst snd].
  - rewrite Hr. change (Z.max 0 0) with 0. rewrite Z.div_1_r. lia.
  - rewrite shr_iter_m by lia. rewrite Hr.
    replace (Z.max (Z.pos p) 0) with (Z.pos p) by lia. lia.
  - rewrite Hr. replace (Z.max (Z.neg p) 0) with 0 by lia. rewrite Z.div_1_r. lia.
Qed.

Lemma round_nearest_even_cases (m : Z) (l : location) :
  round_nearest_even m l = m \/ round_nearest_even m l = m + 1.
Proof.
  destruct l as [|[]]; cbn; auto. destruct (Z.even m); auto.
Qed.

(** The result of the rounding of a non-negative mantissa is a zero, a
    positive number or the positive infinity. *)
Lemma binary_round_aux_nonneg (mz ez : Z) (lz : location) :
  0 <= mz ->
  match binary_round_aux prec emax false mz ez lz with
  | S754_zero false | S754_finite false _ _ | S754_infinity false => True
  | _ => False
  end.
Proof.
  intros Hm. unfold binary_round_aux.
  pose proof (shr_fexp_spec mz ez lz Hm) as [H1 _].
  destruct (shr_fexp prec emax mz ez lz) as [mrs' e']. cbn [fst snd] in H1.
  set (m2 := round_nearest_even (shr_m mrs') (loc_of_shr_record mrs')).
  assert (0 <= shr_m mrs').
  { rewrite H1. apply Z.div_pos; [lia|]. apply Z.pow_pos_nonneg; lia. }
  assert (Hm2 : 0 <= m2).
  { unfold m2.
    destruct (round_nearest_even_cases (shr_m mrs') (loc_of_shr_record mrs')) as [->| ->]; lia. }
  pose proof (shr_fexp_spec m2 e' loc_Exact Hm2) as [H3 _].
  destruct (shr_fexp prec emax m2 e' loc_Exact) as [mrs'' e'']. cbn [fst snd] in H3.
  assert (0 <= shr_m mrs'').
  { rewrite H3. apply Z.div_pos; [lia|]. apply Z.pow_pos_nonneg; lia. }
  destruct (shr_m mrs''); [exact I| |lia].
  destruct (e'' <=? emax - prec); exact I.
Qed.

(** Rounding does not go below a number of the format that the exact value
    is at or above. *)
Lemma binary_round_aux_ge (mz ez : Z) (lz : location) (mx : positive) (ex : Z) :
  0 < mz -> -1074 <= ez ->
  bounded prec emax mx ex = true ->
  magnitude mx ex <= mz * 2 ^ (ez + 1074) ->
  match binary_round_aux prec emax false mz ez lz with
  | S754_finite false m e => magnitude mx ex <= magnitude m e
  | S754_infinity false => True
  | _ => False
  end.
Proof.
  intros Hm He Vx Hle. unfold binary_round_aux.
  pose proof (shr_fexp_spec mz ez lz ltac:(lia)) as [H1 E1].
  destruct (shr_fexp prec emax mz ez lz) as [mrs' e']. cbn [fst snd] in H1, E1.
  set (m1 := shr_m mrs') in *.
  set (m2 := round_nearest_even m1 (loc_of_shr_record mrs')).
  rewrite fexp_eq in H1, E1.
  pose proof (Zdigits2_bounds mz Hm) as [DL DU].
  set (D := Zdigits2 mz) in *.
  set (n := Z.max (Z.max (D + ez - 53) (-1074) - ez) 0) in *.
  assert (Hn : 0 <= n) by lia.
  assert (P2n : 0 < 2 ^ n) by (apply Z.pow_pos_nonneg; lia).
  assert (HD : 0 < D) by (unfold D; destruct mz; cbn; lia).
  assert (Hn' : n = 0 \/ (0 < n /\ n = D - 53)) by lia.
  (* the first mantissa *)
  assert (B1 : 2 ^ (D - n - 1) <= m1 < 2 ^ (D - n)).
  { rewrite H1. destruct Hn' as [->|[Hp ->]].
    - rewrite Z.div_1_r, Z.sub_0_r. lia.
    - replace (D - (D - 53)) with 53 by lia. split.
      + apply Z.div_le_lower_bound; [lia|].
        rewrite <- Z.pow_add_r by lia. replace (D - 53 + (53 - 1)) with (D - 1) by lia. lia.
      + apply Z.div_lt_upper_bound; [lia|].
        rewrite <- Z.pow_add_r by lia. replace (D - 53 + 53) with D by lia. lia. }
  assert (Hm1 : 0 < m1).
  { eapply Z.lt_le_trans; [|apply B1]. apply Z.pow_pos_nonneg; lia. }
  assert (D1 : Zdigits2 m1 = D - n) by (apply Zdigits2_unique; [lia|exact B1]).
  assert (F1 : Z.max (D - n + e' - 53) (-1074) <= e') by lia.
  (* the exact value is at or above the number [mx], and so is its floor *)
  assert (X1 : magnitude mx ex <= m1 * 2 ^ (e' + 1074)).
  { destruct Hn' as [Hz|[Hp Hd]].
    - rewrite H1, Hz, Z.div_1_r. replace e' with ez by lia. exact Hle.
    - pose proof (bounded_inv _ _ Vx) as [Cx _].
      pose proof (digits2_pos_bounds mx) as [_ Ux].
      destruct (Z.le_gt_cases e' ex) as [Hex|Hex].
      + (* a multiple of the unit of the result *)
        unfold magnitude in *.
        replace (ex + 1074) with ((ex - e') + (e' + 1074)) by lia.
        rewrite Z.pow_add_r by lia. rewrite Z.mul_assoc.
        apply Z.mul_le_mono_nonneg_r; [apply Z.pow_nonneg; lia|].
        rewrite H1. apply Z.div_le_lower_bound; [lia|].
        assert (Q : 0 < 2 ^ (ez + 1074)) by (apply Z.pow_pos_nonneg; lia).
        apply (Z.mul_le_mono_pos_r _ _ (2 ^ (ez + 1074))); [exact Q|].
        etransitivity; [|exact Hle].
        assert (EK : 2 ^ (ex + 1074) = 2 ^ (ex - e') * (2 ^ n * 2 ^ (ez + 1074))).
        { rewrite <- !Z.pow_add_r by lia. f_equal. lia. }
        rewrite EK. apply Z.eq_le_incl. ring.
      + (* a number of a lower binade *)
        assert (Z.pos mx < 2 ^ 53).
        { eapply Z.lt_le_trans; [exact Ux|]. apply Z.pow_le_mono_r; lia. }
        assert (2 ^ 52 <= m1).
        { replace 52 with (D - n - 1) by lia. apply B1. }
        unfold magnitude.
        assert (Q : 0 < 2 ^ (ex + 1074)) by (apply Z.pow_pos_nonneg; lia).
        assert (E : 2 ^ (e' + 1074) = 2 ^ (ex + 1074) * 2 ^ (e' - ex)).
        { rewrite <- Z.pow_add_r by lia. f_equal. lia. }
        assert (2 <= 2 ^ (e' - ex)).
        { change 2 with (2 ^ 1) at 1. apply Z.pow_le_mono_r; lia. }
        change (2 ^ 53) with 9007199254740992 in *.
        change (2 ^ 52) with 4503599627370496 in *.
        rewrite E. nia. }
  (* the rounded mantissa and the second shift *)
  assert (Hm2 : m2 = m1 \/ m2 = m1 + 1) by apply round_nearest_even_cases.
  pose proof (shr_fexp_spec m2 e' loc_Exact ltac:(lia)) as [H3 E3].
  destruct (shr_fexp prec emax m2 e' loc_Exact) as [mrs'' e'']. cbn [fst snd] in H3, E3.
  rewrite fexp_eq in H3, E3.
  assert (He' : -1074 <= e') by lia.
  assert (X3 : m1 * 2 ^ (e' + 1074) <= shr_m mrs'' * 2 ^ (e'' + 1074) /\ 0 < shr_m mrs'').
  { assert (Q : 0 < 2 ^ (e' + 1074)) by (apply Z.pow_pos_nonneg; lia).
    destruct (Z.eq_dec (Zdigits2 m2) (D - n)) as [Hd|Hd].
    - rewrite Hd in H3, E3.
      replace (Z.max (Z.max (D - n + e' - 53) (-1074) - e') 0) with 0 in * by lia.
      rewrite Z.div_1_r in H3. rewrite H3. replace e'' with e' by lia.
      split; [apply Z.mul_le_mono_nonneg_r; lia|lia].
    - destruct Hm2 as [Hm2|Hm2]; [rewrite Hm2 in Hd; contradiction|].
      (* the mantissa has grown by a bit: it is a power of two *)
      assert (E2 : m2 = 2 ^ (D - n)).
      { destruct (Z.eq_dec m2 (2 ^ (D - n))) as [|Hne]; [assumption|exfalso].
        apply Hd. apply Zdigits2_unique; lia. }
      assert (D2 : Zdigits2 m2 = D - n + 1).
      { apply Zdigits2_unique; [lia|]. rewrite E2.
        replace (D - n + 1 - 1) with (D - n) by lia. split; [lia|].
        apply Z.pow_lt_mono_r; lia. }
      rewrite D2 in H3, E3.
      set (n2 := Z.max (Z.max (D - n + 1 + e' - 53) (-1074) - e') 0) in *.
      assert (Hn2 : n2 = 0 \/ n2 = 1) by lia.
      destruct Hn2 as [Hz|Ho]; rewrite ?Hz, ?Ho in *.
      + rewrite Z.div_1_r in H3. rewrite H3. replace e'' with e' by lia.
        split; [apply Z.mul_le_mono_nonneg_r; lia|lia].
      + assert (Hh : 0 < 2 ^ (D - n - 1)) by (apply Z.pow_pos_nonneg; lia).
        assert (E2' : m2 = 2 ^ (D - n - 1) * 2).
        { rewrite E2. replace (D - n) with ((D - n - 1) + 1) at 1 by lia.
          rewrite (Z.pow_add_r 2 (D - n - 1) 1) by lia. reflexivity. }
        assert (H3' : shr_m mrs'' = 2 ^ (D - n - 1)).
        { rewrite H3. change (2 ^ 1) with 2. rewrite E2'. apply Z.div_mul. lia. }
        assert (EQ : 2 ^ (e'' + 1074) = 2 * 2 ^ (e' + 1074)).
        { replace (e'' + 1074) with (1 + (e' + 1074)) by lia.
          rewrite (Z.pow_add_r 2 1 (e' + 1074)) by lia. reflexivity. }
        rewrite H3', EQ. split; [|exact Hh].
        replace (2 ^ (D - n - 1) * (2 * 2 ^ (e' + 1074)))
          with ((m1 + 1) * 2 ^ (e' + 1074)) by (rewrite <- Hm2, E2'; ring).
        apply Z.mul_le_mono_nonneg_r; lia. }
  destruct X3 as [X3 P3].
  destruct (shr_m mrs'') as [|m3|m3]; try lia.
  destruct (e'' <=? emax - prec); [|exact I].
  unfold magnitude in *. lia.
Qed.

Lemma Pos_iter_xO (d m : positive) : Z.pos (Pos.iter xO m d) = Z.pos m * 2 ^ Z.pos d.
Proof.
  induction d as [|d IH] using Pos.peano_ind.
  - cbn. lia.
  - rewrite Pos.iter_succ, Pos2Z.inj_xO, IH, Pos2Z.inj_succ, Z.pow_succ_r by lia. ring.
Qed.

(** [shl_align] keeps the value. *)
Lemma shl_align_spec (mx : positive) (ex e : Z) :
  -1074 <= ex -> -1074 <= e ->
  -1074 <= snd (shl_align mx ex e) /\
  magnitude (fst (shl_align mx ex e)) (snd (shl_align mx ex e)) = magnitude mx ex.
Proof.
  intros Hx He. unfold shl_align.
  destruct (e - ex) as [|d|d] eqn:E; cbn [fst snd]; try (split; [lia|reflexivity]).
  split; [lia|]. unfold magnitude. rewrite Pos_iter_xO.
  replace (ex + 1074) with (Z.pos d + (e + 1074)) by lia.
  rewrite (Z.pow_add_r 2 (Z.pos d) (e + 1074)) by lia. ring.
Qed.

Lemma shl_align_fst (mx : positive) (ex e : Z) :
  e <= ex -> Z.pos (fst (shl_align mx ex e)) = Z.pos mx * 2 ^ (ex - e).
Proof.
  intros He. unfold shl_align.
  destruct (e - ex) as [|d|d] eqn:E; cbn [fst]; try lia.
  - replace (ex - e) with 0 by lia. lia.
  - rewrite Pos_iter_xO. f_equal. f_equal. lia.
Qed.

Lemma binary_round_ge (M : positive) (e : Z) (mx : positive) (ex : Z) :
  -1074 <= e ->
  bounded prec emax mx ex = true ->
  magnitude mx ex <= magnitude M e ->
  match binary_round prec emax false M e with
  | S754_finite false m e' => magnitude mx ex <= magnitude m e'
  | S754_infinity false => True
  | _ => False
  end.
Proof.
  intros He Vx Hle. unfold binary_round.
  pose proof (shl_align_spec M e (fexp prec emax (Z.pos (digits2_pos M) + e)) He) as [H1 H2].
  { rewrite fexp_eq. lia. }
  destruct (shl_align M e (fexp prec emax (Z.pos (digits2_pos M) + e))) as [mz ez].
  cbn [fst snd] in H1, H2.
  apply binary_round_aux_ge; [lia|exact H1|exact Vx|].
  rewrite <- H2 in Hle. exact Hle.
Qed.

(** The sum of two positive numbers is not below the first. *)
Lemma SFadd_ge (mx : positive) (ex : Z) (my : positive) (ey : Z) :
  bounded prec emax mx ex = true -> bounded prec emax my ey = true ->
  match SFadd prec emax (S754_finite false mx ex) (S754_finite false my ey) with
  | S754_finite false m e => magnitude mx ex <= magnitude m e
  | S754_infinity false => True
  | _ => False
  end.
Proof.
  intros Vx Vy. cbn [SFadd cond_Zopp].
  pose proof (bounded_inv _ _ Vx) as [? _].
  pose proof (bounded_inv _ _ Vy) as [? _].
  pose proof (shl_align_fst mx ex (Z.min ex ey) ltac:(lia)) as Ex.
  pose proof (shl_align_fst my ey (Z.min ex ey) ltac:(lia)) as Ey.
  set (a := fst (shl_align mx ex (Z.min ex ey))) in *.
  set (b := fst (shl_align my ey (Z.min ex ey))) in *.
  change (Z.pos a + Z.pos b) with (Z.pos (a + b)). cbn [binary_normalize].
  apply binary_round_ge; [lia|exact Vx|].
  unfold magnitude. rewrite Pos2Z.inj_add, Ex.
  replace (ex + 1074) with ((ex - Z.min ex ey) + (Z.min ex ey + 1074)) at 1 by lia.
  rewrite (Z.pow_add_r 2 (ex - Z.min ex ey) (Z.min ex ey + 1074)) by lia.
  assert (0 < 2 ^ (Z.min ex ey + 1074)) by (apply Z.pow_pos_nonneg; lia).
  nia.
Qed.

(** *** The order of the numbers *)

Lemma SFcompare_nan_r (x : spec_float) : SFcompare x S754_nan = None.
Proof. destruct x; reflexivity. Qed.

Lemma nan_dec (p : spec_float) : {p = S754_nan} + {p <> S754_nan}.
Proof. destruct p; (left; reflexivity) || (right; discriminate). Qed.

Lemma leb_ord (x y : float) :
  (x <=? y)%float = true <->
  Prim2SF x <> S754_nan /\ Prim2SF y <> S754_nan /\
  SFord (Prim2SF x) <= SFord (Prim2SF y).
Proof.
  rewrite FloatAxioms.leb_spec. unfold SFleb.
  pose proof (Prim2SF_valid x) as Vx. pose proof (Prim2SF_valid y) as Vy.
  destruct (nan_dec (Prim2SF x)) as [Ex|Nx].
  { rewrite Ex. cbn [SFcompare]. split; [discriminate|intros [? _]; congruence]. }
  destruct (nan_dec (Prim2SF y)) as [Ey|Ny].
  { rewrite Ey, SFcompare_nan_r. split; [discriminate|intros (_ & ? & _); congruence]. }
  rewrite SFcompare_ord by assumption.
  destruct (Z.compare_spec (SFord (Prim2SF x)) (SFord (Prim2SF y)));
    (split; [intros ?; repeat split; (assumption || discriminate || lia)
            |intros (_ & _ & ?); (reflexivity || lia)]).
Qed.

Lemma ltb_ord (x y : float) :
  (x <? y)%float = true <->
  Prim2SF x <> S754_nan /\ Prim2SF y <> S754_nan /\
  SFord (Prim2SF x) < SFord (Prim2SF y).
Proof.
  rewrite FloatAxioms.ltb_spec. unfold SFltb.
  pose proof (Prim2SF_valid x) as Vx. pose proof (Prim2SF_valid y) as Vy.
  destruct (nan_dec (Prim2SF x)) as [Ex|Nx].
  { rewrite Ex. cbn [SFcompare]. split; [discriminate|intros [? _]; congruence]. }
  destruct (nan_dec (Prim2SF y)) as [Ey|Ny].
  { rewrite Ey, SFcompare_nan_r. split; [discriminate|intros (_ & ? & _); congruence]. }
  rewrite SFcompare_ord by assumption.
  destruct (Z.compare_spec (SFord (Prim2SF x)) (SFord (Prim2SF y)));
    (split; [intros ?; repeat split; (assumption || discriminate || lia)
            |intros (_ & _ & ?); (reflexivity || lia)]).
Qed.

Lemma eqb_refl_number (x : float) : (x =? x)%float = true <-> Prim2SF x <> S754_nan.
Proof.
  rewrite FloatAxioms.eqb_spec. unfold SFeqb. pose proof (Prim2SF_valid x) as Vx.
  destruct (nan_dec (Prim2SF x)) as [Ex|Nx].
  { rewrite Ex. cbn [SFcompare]. split; [discriminate|congruence]. }
  rewrite SFcompare_ord by assumption.
  rewrite Z.compare_refl. split; [intros _; assumption|reflexivity].
Qed.


Lemma leb_trans (x y z : float) :
  (x <=? y)%float = true -> (y <=? z)%float = true -> (x <=? z)%float = true.
Proof.
  rewrite !leb_ord. intros (? & ? & ?) (? & ? & ?). repeat split; (assumption || lia).
Qed.

Lemma ltb_leb (x y : float) : (x <? y)%float = true -> (x <=? y)%float = true.
Proof. rewrite ltb_ord, leb_ord. intros (? & ? & ?). repeat split; (assumption || lia). Qed.

Lemma ltb_false_leb (x y : float) :
  (x <? y)%float = false -> (x =? x)%float = true -> (y =? y)%float = true ->
  (y <=? x)%float = true.
Proof.
  intros H Hx Hy. apply eqb_refl_number in Hx, Hy. apply leb_ord.
  repeat split; try assumption.
  destruct (Z.le_gt_cases (SFord (Prim2SF y)) (SFord (Prim2SF x))) as [|Hlt]; [assumption|].
  assert ((x <? y)%float = true) by (apply ltb_ord; repeat split; assumption).
  congruence.
Qed.

Lemma leb_number (x y : float) :
  (x <=? y)%float = true -> (x =? x)%float = true /\ (y =? y)%float = true.
Proof. rewrite leb_ord, !eqb_refl_number. tauto. Qed.

Lemma leb_not_ltb (x y : float) : (x <=? y)%float = true -> (y <? x)%float = false.
Proof.
  intros H. apply leb_ord in H. destruct H as (_ & _ & H).
  destruct (y <? x)%float eqn:E; [|reflexivity].
  apply ltb_ord in E. lia.
Qed.

(** Adding a number that is not negative does not give less. *)
Lemma add_ge (x d : float) :
  (0 <=? x)%float = true -> (0 <=? d)%float = true -> (x <=? x + d)%float = true.
Proof.
  intros Hx Hd. apply leb_ord in Hx, Hd.
  change (Prim2SF 0) with (S754_zero false) in Hx, Hd. cbn [SFord] in Hx, Hd.
  destruct Hx as (_ & Nx & Ox), Hd as (_ & Nd & Od).
  apply leb_ord. rewrite FloatAxioms.add_spec. unfold SF64add.
  pose proof (Prim2SF_valid x) as Vx. pose proof (Prim2SF_valid d) as Vd.
  assert (T : 0 < 2 ^ 2100) by (apply Z.pow_pos_nonneg; lia).
  assert (Mp : forall m e, bounded prec emax m e = true -> 0 < magnitude m e).
  { intros m e V. apply magnitude_pos. apply bounded_inv in V. lia. }
  destruct (Prim2SF x) as [sx|sx| |sx mx ex]; try congruence;
    destruct (Prim2SF d) as [sd|sd| |sd md ed]; try congruence;
    cbn [SFord valid_binary] in *;
    try pose proof (Mp _ _ Vx); try pose proof (Mp _ _ Vd);
    try pose proof (magnitude_max _ _ Vx);
    try (destruct sx; [lia|]); try (destruct sd; [lia|]);
    try (pose proof (SFadd_ge mx ex md ed Vx Vd) as Hsum;
         destruct (SFadd prec emax (S754_finite false mx ex) (S754_finite false md ed))
           as [s|s| |s m e]; try contradiction; destruct s; try contradiction;
         cbn [SFord]; repeat split; (discriminate || lia));
    try (cbn [SFadd SFord]; repeat split; (discriminate || lia)).
  destruct sx, sd; cbn; repeat split; (discriminate || lia).
Qed.

(** *** Numbers that are not negative *)
Lemma nonnegative_leb (x : float) : nonnegative (Prim2SF x) -> (0 <=? x)%float = true.
Proof.
  intros H. apply leb_ord. change (Prim2SF 0) with (S754_zero false). cbn [SFord].
  assert (0 <= 2 ^ 2100) by (apply Z.pow_nonneg; lia).
  destruct (Prim2SF x) as [s|[|]| |[|] m e]; try contradiction; cbn [SFord];
    repeat split; try discriminate; try lia.
  unfold magnitude. apply Z.mul_nonneg_nonneg; [lia|apply Z.pow_nonneg; lia].
Qed.

Lemma of_uint63_nonnegative (n : PrimInt63.int) : nonnegative (Prim2SF (of_uint63 n)).
Proof.
  rewrite of_uint63_spec. pose proof (Uint63.to_Z_bounded n) as [Hn _].
  destruct (Uint63Axioms.to_Z n) as [|p|p]; [exact I| |lia].
  cbn [binary_normalize]. unfold binary_round.
  destruct (shl_align p 0 (fexp prec emax (Z.pos (digits2_pos p) + 0))) as [mz ez].
  pose proof (binary_round_aux_nonneg (Z.pos mz) ez loc_Exact ltac:(lia)) as H.
  destruct (binary_round_aux prec emax false (Z.pos mz) ez loc_Exact) as [[|]|[|]| |[|] m e];
    (contradiction || exact I).
Qed.

(** A number that is not negative over a positive number. *)
Lemma SFdiv_nonnegative (x : spec_float) (my : positive) (ey : Z) :
  nonnegative x -> nonnegative (SFdiv prec emax x (S754_finite false my ey)).
Proof.
  destruct x as [s|[|]| |[|] mx ex]; try contradiction; intros _; cbn [SFdiv xorb].
  - destruct s; exact I.
  - exact I.
  - unfold SFdiv_core_binary.
    set (m' := match _ with Z.pos _ => _ | Z0 => _ | Z.neg _ => _ end).
    assert (Hm' : 0 <= m').
    { unfold m'. destruct (_ - _ - _) as [|s|s]; try lia. apply Z.shiftl_nonneg. lia. }
    assert (Hq : 0 <= fst (Z.div_eucl m' (Z.pos my))).
    { change (fst (Z.div_eucl m' (Z.pos my))) with (m' / Z.pos my).
      apply Z.div_pos; lia. }
    destruct (Z.div_eucl m' (Z.pos my)) as [q r]. cbn [fst] in Hq.
    pose proof (binary_round_aux_nonneg q
                  (Z.min (fexp prec emax (Zdigits2 (Z.pos mx) + ex - (Zdigits2 (Z.pos my) + ey)))
                     (ex - ey))
                  (new_location (Z.pos my) r) Hq) as H.
    destruct (binary_round_aux _ _ _ _ _ _) as [[|]|[|]| |[|] m e];
      (contradiction || exact I).
Qed.

(** The quotient of an integer that is not negative by a positive number:
    so are the durations of the buffers. *)
Lemma div_of_uint63_nonneg (n : PrimInt63.int) (y : float) (my : positive) (ey : Z) :
  Prim2SF y = S754_finite false my ey -> (0 <=? of_uint63 n / y)%float = true.
Proof.
  intros Hy. apply nonnegative_leb. rewrite div_spec, Hy.
  apply SFdiv_nonnegative, of_uint63_nonnegative.
Qed.

(** A finite number that is not below zero. *)
Lemma finite_not_negative (x : float) :
  is_finite x = true -> (x <? 0)%float = false -> (0 <=? x)%float = true.
Proof.
  intros Hf Hn. unfold is_finite, is_nan in Hf.
  apply negb_true_iff, orb_false_iff in Hf. destruct Hf as [Hf _].
  apply negb_false_iff in Hf.
  apply ltb_false_leb; [exact Hn|exact Hf|reflexivity].
Qed.

Ltac Zify.zify_post_hook ::= Z.to_euclidean_division_equations.

(** ** Loops over an index *)

Lemma for_range_S {S : Type} (n : nat) (body : nat -> S -> S) (s : S) :
  for_range (Datatypes.S n) body s = body n (for_range n body s).
Proof.
  unfold for_range. rewrite seq_S, fold_left_app. reflexivity.
Qed.

Lemma for_range_ext {S : Type} (n : nat) (f g : nat -> S -> S) (s : S) :
  (forall i t, (i < n)%nat -> f i t = g i t) ->
  for_range n f s = for_range n g s.
Proof.
  induction n as [|n IH]; intros Hfg; [reflexivity|].
  rewrite !for_range_S, IH by (intros; apply Hfg; lia).
  apply Hfg. lia.
Qed.

(** A loop that stores [f i] at every index [i < n] of an array. *)
Lemma for_range_insert {A : Type} (f : nat -> A) (n : nat) (l : list A) :
  (n <= length l)%nat ->
  for_range n (fun i acc => <[i := f i]> acc) l = map f (seq 0 n) ++ drop n l.
Proof.
  induction n as [|n IH]; intros Hn; [reflexivity|].
  rewrite for_range_S, IH by lia.
  rewrite seq_S, map_app. simpl.
  destruct (drop n l) as [|x r] eqn:Hd.
  - apply (f_equal length) in Hd. rewrite length_drop in Hd. simpl in Hd. lia.
  - rewrite insert_app_r_alt by (rewrite length_map, length_seq; lia).
    rewrite length_map, length_seq, Nat.sub_diag. simpl.
    rewrite <- app_assoc. simpl. do 2 f_equal.
    replace (Datatypes.S n) with (n + 1)%nat by lia.
    rewrite <- drop_drop, Hd. reflexivity.
Qed.

(** A loop that reads every element of an array in turn. *)
Lemma for_range_lookup {A S : Type} (g : A -> S -> S) (l : list A) (s : S) :
  for_range (length l)
    (fun i acc => match l !! i with Some x => g x acc | None => acc end) s
  = fold_left (fun acc x => g x acc) l s.
Proof.
  induction l as [|x l IH] using rev_ind; [reflexivity|].
  rewrite length_app. simpl. rewrite Nat.add_1_r, for_range_S.
  rewrite fold_left_app. simpl.
  rewrite lookup_app_r by lia. rewrite Nat.sub_diag. simpl. f_equal.
  rewrite <- IH. apply for_range_ext.
  intros i t Hi. rewrite lookup_app_l by lia. reflexivity.
Qed.

Lemma map_lookup_seq {A B : Type} (f : option A -> B) (l : list A) :
  map (fun i => f (l !! i)) (seq 0 (length l)) = map (fun x => f (Some x)) l.
Proof.
  induction l as [|x l IH] using rev_ind; [reflexivity|].
  rewrite length_app. simpl. rewrite Nat.add_1_r, seq_S, !map_app. simpl.
  rewrite lookup_app_r by lia. rewrite Nat.sub_diag. simpl. f_equal.
  rewrite <- IH. apply map_ext_in. intros i Hi. apply in_seq in Hi.
  rewrite lookup_app_l by lia. reflexivity.
Qed.

(** ** Base64 *)

Module Base64Facts.
Import Base64.

Lemma sextet_of_char_of_sextet (n : N) :
  (n < 64)%N -> sextet_of_char (char_of_sextet n) = Some n.
Proof.
  intros Hn.
  assert (Hall : forallb
            (fun k => match sextet_of_char (char_of_sextet (N.of_nat k)) with
                      | Some m => N.eqb m (N.of_nat k)
                      | None => false
                      end) (seq 0 64) = true) by (vm_compute; reflexivity).
  rewrite forallb_forall in Hall.
  specialize (Hall (N.to_nat n)). rewrite N2Nat.id in Hall.
  destruct (sextet_of_char (char_of_sextet n)) as [m|].
  - f_equal. apply N.eqb_eq, Hall, in_seq. lia.
  - discriminate Hall. apply in_seq. lia.
Qed.

(** A character that has a 6-bit value is neither whitespace nor "=". *)
Lemma sextet_char_plain (c : ascii) (n : N) :
  sextet_of_char c = Some n ->
  is_ascii_whitespace c = false /\ Ascii.eqb c "=" = false.
Proof.
  destruct c as [[] [] [] [] [] [] [] []]; vm_compute; intros H;
    solve [discriminate H | split; reflexivity].
Qed.

Lemma pad_plain : is_ascii_whitespace "=" = false.
Proof. reflexivity. Qed.

Lemma drop_trailing_pad_cons (c : ascii) (r : list ascii) :
  Ascii.eqb c "=" = false ->
  drop_trailing_pad (c :: r) = c :: drop_trailing_pad r.
Proof.
  intros Hc. simpl. rewrite Hc. destruct r as [|d [|e r]]; reflexivity.
Qed.

Lemma decode_chars_group (s1 s2 s3 s4 : N) (rest : list ascii) :
  (s1 < 64)%N -> (s2 < 64)%N -> (s3 < 64)%N -> (s4 < 64)%N ->
  decode_chars (char_of_sextet s1 :: char_of_sextet s2 :: char_of_sextet s3
                :: char_of_sextet s4 :: rest)
  = match decode_chars rest with
    | Some out =>
        Some ((s1 * 4 + s2 / 16) :: ((s2 mod 16) * 16 + s3 / 4)
              :: ((s3 mod 4) * 64 + s4) :: out)%N
    | None => None
    end.
Proof.
  intros H1 H2 H3 H4. unfold decode_chars.
  pose proof (sextet_of_char_of_sextet _ H1) as E1.
  pose proof (sextet_of_char_of_sextet _ H2) as E2.
  pose proof (sextet_of_char_of_sextet _ H3) as E3.
  pose proof (sextet_of_char_of_sextet _ H4) as E4.
  rewrite !drop_trailing_pad_cons by (eapply sextet_char_plain; eassumption).
  cbn [sextets_of_chars]. rewrite E1, E2, E3, E4.
  destruct (sextets_of_chars (drop_trailing_pad rest)) as [ns|]; reflexivity.
Qed.

(** Lists are taken three elements at a time. *)
Lemma list_ind3 {A : Type} (P : list A -> Prop) :
  P [] -> (forall a, P [a]) -> (forall a b, P [a; b]) ->
  (forall a b c l, P l -> P (a :: b :: c :: l)) ->
  forall l, P l.
Proof.
  intros H0 H1 H2 H3.
  fix IH 1.
  intros [|a [|b [|c l]]]; [apply H0 | apply H1 | apply H2 | apply H3, IH].
Qed.

Lemma decode_chars_encode_units (l : list N) :
  Forall (fun a => (a < 256)%N) l ->
  decode_chars (encode_units l) = Some l.
Proof.
  induction l as [|a|a b|a b c l IH] using list_ind3; intros Hl.
  - reflexivity.
  - apply Forall_cons_1 in Hl as [Ha _].
    assert (H1 : (a / 4 < 64)%N) by lia.
    assert (H2 : (a mod 4 * 16 < 64)%N) by lia.
    pose proof (sextet_of_char_of_sextet _ H1) as E1.
    pose proof (sextet_of_char_of_sextet _ H2) as E2.
    unfold decode_chars. cbn [encode_units].
    rewrite !drop_trailing_pad_cons by (eapply sextet_char_plain; eassumption).
    cbn [drop_trailing_pad Ascii.eqb Bool.eqb andb sextets_of_chars decode_sextets].
    rewrite E1, E2. cbn [decode_sextets]. do 2 f_equal. lia.
  - apply Forall_cons_1 in Hl as [Ha Hl]. apply Forall_cons_1 in Hl as [Hb _].
    assert (H1 : (a / 4 < 64)%N) by lia.
    assert (H2 : (a mod 4 * 16 + b / 16 < 64)%N) by lia.
    assert (H3 : (b mod 16 * 4 < 64)%N) by lia.
    pose proof (sextet_of_char_of_sextet _ H1) as E1.
    pose proof (sextet_of_char_of_sextet _ H2) as E2.
    pose proof (sextet_of_char_of_sextet _ H3) as E3.
    unfold decode_chars. cbn [encode_units].
    rewrite !drop_trailing_pad_cons by (eapply sextet_char_plain; eassumption).
    cbn [drop_trailing_pad Ascii.eqb Bool.eqb andb sextets_of_chars decode_sextets].
    rewrite E1, E2, E3. cbn [decode_sextets]. f_equal. f_equal; [lia|f_equal; lia].
  - apply Forall_cons_1 in Hl as [Ha Hl]. apply Forall_cons_1 in Hl as [Hb Hl].
    apply Forall_cons_1 in Hl as [Hc Hl].
    cbn [encode_units]. rewrite decode_chars_group by lia.
    rewrite IH by assumption. f_equal. f_equal; [lia|f_equal; [lia|f_equal; lia]].
Qed.

Lemma encode_units_length (l : list N) : (length (encode_units l) mod 4 = 0)%nat.
Proof.
  induction l as [|a|a b|a b c l IH] using list_ind3; try reflexivity.
  cbn [encode_units length].
  change (Datatypes.S (Datatypes.S (Datatypes.S (Datatypes.S (length (encode_units l))))))
    with (4 + length (encode_units l))%nat.
  rewrite <- Nat.Div0.add_mod_idemp_r, IH. reflexivity.
Qed.

Lemma encode_units_no_whitespace (l : list N) :
  Forall (fun a => (a < 256)%N) l ->
  List.filter (fun c => negb (is_ascii_whitespace c)) (encode_units l) = encode_units l.
Proof.
  assert (Hs : forall n, (n < 64)%N -> is_ascii_whitespace (char_of_sextet n) = false).
  { intros n Hn. eapply sextet_char_plain, sextet_of_char_of_sextet, Hn. }
  induction l as [|a|a b|a b c l IH] using list_ind3; intros Hl.
  - reflexivity.
  - apply Forall_cons_1 in Hl as [Ha _].
    cbn [encode_units List.filter]. rewrite !Hs by lia. reflexivity.
  - apply Forall_cons_1 in Hl as [Ha Hl]. apply Forall_cons_1 in Hl as [Hb _].
    cbn [encode_units List.filter]. rewrite !Hs by lia. reflexivity.
  - apply Forall_cons_1 in Hl as [Ha Hl]. apply Forall_cons_1 in Hl as [Hb Hl].
    apply Forall_cons_1 in Hl as [Hc Hl].
    cbn [encode_units List.filter]. rewrite !Hs by lia. cbn [negb].
    rewrite IH by assumption. reflexivity.
Qed.

(** [atob(btoa(s))] is [s] for every binary string. *)
Lemma atob_btoa (s : string) : atob (btoa s) = Some s.
Proof.
  unfold atob, btoa.
  set (units := map N_of_ascii (list_ascii_of_string s)).
  assert (Hunits : Forall (fun a => (a < 256)%N) units).
  { apply Forall_forall. intros a Ha. apply list_elem_of_In, in_map_iff in Ha.
    destruct Ha as (c & <- & _). apply N_ascii_bounded. }
  rewrite list_ascii_of_string_of_list_ascii.
  rewrite encode_units_no_whitespace by assumption.
  unfold strip_padding. rewrite encode_units_length. cbn [Nat.eqb].
  pose proof (decode_chars_encode_units units Hunits) as Hd.
  unfold decode_chars in Hd.
  destruct (sextets_of_chars (drop_trailing_pad (encode_units units))) as [ns|];
    [|discriminate Hd].
  rewrite Hd. f_equal. unfold units. rewrite map_map.
  erewrite map_ext by (intros c; apply ascii_N_embedding).
  rewrite map_id. apply string_of_list_ascii_of_string.
Qed.

End Base64Facts.

(** ** encode and decode *)

Lemma get_string_of_list_ascii (l : list ascii) (i : nat) :
  String.get i (string_of_list_ascii l) = l !! i.
Proof.
  revert i. induction l as [|c l IH]; intros [|i]; simpl; auto.
Qed.

Lemma length_string_of_list_ascii (l : list ascii) :
  String.length (string_of_list_ascii l) = length l.
Proof. induction l as [|c l IH]; simpl; congruence. Qed.

Lemma append_empty_r (s : string) : (s ++ "")%string = s.
Proof.
  induction s as [|c s IH]; [reflexivity|].
  change (String c (s ++ "") = String c s). rewrite IH. reflexivity.
Qed.

Lemma append_String_r (s t : string) (c : ascii) :
  ((s ++ String c "") ++ t)%string = (s ++ String c t)%string.
Proof.
  induction s as [|d s IH]; [reflexivity|].
  change (String d ((s ++ String c "") ++ t) = String d (s ++ String c t)).
  rewrite IH. reflexivity.
Qed.

Lemma binary_of_bytes (bytes : list byte) (s : string) :
  fold_left (fun acc b => (acc ++ fromCharCode b)%string) bytes s
  = (s ++ string_of_list_byte bytes)%string.
Proof.
  revert s. induction bytes as [|b bytes IH]; intros s.
  - symmetry. apply append_empty_r.
  - cbn [fold_left]. rewrite IH. apply append_String_r.
Qed.

(** [encode] is [btoa] of the binary string of the bytes. *)
Lemma encode_btoa (bytes : list byte) :
  encode bytes = Base64.btoa (string_of_list_byte bytes).
Proof.
  unfold encode.
  rewrite (for_range_lookup (fun b acc => (acc ++ fromCharCode b)%string)).
  rewrite binary_of_bytes. reflexivity.
Qed.

(** [decode] of a [btoa] text gives the bytes of the binary string. *)
Lemma decode_btoa (binary : string) :
  decode (Base64.btoa binary) = Normal (list_byte_of_string binary).
Proof.
  unfold decode. rewrite Base64Facts.atob_btoa. f_equal.
  unfold list_byte_of_string.
  remember (list_ascii_of_string binary) as l eqn:El.
  assert (E : binary = string_of_list_ascii l)
    by (rewrite El; symmetry; apply string_of_list_ascii_of_string).
  clear El. subst binary. rewrite length_string_of_list_ascii.
  rewrite for_range_insert by (rewrite repeat_length; lia).
  rewrite drop_ge by (rewrite repeat_length; lia). rewrite app_nil_r.
  unfold charCodeAt.
  erewrite map_ext by (intros i; rewrite get_string_of_list_ascii; reflexivity).
  rewrite (map_lookup_seq
             (fun o => ToUint8 match o with
                               | Some c => Some (N_of_ascii c)
                               | None => None
                               end)).
  apply map_ext. intros c. unfold ToUint8.
  rewrite N.mod_small by apply N_ascii_bounded.
  rewrite ascii_N_embedding. reflexivity.
Qed.

(** ** Typed arrays *)

Lemma Z_of_byte_range (b : byte) : 0 <= Z_of_byte b < 256.
Proof.
  unfold Z_of_byte. pose proof (Byte.to_N_bounded b). lia.
Qed.

Lemma Z_of_byte_of_Z (z : Z) : Z_of_byte (byte_of_Z z) = z mod 256.
Proof.
  unfold Z_of_byte, byte_of_Z.
  assert (Hn : (Z.to_N (z mod 256) < 256)%N) by lia.
  pose proof (byte_of_ascii_via_N (ascii_of_N (Z.to_N (z mod 256)))) as H.
  symmetry in H. apply Byte.to_of_N in H. rewrite H.
  rewrite N_ascii_embedding by exact Hn. lia.
Qed.

Lemma int16_of_bytes_range (lo hi : byte) : -32768 <= int16_of_bytes lo hi < 32768.
Proof.
  unfold int16_of_bytes.
  pose proof (Z_of_byte_range lo). pose proof (Z_of_byte_range hi).
  destruct (Z.leb_spec 32768 (Z_of_byte lo + 256 * Z_of_byte hi)); lia.
Qed.

Lemma int16_of_bytes_of_int16 (v : Z) :
  -32768 <= v < 32768 -> int16_of_bytes (byte_of_Z v) (byte_of_Z (v / 256)) = v.
Proof.
  intros Hv. unfold int16_of_bytes. rewrite !Z_of_byte_of_Z.
  destruct (Z.leb_spec 32768 (v mod 256 + 256 * ((v / 256) mod 256))); lia.
Qed.

Lemma ToInt16_range (x : number) : -32768 <= ToInt16 x < 32768.
Proof.
  destruct x as [| |q]; cbn [ToInt16]; try lia.
  destruct (Z.leb_spec 32768 (truncate q mod 65536)); lia.
Qed.

Lemma Int16Array_of_Uint8Array (a : list Z) :
  Forall (fun v => -32768 <= v < 32768) a ->
  Int16Array_of_buffer (Uint8Array_of_Int16Array a) = Normal a.
Proof.
  induction a as [|v a IH]; intros Ha; [reflexivity|].
  apply Forall_cons_1 in Ha as [Hv Ha].
  cbn [Uint8Array_of_Int16Array flat_map bytes_of_int16 app Int16Array_of_buffer].
  fold (Uint8Array_of_Int16Array a). rewrite IH by assumption.
  rewrite int16_of_bytes_of_int16 by assumption. reflexivity.
Qed.


(** Lists are taken two elements at a time. *)
Lemma list_ind2 {A : Type} (P : list A -> Prop) :
  P [] -> (forall a, P [a]) -> (forall a b l, P l -> P (a :: b :: l)) ->
  forall l, P l.
Proof.
  intros H0 H1 H2. fix IH 1.
  intros [|a [|b l]]; [apply H0 | apply H1 | apply H2, IH].
Qed.

Lemma Int16Array_of_buffer_even (buf : list byte) :
  (length buf mod 2 = 0)%nat -> exists a, Int16Array_of_buffer buf = Normal a.
Proof.
  induction buf as [|b|lo hi buf IH] using list_ind2; intros Hlen.
  - exists []. reflexivity.
  - discriminate Hlen.
  - destruct IH as [a Ha].
    + cbn [length] in Hlen.
      change (Datatypes.S (Datatypes.S (length buf))) with (2 + length buf)%nat in Hlen.
      rewrite <- Nat.Div0.add_mod_idemp_l in Hlen. exact Hlen.
    + exists (int16_of_bytes lo hi :: a). cbn [Int16Array_of_buffer]. rewrite Ha.
      reflexivity.
Qed.

Lemma Int16Array_of_buffer_odd (buf : list byte) :
  (length buf mod 2 = 1)%nat -> Int16Array_of_buffer buf = Throw RangeError.
Proof.
  induction buf as [|b|lo hi buf IH] using list_ind2; intros Hlen.
  - discriminate Hlen.
  - reflexivity.
  - cbn [Int16Array_of_buffer]. rewrite IH; [reflexivity|].
    cbn [length] in Hlen.
    change (Datatypes.S (Datatypes.S (length buf))) with (2 + length buf)%nat in Hlen.
    rewrite <- Nat.Div0.add_mod_idemp_l in Hlen. exact Hlen.
Qed.

(** The view of a buffer as 16-bit integers, read back from its bytes. *)
Lemma Int16Array_of_buffer_lookup (buf : list byte) (a : list Z) :
  Int16Array_of_buffer buf = Normal a ->
  length buf = (2 * length a)%nat /\
  forall k v, a !! k = Some v ->
    exists lo hi, buf !! (2 * k)%nat = Some lo /\ buf !! (2 * k + 1)%nat = Some hi
                  /\ v = int16_of_bytes lo hi.
Proof.
  revert a. induction buf as [|b|lo hi buf IH] using list_ind2; intros a H.
  - injection H as <-. split; [reflexivity|]. intros k v Hk. destruct k; discriminate Hk.
  - discriminate H.
  - cbn [Int16Array_of_buffer] in H.
    destruct (Int16Array_of_buffer buf) as [a'|e] eqn:Ha'; [|discriminate H].
    injection H as <-. destruct (IH a' eq_refl) as [Hlen Hlook]. split.
    + cbn [length]. lia.
    + intros [|k] v Hk.
      * injection Hk as <-. exists lo, hi. repeat split; reflexivity.
      * cbn [lookup list_lookup] in Hk. apply Hlook in Hk as (lo' & hi' & H1 & H2 & H3).
        exists lo', hi'.
        replace (2 * Datatypes.S k)%nat with (Datatypes.S (Datatypes.S (2 * k))) by lia.
        replace (Datatypes.S (Datatypes.S (2 * k)) + 1)%nat
          with (Datatypes.S (Datatypes.S (2 * k + 1))) by lia.
        repeat split; assumption.
Qed.

(** ** Truncation and ceiling *)

Lemma truncate_nat_ratio (n c : nat) :
  (0 < c)%nat ->
  Z.to_nat (truncate (Z.of_nat n # Pos.of_nat c)) = (n / c)%nat.
Proof.
  intros Hc. unfold truncate. cbn [Qnum Qden].
  assert (Hp : Z.pos (Pos.of_nat c) = Z.of_nat c) by lia.
  rewrite Hp, Z.quot_div_nonneg by lia.
  rewrite <- Nat2Z.inj_div. apply Nat2Z.id.
Qed.

Lemma ceiling_nat_ratio (n c : nat) :
  (0 < c)%nat ->
  (n / c <= Z.to_nat (Qceiling (Z.of_nat n # Pos.of_nat c)))%nat.
Proof.
  intros Hc. unfold Qceiling, Qfloor. cbn [Qopp Qnum Qden].
  assert (Hp : Z.pos (Pos.of_nat c) = Z.of_nat c) by lia.
  rewrite Hp.
  assert (H : Z.of_nat (n / c) <= - (- Z.of_nat n / Z.of_nat c)).
  { rewrite Nat2Z.inj_div. nia. }
  lia.
Qed.

Lemma for_range_insert_beyond {A : Type} (f : nat -> A) (n : nat) (l : list A) :
  (length l <= n)%nat ->
  for_range n (fun i acc => <[i := f i]> acc) l = map f (seq 0 (length l)).
Proof.
  induction n as [|n IH]; intros Hn.
  - destruct l; [reflexivity|simpl in Hn; lia].
  - destruct (decide (length l = Datatypes.S n)) as [E|NE].
    + rewrite for_range_insert by lia. rewrite drop_ge by lia.
      rewrite app_nil_r, E. reflexivity.
    + rewrite for_range_S, IH by lia.
      apply list_insert_ge. rewrite length_map, length_seq. lia.
Qed.

(** ** decodeAudioData *)

(** The samples of one channel: frame [i] of channel [channel] is element
    [i * numChannels + channel] of the 16-bit view, over 32768. *)
Lemma decodeAudioData_channel (dataInt16 : list Z) (numChannels channel : nat)
    (zeros : list number) :
  (0 < numChannels)%nat ->
  length zeros = (length dataInt16 / numChannels)%nat ->
  for_below (Z.of_nat (length dataInt16) # Pos.of_nat numChannels)
    (fun i channelData =>
       <[i := over_32768 (dataInt16 !! (i * numChannels + channel)%nat)]> channelData)
    zeros
  = map (fun i => over_32768 (dataInt16 !! (i * numChannels + channel)%nat))
      (seq 0 (length dataInt16 / numChannels)).
Proof.
  intros Hc Hz. unfold for_below.
  rewrite (for_range_insert_beyond
             (fun i => over_32768 (dataInt16 !! (i * numChannels + channel)%nat))).
  - rewrite Hz. reflexivity.
  - rewrite Hz. apply ceiling_nat_ratio, Hc.
Qed.

Lemma decodeAudioData_Normal (data : Uint8Array.t) (rate : positive) (numChannels : nat)
    (dataInt16 : list Z) :
  Int16Array_of_buffer (Uint8Array.buffer data) = Normal dataInt16 ->
  (1 <= numChannels <= length dataInt16)%nat ->
  (numChannels <= max_channels)%nat ->
  supported_sampleRate rate = true ->
  decodeAudioData data rate numChannels
  = Normal {| numberOfChannels := numChannels;
              buffer_length := length dataInt16 / numChannels;
              sampleRate := rate;
              channelData :=
                map (fun channel =>
                       map (fun i => over_32768 (dataInt16 !! (i * numChannels + channel)%nat))
                         (seq 0 (length dataInt16 / numChannels)))
                  (seq 0 numChannels) |}.
Proof.
  intros Hview [Hc Hn] Hmax Hrate. unfold decodeAudioData. rewrite Hview.
  destruct numChannels as [|c']; [lia|].
  set (c := Datatypes.S c') in *.
  set (frames := (length dataInt16 / c)%nat).
  assert (Hframes : (1 <= frames)%nat).
  { unfold frames. apply Nat.div_le_lower_bound; lia. }
  unfold createBuffer. rewrite truncate_nat_ratio by lia. fold frames.
  rewrite Hrate.
  replace ((c =? 0)%nat || (max_channels <? c)%nat || (frames =? 0)%nat || negb true)
    with false.
  2: { symmetry. rewrite !orb_false_iff.
       repeat split;
         first [apply Nat.eqb_neq; lia | apply Nat.ltb_ge; assumption]. }
  f_equal.
  set (F := fun channel : nat =>
              map (fun i => over_32768 (dataInt16 !! (i * c + channel)%nat)) (seq 0 frames)).
  set (zeros := repeat (Fin 0) frames).
  assert (Hloop : forall k, (k <= c)%nat ->
            for_range k
              (fun channel buffer =>
                 with_channelData buffer channel
                   (for_below (Z.of_nat (length dataInt16) # Pos.of_nat c)
                      (fun i channelData =>
                         <[i := over_32768 (dataInt16 !! (i * c + channel)%nat)]> channelData)
                      (getChannelData buffer channel)))
              {| numberOfChannels := c; buffer_length := frames; sampleRate := rate;
                 channelData := repeat zeros c |}
            = {| numberOfChannels := c; buffer_length := frames; sampleRate := rate;
                 channelData := map F (seq 0 k) ++ repeat zeros (c - k) |}).
  { induction k as [|k IH]; intros Hk.
    - rewrite Nat.sub_0_r. reflexivity.
    - rewrite for_range_S, IH by lia.
      unfold getChannelData, with_channelData. cbn [channelData numberOfChannels buffer_length sampleRate].
      assert (Hlen : length (map F (seq 0 k)) = k) by (rewrite length_map, length_seq; reflexivity).
      rewrite lookup_app_r by lia. rewrite Hlen, Nat.sub_diag.
      replace (c - k)%nat with (Datatypes.S (c - Datatypes.S k)) by lia.
      cbn [repeat lookup list_lookup default].
      rewrite decodeAudioData_channel by (try lia; apply repeat_length).
      fold frames. fold (F k).
      rewrite insert_app_r_alt by lia. rewrite Hlen, Nat.sub_diag.
      cbn [insert list_insert]. rewrite seq_S, map_app, <- app_assoc. reflexivity. }
  rewrite (Hloop c) by lia. rewrite Nat.sub_diag, app_nil_r. reflexivity.
Qed.

(** ** createBlob *)

Lemma createBlob_int16 (samples : list number) :
  for_range (length samples)
    (fun i int16 => <[i := ToInt16 (times_32768 (samples !! i))]> int16)
    (repeat 0 (length samples))
  = map (fun s => ToInt16 (times_32768 (Some s))) samples.
Proof.
  rewrite (for_range_insert (fun i => ToInt16 (times_32768 (samples !! i))))
    by (rewrite repeat_length; lia).
  rewrite drop_ge by (rewrite repeat_length; lia). rewrite app_nil_r.
  apply (map_lookup_seq (fun o => ToInt16 (times_32768 o))).
Qed.

Lemma createBlob_wire (samples : list number) :
  decode (data (createBlob samples))
  = Normal (Uint8Array_of_Int16Array
              (map (fun s => ToInt16 (times_32768 (Some s))) samples)).
Proof.
  unfold createBlob. cbn [data].
  rewrite encode_btoa, decode_btoa, list_byte_of_string_of_list_byte, createBlob_int16.
  reflexivity.
Qed.

Lemma createBlob_view (samples : list number) :
  Int16Array_of_buffer
    (Uint8Array_of_Int16Array (map (fun s => ToInt16 (times_32768 (Some s))) samples))
  = Normal (map (fun s => ToInt16 (times_32768 (Some s))) samples).
Proof.
  apply Int16Array_of_Uint8Array, Forall_forall. intros v Hv.
  apply list_elem_of_In, in_map_iff in Hv. destruct Hv as (s & <- & _).
  apply ToInt16_range.
Qed.

(** ** Quantization *)

Lemma ToInt16_congruent (x : Q) : (ToInt16 (Fin x) - truncate x) mod 65536 = 0.
Proof.
  cbn [ToInt16]. destruct (Z.leb_spec 32768 (truncate x mod 65536)); lia.
Qed.

(** On [-1, 1) the scaled sample stays in the 16-bit range once truncated. *)
Lemma truncate_scaled_range (q : Q) :
  (-1 <= q)%Q -> (q < 1)%Q -> -32768 <= truncate (q * 32768) < 32768.
Proof.
  destruct q as [a b]. unfold Qle, Qlt, truncate. cbn [Qnum Qden Qmult].
  intros Hlo Hhi. rewrite Pos.mul_1_r.
  assert (Hb : 0 < Z.pos b) by lia.
  generalize dependent (Z.pos b). intros B Hlo Hhi HB.
  pose proof (Z.quot_rem' (a * 32768) B) as E.
  pose proof (Z.rem_bound_abs (a * 32768) B ltac:(lia)) as R.
  nia.
Qed.

Lemma ToInt16_scaled (q : Q) :
  (-1 <= q)%Q -> (q < 1)%Q -> ToInt16 (Fin (q * 32768)) = truncate (q * 32768).
Proof.
  intros Hlo Hhi. pose proof (truncate_scaled_range q Hlo Hhi) as Hr.
  cbn [ToInt16]. destruct (Z.leb_spec 32768 (truncate (q * 32768) mod 65536)); lia.
Qed.

(** Truncation discards less than one unit, toward zero. *)
Lemma truncate_spec (x : Q) :
  (Qabs (x - inject_Z (truncate x)) < 1)%Q /\
  (Qabs (inject_Z (truncate x)) <= Qabs x)%Q.
Proof.
  destruct x as [a b]. unfold truncate. cbn [Qnum Qden].
  pose proof (Z.quot_rem' a (Z.pos b)) as E.
  pose proof (Z.rem_bound_abs a (Z.pos b) ltac:(lia)) as R.
  assert (Sg : (0 <= a -> 0 <= Z.rem a (Z.pos b) /\ 0 <= Z.quot a (Z.pos b)) /\
               (a <= 0 -> Z.rem a (Z.pos b) <= 0 /\ Z.quot a (Z.pos b) <= 0)).
  { split; intros Ha; split.
    - apply Z.rem_nonneg; lia.
    - apply Z.quot_pos; lia.
    - apply Z.rem_nonpos; lia.
    - pose proof (Z.quot_opp_l a (Z.pos b) ltac:(lia)) as Ho.
      pose proof (Z.quot_pos (- a) (Z.pos b) ltac:(lia) ltac:(lia)). lia. }
  set (t := Z.quot a (Z.pos b)) in *. set (r := Z.rem a (Z.pos b)) in *.
  clearbody t r. split.
  - apply Qabs_Qlt_condition. unfold Qlt, Qminus, Qplus, Qopp, inject_Z.
    cbn [Qnum Qden]. rewrite Pos.mul_1_r. lia.
  - apply Qabs_Qle_condition. unfold Qle, Qopp, Qabs, inject_Z. cbn [Qnum Qden].
    rewrite !Z.mul_1_r. destruct Sg as [Sp Sn].
    destruct (Z.le_ge_cases 0 a) as [Ha|Ha]; [specialize (Sp Ha)|specialize (Sn Ha)]; nia.
Qed.

(** The error of one sample that goes to the wire and back. *)
Lemma quantization_error (q : Q) :
  (Qabs (q - (truncate (q * 32768) # 32768)) <= 1 # 32768)%Q.
Proof.
  destruct q as [a b]. unfold truncate. cbn [Qnum Qden Qmult].
  rewrite Pos.mul_1_r.
  pose proof (Z.quot_rem' (a * 32768) (Z.pos b)) as E.
  pose proof (Z.rem_bound_abs (a * 32768) (Z.pos b) ltac:(lia)) as R.
  set (t := Z.quot (a * 32768) (Z.pos b)) in *.
  set (r := Z.rem (a * 32768) (Z.pos b)) in *.
  clearbody t r. apply Qabs_Qle_condition. unfold Qle, Qminus, Qplus, Qopp. cbn [Qnum Qden].
  nia.
Qed.

(** ** The claims on the codec *)

(** C5. Decoding the text that [encode] gives for a byte sequence, the empty
    one included, returns that byte sequence: [decode (encode B) = B]. *)
Theorem decode_encode (B : list byte) : decode (encode B) = Normal B.
Proof.
  rewrite encode_btoa, decode_btoa.
  f_equal. apply list_byte_of_string_of_list_byte.
Qed.

(** C4, as stated, fails: the sample 0.75/32768 (a 32-bit float) goes to the
    wire as the integer 0, and 0 is not a nearest integer of 0.75. *)
Lemma createBlob_does_not_round :
  exists lo hi,
    decode (data (createBlob [Fin (3 # 131072)])) = Normal [lo; hi] /\
    int16_of_bytes lo hi = 0 /\
    ~ nearest_integer ((3 # 131072) * 32768) 0.
Proof.
  exists Byte.x00, Byte.x00. split; [vm_compute; reflexivity|].
  split; [reflexivity|].
  unfold nearest_integer. intros H. vm_compute in H. apply H. reflexivity.
Qed.

(** C4, amended. For every finite sample [q] at index [i] of the input of
    [createBlob], the bytes [2i] and [2i+1] of the wire form are, low byte
    first, the signed 16-bit integer that is congruent modulo 2^16 to
    [q * 32768] with its fraction discarded (truncated toward zero, not
    rounded); for [-1 <= q < 1] it is that truncated value itself. *)
Theorem createBlob_wire_value (samples : list number) (i : nat) (q : Q) :
  samples !! i = Some (Fin q) ->
  exists wire lo hi,
    decode (data (createBlob samples)) = Normal wire /\
    wire !! (2 * i)%nat = Some lo /\
    wire !! (2 * i + 1)%nat = Some hi /\
    -32768 <= int16_of_bytes lo hi < 32768 /\
    (int16_of_bytes lo hi - truncate (q * 32768)) mod 65536 = 0 /\
    ((-1 <= q)%Q -> (q < 1)%Q -> int16_of_bytes lo hi = truncate (q * 32768)).
Proof.
  intros Hi.
  set (int16 := map (fun s => ToInt16 (times_32768 (Some s))) samples).
  assert (Hv : int16 !! i = Some (ToInt16 (Fin (q * 32768)))).
  { unfold int16. rewrite list_lookup_fmap, Hi. reflexivity. }
  destruct (Int16Array_of_buffer_lookup _ _ (createBlob_view samples)) as [_ Hlook].
  destruct (Hlook i _ Hv) as (lo & hi & Hlo & Hhi & E).
  exists (Uint8Array_of_Int16Array int16), lo, hi.
  split; [apply createBlob_wire|]. split; [exact Hlo|]. split; [exact Hhi|].
  rewrite <- E. split; [apply ToInt16_range|]. split; [apply ToInt16_congruent|].
  apply ToInt16_scaled.
Qed.

(** The second of the two samples 0.5 and -0.75. *)
Lemma createBlob_wire_value_witness :
  exists wire lo hi,
    decode (data (createBlob [Fin (1 # 2); Fin (-3 # 4)])) = Normal wire /\
    wire !! 2%nat = Some lo /\
    wire !! 3%nat = Some hi /\
    -32768 <= int16_of_bytes lo hi < 32768 /\
    (int16_of_bytes lo hi - truncate ((-3 # 4) * 32768)) mod 65536 = 0 /\
    ((-1 <= -3 # 4)%Q -> (-3 # 4 < 1)%Q ->
     int16_of_bytes lo hi = truncate ((-3 # 4) * 32768)).
Proof.
  apply (createBlob_wire_value [Fin (1 # 2); Fin (-3 # 4)] 1 (-3 # 4)).
  reflexivity.
Defined.

(** C3, as stated, fails: the sample 1.0 comes back as -1.0. *)
Lemma roundtrip_of_one_is_minus_one :
  roundtrip [Fin 1] = Normal [Fin (-32768 # 32768)] /\
  ~ (Qabs (1 - (-32768 # 32768)) <= 1 # 32768)%Q.
Proof.
  split; [vm_compute; reflexivity|].
  intros H. vm_compute in H. apply H. reflexivity.
Qed.

(** C3, amended. For every non-empty sample sequence whose values are all
    finite and in [-1, 1) (1.0 excluded), the round trip through
    [createBlob], [decode] and [decodeAudioData] with one channel yields a
    sequence of the same length whose every element differs from the
    corresponding input by at most 1/32768. *)
Theorem roundtrip_within_quantum (samples : list number) :
  samples <> [] ->
  Forall (fun s => exists q, s = Fin q /\ (-1 <= q)%Q /\ (q < 1)%Q) samples ->
  exists out,
    roundtrip samples = Normal out /\
    length out = length samples /\
    forall i q, samples !! i = Some (Fin q) ->
      exists r, out !! i = Some (Fin r) /\ (Qabs (q - r) <= 1 # 32768)%Q.
Proof.
  intros Hne Hall.
  set (int16 := map (fun s => ToInt16 (times_32768 (Some s))) samples).
  assert (Hlen : length int16 = length samples) by apply length_map.
  assert (Hpos : (1 <= length samples)%nat).
  { destruct samples; [congruence|simpl; lia]. }
  unfold roundtrip. rewrite createBlob_wire. fold int16.
  rewrite (decodeAudioData_Normal
             (Uint8Array.of_elements (Uint8Array_of_Int16Array int16)) 16000 1 int16
             (createBlob_view samples))
    by (reflexivity || (unfold max_channels; lia)).
  rewrite Nat.div_1_r, Hlen.
  eexists. split; [reflexivity|].
  unfold getChannelData. cbn [channelData].
  rewrite list_lookup_fmap, lookup_seq_lt by lia.
  cbn [fmap option_fmap option_map default]. unfold id.
  split; [rewrite length_map, length_seq; reflexivity|].
  intros i q Hi.
  assert (Hq : (-1 <= q)%Q /\ (q < 1)%Q).
  { rewrite Forall_forall in Hall. destruct (Hall (Fin q)) as (q' & E & H).
    - eapply list_elem_of_lookup_2, Hi.
    - injection E as ->. exact H. }
  exists (truncate (q * 32768) # 32768). split.
  - rewrite list_lookup_fmap.
    assert (Hlt : (i < length samples)%nat) by (eapply lookup_lt_Some, Hi).
    rewrite lookup_seq_lt by lia. cbn [fmap option_fmap option_map].
    rewrite Nat.mul_1_r, Nat.add_0_r, Nat.add_0_l. unfold int16.
    rewrite list_lookup_fmap, Hi. cbn [fmap option_fmap option_map times_32768].
    destruct Hq as [Hlo Hhi]. rewrite (ToInt16_scaled q Hlo Hhi). reflexivity.
  - apply quantization_error.
Qed.

(** The samples 0.5, -1.0 and 1/3. *)
Lemma roundtrip_within_quantum_witness :
  exists out,
    roundtrip [Fin (1 # 2); Fin (-1); Fin (1 # 3)] = Normal out /\
    length out = 3%nat /\
    forall i q, [Fin (1 # 2); Fin (-1); Fin (1 # 3)] !! i = Some (Fin q) ->
      exists r, out !! i = Some (Fin r) /\ (Qabs (q - r) <= 1 # 32768)%Q.
Proof.
  apply (roundtrip_within_quantum [Fin (1 # 2); Fin (-1); Fin (1 # 3)]).
  - discriminate.
  - repeat constructor; eexists; (split; [reflexivity|]); split; vm_compute; congruence.
Defined.

(** C6, as stated, fails: three bytes do not make a 16-bit view (the
    constructor throws), a buffer without a frame cannot be created, and
    neither can one of 33 channels. *)
Lemma decodeAudioData_throws :
  decodeAudioData (Uint8Array.of_elements [Byte.x00; Byte.x01; Byte.xff]) 24000 1
  = Throw RangeError /\
  decodeAudioData (Uint8Array.of_elements []) 24000 1 = Throw NotSupportedError /\
  decodeAudioData (Uint8Array.of_elements [Byte.x00; Byte.x01]) 24000 2
  = Throw NotSupportedError /\
  decodeAudioData (Uint8Array.of_elements (repeat Byte.x00 66)) 24000 33
  = Throw NotSupportedError.
Proof. repeat split. Qed.

(** C6, amended. For every array over a buffer of [bytes] of even length,
    every rate within the limits of [createBuffer], and every channel count
    between 1 and the number of 16-bit values, and not above the limit,
    [decodeAudioData] produces [numChannels] sequences of [frameCount =
    floor(count / numChannels)] samples; the values after the last whole
    frame are dropped; sample [i] of a channel is the 16-bit value at
    [i * numChannels + channel] (low byte first) over 32768.  The bytes are
    those of the buffer under the array, which are the array's own when it
    spans its buffer. *)
Theorem decodeAudioData_frames (data : Uint8Array.t) (bytes : list byte)
    (rate : positive) (numChannels : nat) :
  Uint8Array.buffer data = bytes ->
  (length bytes mod 2 = 0)%nat ->
  (1 <= numChannels <= length bytes / 2)%nat ->
  (numChannels <= max_channels)%nat ->
  supported_sampleRate rate = true ->
  exists buffer,
    decodeAudioData data rate numChannels = Normal buffer /\
    numberOfChannels buffer = numChannels /\
    length (channelData buffer) = numChannels /\
    buffer_length buffer = (length bytes / 2 / numChannels)%nat /\
    forall channel, (channel < numChannels)%nat ->
      length (getChannelData buffer channel) = (length bytes / 2 / numChannels)%nat /\
      forall i, (i < length bytes / 2 / numChannels)%nat ->
        exists lo hi,
          bytes !! (2 * (i * numChannels + channel))%nat = Some lo /\
          bytes !! (2 * (i * numChannels + channel) + 1)%nat = Some hi /\
          getChannelData buffer channel !! i
          = Some (Fin (int16_of_bytes lo hi # 32768)).
Proof.
  intros Hdata Heven Hc Hmax Hrate.
  destruct (Int16Array_of_buffer_even bytes Heven) as [dataInt16 Hview].
  destruct (Int16Array_of_buffer_lookup _ _ Hview) as [Hlen Hlook].
  assert (Hhalf : (length bytes / 2 = length dataInt16)%nat).
  { rewrite Hlen, Nat.mul_comm. apply Nat.div_mul. lia. }
  rewrite Hhalf in *. rewrite <- Hdata in Hview.
  rewrite (decodeAudioData_Normal _ rate numChannels dataInt16 Hview) by (assumption || lia).
  eexists. split; [reflexivity|].
  cbn [numberOfChannels buffer_length channelData].
  split; [reflexivity|]. split; [rewrite length_map, length_seq; reflexivity|].
  split; [reflexivity|].
  intros channel Hch. unfold getChannelData. cbn [channelData].
  rewrite list_lookup_fmap, lookup_seq_lt by lia.
  cbn [fmap option_fmap option_map default]. unfold id.
  split; [rewrite length_map, length_seq; reflexivity|].
  intros i Hi.
  assert (Hk : (i * numChannels + channel < length dataInt16)%nat).
  { pose proof (Nat.Div0.mul_div_le (length dataInt16) numChannels). nia. }
  destruct (lookup_lt_is_Some_2 dataInt16 _ Hk) as [v Hv].
  destruct (Hlook _ _ Hv) as (lo & hi & Hlo & Hhi & E).
  exists lo, hi. split; [exact Hlo|]. split; [exact Hhi|].
  rewrite list_lookup_fmap, lookup_seq_lt by lia.
  cbn [fmap option_fmap option_map]. rewrite !Nat.add_0_l, Hv, E. reflexivity.
Qed.

(** Six bytes on two channels: one frame, the third value is dropped. *)
Lemma decodeAudioData_frames_witness :
  exists buffer,
    decodeAudioData
      (Uint8Array.of_elements
         [Byte.x00; Byte.x01; Byte.xff; Byte.x7f; Byte.x00; Byte.x80]) 24000 2
    = Normal buffer /\
    numberOfChannels buffer = 2%nat /\
    length (channelData buffer) = 2%nat /\
    buffer_length buffer = (6 / 2 / 2)%nat /\
    forall channel, (channel < 2)%nat ->
      length (getChannelData buffer channel) = (6 / 2 / 2)%nat /\
      forall i, (i < 6 / 2 / 2)%nat ->
        exists lo hi,
          [Byte.x00; Byte.x01; Byte.xff; Byte.x7f; Byte.x00; Byte.x80]
            !! (2 * (i * 2 + channel))%nat = Some lo /\
          [Byte.x00; Byte.x01; Byte.xff; Byte.x7f; Byte.x00; Byte.x80]
            !! (2 * (i * 2 + channel) + 1)%nat = Some hi /\
          getChannelData buffer channel !! i
          = Some (Fin (int16_of_bytes lo hi # 32768)).
Proof.
  apply (decodeAudioData_frames
           (Uint8Array.of_elements
              [Byte.x00; Byte.x01; Byte.xff; Byte.x7f; Byte.x00; Byte.x80])
           [Byte.x00; Byte.x01; Byte.xff; Byte.x7f; Byte.x00; Byte.x80] 24000 2).
  - reflexivity.
  - reflexivity.
  - simpl. lia.
  - unfold max_channels. lia.
  - reflexivity.
Defined.

(** ** The component's state *)

(** Read the fields of a world built by the setters. *)
Ltac world_simpl :=
  cbn [setMicState setStatus setError setLiveSpeaker set_sessionRef
       set_streamRef set_inputAudioContextRef set_outputAudioContextRef
       set_sourcesRef set_nextStartTimeRef set_scriptProcessorRef
       set_liveSpeakerTimeoutRef set_closure set_continuation emit fresh
       micState status error liveSpeaker sessionRef streamRef inputAudioContextRef
       outputAudioContextRef sourcesRef nextStartTimeRef scriptProcessorRef
       liveSpeakerTimeoutRef closure continuation trace next_handle].

(** Run the setters on a world given by its fields. *)
Ltac world_compute :=
  cbv [setMicState setStatus setError setLiveSpeaker set_sessionRef
       set_streamRef set_inputAudioContextRef set_outputAudioContextRef
       set_sourcesRef set_nextStartTimeRef set_scriptProcessorRef
       set_liveSpeakerTimeoutRef set_closure set_continuation emit fresh
       micState status error liveSpeaker sessionRef streamRef inputAudioContextRef
       outputAudioContextRef sourcesRef nextStartTimeRef scriptProcessorRef
       liveSpeakerTimeoutRef closure continuation trace next_handle].

(** ** The playback scheduler *)

(** A time that [start] accepts is a number, and it is not below zero. *)
Lemma accepted_number (t : float) :
  accepted t -> (t =? t)%float = true /\ (0 <=? t)%float = true.
Proof.
  unfold accepted, start_error.
  destruct (is_finite t) eqn:F; cbn [negb]; [|discriminate].
  destruct (t <? 0)%float eqn:N; [discriminate|]. intros _.
  pose proof (finite_not_negative t F N) as H. split; [|exact H].
  apply leb_number in H. apply H.
Qed.

Lemma start_time_cases (currentTime cursor : float) :
  ((cursor <? currentTime)%float = true /\ start_time currentTime cursor = currentTime) \/
  ((cursor <? currentTime)%float = false /\ start_time currentTime cursor = cursor).
Proof. unfold start_time. destruct (cursor <? currentTime)%float; auto. Qed.




Lemma for_range_invariant {S : Type} (P : S -> Prop) (n : nat) (body : nat -> S -> S)
    (s : S) :
  (forall i t, P t -> P (body i t)) -> P s -> P (for_range n body s).
Proof.
  intros Hbody Hs. induction n as [|n IH]; [exact Hs|].
  rewrite for_range_S. apply Hbody, IH.
Qed.

Lemma decodeAudioData_sampleRate (data : Uint8Array.t) (rate : positive)
    (numChannels : nat) (buffer : AudioBuffer) :
  decodeAudioData data rate numChannels = Normal buffer -> sampleRate buffer = rate.
Proof.
  unfold decodeAudioData.
  destruct (Int16Array_of_buffer (Uint8Array.buffer data)) as [dataInt16|]; [|discriminate].
  destruct numChannels as [|c]; [discriminate|].
  destruct (createBuffer _ _ rate) as [b|] eqn:Hb; [|discriminate].
  intros [= <-]. apply for_range_invariant.
  - intros i t Ht. exact Ht.
  - unfold createBuffer in Hb. destruct (_ || _); [discriminate|].
    injection Hb as <-. reflexivity.
Qed.

Lemma inbound_audio_sampleRate (msg : LiveServerMessage) (audioBuffer : AudioBuffer) :
  inbound_audio msg = Some audioBuffer -> sampleRate audioBuffer = 24000%positive.
Proof.
  unfold inbound_audio.
  destruct (truthy (audioData_of msg)) as [audioData|]; [|discriminate].
  destruct (decode audioData) as [bytes|]; [|discriminate].
  destruct (decodeAudioData _ 24000 1) as [b|] eqn:Hb; [|discriminate].
  intros [= <-]. eapply decodeAudioData_sampleRate, Hb.
Qed.

(** The duration of a buffer at 24000 Hz, the quotient of its length by the
    rate, is not negative. *)
Lemma duration_nonneg (b : AudioBuffer) :
  sampleRate b = 24000%positive -> (0 <=? duration b)%float = true.
Proof.
  intros Hr. unfold duration, number_of_Z. rewrite Hr.
  apply (div_of_uint63_nonneg _ _ 6597069766656000 (-38)). reflexivity.
Qed.

Lemma not_before_trans (a b c : float) :
  not_before a b -> not_before b c -> not_before a c.
Proof.
  unfold not_before. intros [->|Hab] [->|Hbc]; auto.
  right. eapply leb_trans; eassumption.
Qed.

(** Playing a buffer moves the cursor to the end of the buffer, which is
    not before its start. *)
Lemma start_then_end (start : float) (b : AudioBuffer) :
  accepted start -> sampleRate b = 24000%positive ->
  (start <=? start + duration b)%float = true.
Proof.
  intros Hs Hr. apply add_ge; [apply accepted_number, Hs|apply duration_nonneg, Hr].
Qed.

Lemma indicate_trace (sc : option ServerContent) (w : World) :
  nextStartTimeRef (indicate sc w) = nextStartTimeRef w /\
  closure (indicate sc w) = closure w /\
  outputAudioContextRef (indicate sc w) = outputAudioContextRef w /\
  exists rest, trace (indicate sc w) = trace w ++ rest /\ scheduled rest = [].
Proof.
  destruct sc as [[mt tc]|]; cbn [indicate modelTurn turnComplete].
  - destruct mt as [mt|], tc; cbn.
    + repeat split. exists []. rewrite app_nil_r. split; reflexivity.
    + destruct (liveSpeakerTimeoutRef w) as [t|]; cbn; repeat split.
      * exists [ClearTimeout t; SetTimeout (next_handle w) 2000].
        rewrite <- app_assoc. split; reflexivity.
      * exists [SetTimeout (next_handle w) 2000]. split; reflexivity.
    + repeat split. exists []. rewrite app_nil_r. split; reflexivity.
    + repeat split. exists []. rewrite app_nil_r. split; reflexivity.
  - repeat split. exists []. rewrite app_nil_r. split; reflexivity.
Qed.

(** [onmessage] on a message whose audio decodes, on a live output
    context. *)
Lemma onmessage_schedule (currentTime : float) (msg : LiveServerMessage) (w : World)
    (cl : Closure) (ctx : handle) (audioBuffer : AudioBuffer) :
  closure w = Some cl ->
  outputAudioContextRef w = Some ctx ->
  inbound_audio msg = Some audioBuffer ->
  onmessage currentTime msg w
  = match schedule ctx (outputNode cl) currentTime audioBuffer w with
    | (w, Some e) => emit [UnhandledRejection e] w
    | (w, None) => indicate (serverContent msg) w
    end.
Proof.
  intros Hcl Hctx Haudio. unfold inbound_audio in Haudio.
  unfold onmessage. rewrite Hcl, Hctx.
  destruct (truthy (audioData_of msg)) as [audioData|]; [|discriminate Haudio].
  destruct (decode audioData) as [bytes|e]; [|discriminate Haudio].
  destruct (decodeAudioData (Uint8Array.of_elements bytes) 24000 1) as [b|e];
    [|discriminate Haudio].
  injection Haudio as ->. reflexivity.
Qed.

(** One inbound audio message on a live output context, when [start]
    accepts the start time. *)
Lemma onmessage_audio (currentTime : float) (msg : LiveServerMessage) (w : World)
    (cl : Closure) (ctx : handle) (audioBuffer : AudioBuffer) :
  closure w = Some cl ->
  outputAudioContextRef w = Some ctx ->
  inbound_audio msg = Some audioBuffer ->
  accepted (start_time currentTime (nextStartTimeRef w)) ->
  let w' := onmessage currentTime msg w in
  let start := start_time currentTime (nextStartTimeRef w) in
  closure w' = Some cl /\
  outputAudioContextRef w' = Some ctx /\
  nextStartTimeRef w' = (start + duration audioBuffer)%float /\
  exists rest,
    trace w' = trace w ++ [CreateBufferSource ctx (next_handle w);
                           NodeConnect (next_handle w) (outputNode cl);
                           SourceStart (next_handle w) start audioBuffer] ++ rest /\
    scheduled rest = [].
Proof.
  intros Hcl Hctx Haudio Hstart. cbv zeta.
  rewrite (onmessage_schedule currentTime msg w cl ctx audioBuffer Hcl Hctx Haudio).
  unfold accepted, start_time in Hstart. unfold schedule, start_time. world_simpl.
  destruct (nextStartTimeRef w <? currentTime)%float eqn:E; world_simpl;
    rewrite Hstart;
    match goal with
    | |- context [indicate ?sc ?ws] =>
        destruct (indicate_trace sc ws) as (Hn & Hc & Ho & rest & Ht & Hs);
        rewrite Hn, Hc, Ho, Ht; world_simpl
    end;
    (repeat split; try assumption; exists rest; rewrite <- !app_assoc; split;
     [reflexivity|assumption]).
Qed.

(** One inbound audio message on a live output context, when [start] throws:
    the source is made and connected, the cursor has been moved up to the
    clock, and nothing is started. *)
Lemma onmessage_start_throws (currentTime : float) (msg : LiveServerMessage) (w : World)
    (cl : Closure) (ctx : handle) (audioBuffer : AudioBuffer) (e : exn) :
  closure w = Some cl ->
  outputAudioContextRef w = Some ctx ->
  inbound_audio msg = Some audioBuffer ->
  start_error (start_time currentTime (nextStartTimeRef w)) = Some e ->
  let w' := onmessage currentTime msg w in
  nextStartTimeRef w' = start_time currentTime (nextStartTimeRef w) /\
  sourcesRef w' = sourcesRef w /\
  liveSpeakerTimeoutRef w' = liveSpeakerTimeoutRef w /\
  next_handle w' = S (next_handle w) /\
  trace w' = trace w ++ [CreateBufferSource ctx (next_handle w);
                         NodeConnect (next_handle w) (outputNode cl);
                         UnhandledRejection e].
Proof.
  intros Hcl Hctx Haudio Hstart. cbv zeta.
  rewrite (onmessage_schedule currentTime msg w cl ctx audioBuffer Hcl Hctx Haudio).
  unfold start_time in Hstart. unfold schedule, start_time. world_simpl.
  destruct (nextStartTimeRef w <? currentTime)%float eqn:E; world_simpl;
    rewrite Hstart; world_simpl; rewrite <- !app_assoc; repeat split.
Qed.



(** The cursor after that frame is the binary64 number nearest to
    0.5 + 1/24000, the quotient having been rounded before the sum. *)
Lemma cursor_after_one_frame :
  duration Examples.one_frame = 0x1.5d867c3ece2a5p-15%float /\
  nextStartTimeRef (onmessage 0.5 (Examples.audio_message "AAA=") Examples.connecting)
  = 0x1.00057619f0fb4p-1%float.
Proof. split; vm_compute; reflexivity. Qed.



(** ** Teardown and the session's life cycle *)

Section AIConversationFacts.

Variable lessonName : string.
Variable apiKey : string.
Variable env_API_KEY : option string.
Variable AI_CONVERSATION_PROMPTS : string -> option (list string).
Variable speechSynthesis : bool.

(** [cleanup] releases what is held, once, and leaves every ref null. *)
Lemma cleanup_spec (w : World) :
  let w' := cleanup speechSynthesis w in
  released w' /\
  trace w' = trace w ++ ConsoleLog :: held_releases w
               ++ (if speechSynthesis then [SpeechSynthesisCancel] else []) /\
  closure w' = closure w /\ continuation w' = continuation w /\
  micState w' = micState w /\ error w' = error w /\ status w' = status w /\
  nextStartTimeRef w' = nextStartTimeRef w /\ next_handle w' = next_handle w.
Proof using speechSynthesis.
  destruct w as [ms st er ls [s|] [m|] [ic|] [oc|] srcs nx [sp|] tm cl k tr nh];
    destruct speechSynthesis; unfold cleanup, released, held_releases;
    world_compute; rewrite <- ?app_assoc; cbn [app]; rewrite ?app_nil_r;
    repeat split; reflexivity.
Qed.

Lemma cleanup_released (w : World) :
  released w ->
  cleanup speechSynthesis w = emit (cleanup_again speechSynthesis) w.
Proof using speechSynthesis.
  destruct w as [ms st er ls s m ic oc srcs nx sp tm cl k tr nh].
  unfold released. world_compute. intros (-> & -> & -> & -> & ->).
  destruct speechSynthesis; unfold cleanup, cleanup_again; world_compute;
    rewrite <- ?app_assoc; reflexivity.
Qed.

Lemma cleanup_again_no_release :
  Forall (fun e => is_release e = false) (cleanup_again speechSynthesis).
Proof using speechSynthesis. unfold cleanup_again. destruct speechSynthesis; repeat constructor. Qed.

Lemma stopSession_spec (w : World) :
  let w' := stopSession speechSynthesis w in
  released w' /\
  trace w' = trace w ++ ConsoleLog :: held_releases w
               ++ (if speechSynthesis then [SpeechSynthesisCancel] else []) /\
  closure w' = closure w /\ continuation w' = continuation w /\
  micState w' = Idle /\ status w' = StatusStopped /\ error w' = error w /\
  next_handle w' = next_handle w.
Proof using speechSynthesis.
  destruct (cleanup_spec w) as (Hr & Ht & Hc & Hk & _ & He & _ & _ & Hn).
  cbv zeta in Hr, Ht, Hc, Hk, He, Hn. cbv zeta.
  unfold stopSession, released. world_simpl.
  repeat (split; [first [assumption | reflexivity | apply Hr]|]). assumption.
Qed.

(** C7. Teardown twice in a row, from any state, by [stopSession] or by
    [cleanup] alone: after the first call every resource handle (session,
    microphone stream, script processor, input context, output context)
    is null; the second call finds them null and performs no release; all
    it does is the log line and the speech-synthesis cancel.  No step of
    the teardown can throw. *)
Theorem teardown_twice (w : World) :
  released (stopSession speechSynthesis w) /\
  stopSession speechSynthesis (stopSession speechSynthesis w)
  = emit (cleanup_again speechSynthesis) (stopSession speechSynthesis w) /\
  released (cleanup speechSynthesis w) /\
  cleanup speechSynthesis (cleanup speechSynthesis w)
  = emit (cleanup_again speechSynthesis) (cleanup speechSynthesis w) /\
  Forall (fun e => is_release e = false) (cleanup_again speechSynthesis).
Proof using speechSynthesis.
  split; [apply stopSession_spec|]. split.
  - unfold stopSession at 1.
    rewrite cleanup_released by apply stopSession_spec.
    generalize (cleanup speechSynthesis w). intros w1.
    destruct w1. unfold stopSession. reflexivity.
  - split; [apply cleanup_spec|]. split.
    + apply cleanup_released, cleanup_spec.
    + apply cleanup_again_no_release.
Qed.
(** C8, amended. When the transport signals a failure ([onerror] fires),
    the state becomes the error state with the connection error shown; the
    handler releases nothing and every resource ref keeps its value; the
    acquired resources are released when teardown runs afterwards (stop or
    unmount), which releases exactly what was held. *)
Theorem onerror_keeps_resources (w : World) :
  let w' := onerror w in
  micState w' = Error /\ error w' = Some ErrConnection /\
  sessionRef w' = sessionRef w /\ streamRef w' = streamRef w /\
  scriptProcessorRef w' = scriptProcessorRef w /\
  inputAudioContextRef w' = inputAudioContextRef w /\
  outputAudioContextRef w' = outputAudioContextRef w /\
  trace w' = trace w ++ [ConsoleError] /\
  released (stopSession speechSynthesis w') /\
  trace (stopSession speechSynthesis w')
  = trace w' ++ ConsoleLog :: held_releases w
      ++ (if speechSynthesis then [SpeechSynthesisCancel] else []).
Proof using speechSynthesis.
  cbv zeta.
  destruct (stopSession_spec (onerror w)) as (Hr & Ht & _). cbv zeta in Hr, Ht.
  assert (Hh : held_releases (onerror w) = held_releases w) by reflexivity.
  rewrite Ht, Hh.
  repeat (split; [reflexivity|]). split; [exact Hr|reflexivity].
Qed.

(** C9, amended. When stop is invoked while the connect attempt is
    pending, teardown completes and the state is idle with every ref null;
    when the pending connect later resolves, the resolved session handle is
    stored in [sessionRef] (it is retained and was not closed), the chunks
    captured before the stop are sent to it, and nothing else changes; the
    later callbacks are not guarded by the teardown: an open callback
    installs the capture wiring and a captured chunk is sent to the
    session. *)
Theorem stop_while_connecting (w : World) (cl : Closure) (thens : list Blob)
    (session : handle) (inputData : list number) :
  closure w = Some cl ->
  sessionPromise cl = Pending thens ->
  continuation w = AwaitSessionPromise ->
  let w1 := stopSession speechSynthesis w in
  let w2 := sessionPromise_resolved session w1 in
  micState w1 = Idle /\ released w1 /\
  sessionRef w2 = Some session /\
  micState w2 = Idle /\ streamRef w2 = None /\ scriptProcessorRef w2 = None /\
  inputAudioContextRef w2 = None /\ outputAudioContextRef w2 = None /\
  trace w2 = trace w1 ++ map (SendRealtimeInput session) thens /\
  scriptProcessorRef (onopen w1) = Some (Datatypes.S (next_handle w)) /\
  trace (onaudioprocess inputData w2)
  = trace w2 ++ [SendRealtimeInput session (createBlob inputData)].
Proof using speechSynthesis.
  intros Hcl Hp Hk. cbv zeta.
  destruct (stopSession_spec w) as (Hr & _ & Hc & Hk' & Hm & _ & _ & Hn).
  cbv zeta in Hr, Hc, Hk', Hm, Hn. rewrite Hcl in Hc. rewrite Hk in Hk'.
  generalize dependent (stopSession speechSynthesis w). intros w1 Hr Hc Hk' Hm Hn.
  assert (E2 : sessionPromise_resolved session w1
               = emit (map (SendRealtimeInput session) thens)
                   (set_continuation NotRunning
                      (set_sessionRef (Some session)
                         (set_closure
                            (Some (with_sessionPromise (Resolved session) cl)) w1)))).
  { unfold sessionPromise_resolved. rewrite Hc, Hp. world_simpl. rewrite Hk'.
    reflexivity. }
  assert (E3 : scriptProcessorRef (onopen w1) = Some (Datatypes.S (next_handle w))).
  { unfold onopen. rewrite Hc. world_simpl. rewrite Hn. reflexivity. }
  assert (E4 : trace (onaudioprocess inputData (sessionPromise_resolved session w1))
               = trace (sessionPromise_resolved session w1)
                 ++ [SendRealtimeInput session (createBlob inputData)]).
  { rewrite E2. unfold onaudioprocess. world_simpl. reflexivity. }
  rewrite E3, E4, E2. world_simpl.
  destruct Hr as (H1 & H2 & H3 & H4 & H5).
  unfold released. repeat split; try assumption; reflexivity.
Qed.

(** C10. [startSession] raises the missing-credential error exactly when
    the stored key is empty and [process.env.API_KEY] is absent (undefined
    or empty); it then sets the error state and acquires nothing.  With an
    empty stored key and the environment variable set, the start proceeds
    with the environment's value: that key is the one the microphone
    request and then the connection go on with. *)
Theorem startSession_missing_credential (w : World) (stream : MediaStream) :
  let w' := startSession lessonName apiKey env_API_KEY AI_CONVERSATION_PROMPTS w in
  (error w' = Some ErrNoApiKey
   <-> apiKey = EmptyString /\ (env_API_KEY = None \/ env_API_KEY = Some EmptyString)) /\
  (error w' = Some ErrNoApiKey ->
   micState w' = Error /\ trace w' = trace w /\ continuation w' = continuation w /\
   sessionRef w' = sessionRef w /\ streamRef w' = streamRef w /\
   scriptProcessorRef w' = scriptProcessorRef w /\
   inputAudioContextRef w' = inputAudioContextRef w /\
   outputAudioContextRef w' = outputAudioContextRef w) /\
  (forall key prompts,
     apiKey = EmptyString -> env_API_KEY = Some key -> key <> EmptyString ->
     AI_CONVERSATION_PROMPTS lessonName = Some prompts ->
     error w' = None /\ micState w' = Requesting /\
     continuation w' = AwaitGetUserMedia key prompts /\
     trace w' = trace w ++ [GetUserMedia] /\
     In (LiveConnect key prompts) (trace (startSession_granted stream w'))).
Proof using lessonName apiKey env_API_KEY AI_CONVERSATION_PROMPTS.
  cbv zeta. unfold startSession, effectiveApiKey.
  destruct apiKey as [|c rest] eqn:Ekey; cbn [truthy].
  - destruct env_API_KEY as [[|c k]|] eqn:Eenv; cbn [truthy].
    + world_simpl. split; [|split].
      * split; [intros _; split; [reflexivity|right; reflexivity]|reflexivity].
      * intros _. repeat split; reflexivity.
      * intros key prompts _ [= <-] Hne. congruence.
    + destruct (AI_CONVERSATION_PROMPTS lessonName) as [ps|] eqn:Ep; world_simpl.
      * split; [|split].
        -- split; [discriminate|]. intros [_ [H|H]]; discriminate H.
        -- discriminate.
        -- intros key prompts _ [= <-] _ [= <-].
           unfold startSession_granted. world_simpl.
           repeat split; try reflexivity.
           rewrite !in_app_iff. right. left. reflexivity.
      * split; [|split].
        -- split; [discriminate|]. intros [_ [H|H]]; discriminate H.
        -- discriminate.
        -- intros key prompts _ _ _ [=].
    + world_simpl. split; [|split].
      * split; [intros _; split; [reflexivity|left; reflexivity]|reflexivity].
      * intros _. repeat split; reflexivity.
      * intros key prompts _ [=].
  - destruct (AI_CONVERSATION_PROMPTS lessonName) as [ps|] eqn:Ep; world_simpl;
      (split; [|split]);
      solve [ split; [discriminate|intros [H _]; discriminate H]
            | discriminate
            | intros key prompts H; discriminate H ].
Qed.

End AIConversationFacts.

(** C8, as stated, fails: after a session is up and the transport reports an
    error, the state is the error state but the session, the microphone
    stream, the script processor and both contexts are still held, and
    nothing has been released. *)
Lemma onerror_releases_nothing :
  let w := Examples.run_lesson
             [ClickStart; GetUserMediaResolved Examples.microphone; Open;
              SessionResolved 7%nat; TransportError] initial in
  micState w = Error /\
  sessionRef w = Some 7%nat /\
  streamRef w = Some Examples.microphone /\
  scriptProcessorRef w = Some 4%nat /\
  inputAudioContextRef w = Some 0%nat /\
  outputAudioContextRef w = Some 1%nat /\
  List.filter is_release (trace w) = [].
Proof. vm_compute. repeat split. Qed.

(** C9, as stated, fails: with stop during a pending connect, the session
    that resolves afterwards is retained and never closed, the chunk
    captured before the stop is sent to it, and an open callback that fires
    after the stop installs the capture wiring. *)
Lemma stop_while_connecting_has_side_effects :
  let w := Examples.run_lesson
             [ClickStart; GetUserMediaResolved Examples.microphone; Open;
              AudioProcess [Fin (1 # 2)]; ClickStop; SessionResolved 7%nat] initial in
  let w' := Examples.run_lesson
              [ClickStart; GetUserMediaResolved Examples.microphone; ClickStop; Open]
              initial in
  sessionRef w = Some 7%nat /\
  last (trace w) = Some (SendRealtimeInput 7%nat (createBlob [Fin (1 # 2)])) /\
  List.filter is_release (trace w)
  = [TrackStop 101%nat; NodeDisconnect 4%nat; ContextClose 0%nat; ContextClose 1%nat] /\
  scriptProcessorRef w' = Some 4%nat.
Proof. vm_compute. repeat split. Qed.

(** Stop right after the microphone grant, then the session resolves. *)
Lemma stop_while_connecting_witness :
  let w1 := stopSession true Examples.connecting in
  let w2 := sessionPromise_resolved 7%nat w1 in
  micState w1 = Idle /\ released w1 /\
  sessionRef w2 = Some 7%nat /\
  micState w2 = Idle /\ streamRef w2 = None /\ scriptProcessorRef w2 = None /\
  inputAudioContextRef w2 = None /\ outputAudioContextRef w2 = None /\
  trace w2 = trace w1 ++ map (SendRealtimeInput 7%nat) [] /\
  scriptProcessorRef (onopen w1) = Some (Datatypes.S (next_handle Examples.connecting)) /\
  trace (onaudioprocess [Fin (1 # 2)] w2)
  = trace w2 ++ [SendRealtimeInput 7%nat (createBlob [Fin (1 # 2)])].
Proof.
  apply (stop_while_connecting true Examples.connecting Examples.connecting_closure
           [] 7%nat [Fin (1 # 2)]); reflexivity.
Defined.

(** * Further properties of the audio helpers *)


(** * Further properties of the audio helpers *)

Lemma byte_of_Z_of_byte (b : byte) : byte_of_Z (Z_of_byte b) = b.
Proof.
  unfold byte_of_Z, Z_of_byte. pose proof (Byte.to_N_bounded b) as Hb.
  rewrite Z.mod_small by lia. rewrite N2Z.id.
  rewrite <- ascii_of_byte_via_N. apply byte_of_ascii_of_byte.
Qed.

Lemma bytes_of_int16_of_bytes (lo hi : byte) :
  bytes_of_int16 (int16_of_bytes lo hi) = [lo; hi].
Proof.
  unfold bytes_of_int16, int16_of_bytes.
  pose proof (Z_of_byte_range lo) as Hlo. pose proof (Z_of_byte_range hi) as Hhi.
  set (l := Z_of_byte lo) in *. set (h := Z_of_byte hi) in *.
  assert (E : forall v, v mod 256 = l -> (v / 256) mod 256 = h ->
                        [byte_of_Z v; byte_of_Z (v / 256)] = [lo; hi]).
  { intros v Hl Hh.
    assert (Hm : forall z, byte_of_Z z = byte_of_Z (z mod 256))
      by (intros z; unfold byte_of_Z; rewrite Z.mod_mod by lia; reflexivity).
    rewrite (Hm v), (Hm (v / 256)), Hl, Hh. unfold l, h.
    rewrite !byte_of_Z_of_byte. reflexivity. }
  destruct (Z.leb_spec 32768 (l + 256 * h)); apply E; lia.
Qed.

Lemma Uint8Array_of_Int16Array_view (buf : list byte) (a : list Z) :
  Int16Array_of_buffer buf = Normal a -> Uint8Array_of_Int16Array a = buf.
Proof.
  revert a. induction buf as [|b|lo hi buf IH] using list_ind2; intros a H.
  - injection H as <-. reflexivity.
  - discriminate H.
  - cbn [Int16Array_of_buffer] in H.
    destruct (Int16Array_of_buffer buf) as [a'|e]; [|discriminate H].
    injection H as <-.
    cbn [Uint8Array_of_Int16Array flat_map]. fold (Uint8Array_of_Int16Array a').
    rewrite bytes_of_int16_of_bytes, (IH a' eq_refl). reflexivity.
Qed.

Lemma Int16Array_of_buffer_range (buf : list byte) (a : list Z) :
  Int16Array_of_buffer buf = Normal a ->
  Forall (fun v => -32768 <= v < 32768) a.
Proof.
  intros H. apply Forall_forall. intros v Hv.
  apply list_elem_of_lookup in Hv as [k Hk].
  destruct (Int16Array_of_buffer_lookup _ _ H) as [_ Hlook].
  destruct (Hlook k v Hk) as (lo & hi & _ & _ & ->). apply int16_of_bytes_range.
Qed.

(** A 16-bit value over 32768 goes back to that value. *)
Lemma ToInt16_over_32768 (v : Z) :
  -32768 <= v < 32768 -> ToInt16 (times_32768 (Some (over_32768 (Some v)))) = v.
Proof.
  intros Hv. cbn [over_32768 times_32768 ToInt16]. unfold truncate.
  cbn [Qmult Qnum Qden].
  change (Z.pos (32768 * 1)) with 32768.
  rewrite Z.quot_mul by lia.
  destruct (Z.leb_spec 32768 (v mod 65536)); lia.
Qed.

(** The one channel of a mono buffer. *)
Lemma decodeAudioData_mono (array : Uint8Array.t) (rate : positive) (dataInt16 : list Z) :
  Int16Array_of_buffer (Uint8Array.buffer array) = Normal dataInt16 ->
  dataInt16 <> [] ->
  supported_sampleRate rate = true ->
  exists buffer,
    decodeAudioData array rate 1 = Normal buffer /\
    buffer_length buffer = length dataInt16 /\
    getChannelData buffer 0 = map (fun v => over_32768 (Some v)) dataInt16.
Proof.
  intros Hview Hne Hrate.
  assert (Hpos : (1 <= length dataInt16)%nat).
  { destruct dataInt16; [congruence|simpl; lia]. }
  rewrite (decodeAudioData_Normal array rate 1 dataInt16 Hview)
    by (assumption || (unfold max_channels; lia)).
  eexists. split; [reflexivity|]. cbn [buffer_length].
  rewrite Nat.div_1_r. split; [reflexivity|].
  unfold getChannelData. cbn [channelData seq map lookup list_lookup default from_option].
  unfold id. rewrite <- (map_lookup_seq over_32768).
  apply map_ext. intros i. rewrite Nat.mul_1_r, Nat.add_0_r. reflexivity.
Qed.

(** X1. The wire form survives the other round trip unchanged: for every
    array over a buffer of [bytes], not empty and of even length, and every
    rate within the limits of [createBuffer], the samples that
    [decodeAudioData] reads (one channel) are encoded by [createBlob] to
    text that [decode] turns back into the same bytes.  The bytes are those
    of the buffer under the array, the array's own when it spans its
    buffer. *)
Theorem wire_samples_wire (array : Uint8Array.t) (bytes : list byte) (rate : positive) :
  Uint8Array.buffer array = bytes ->
  bytes <> [] ->
  (length bytes mod 2 = 0)%nat ->
  supported_sampleRate rate = true ->
  exists buffer,
    decodeAudioData array rate 1 = Normal buffer /\
    decode (data (createBlob (getChannelData buffer 0))) = Normal bytes.
Proof.
  intros Harray Hne Heven Hrate.
  destruct (Int16Array_of_buffer_even bytes Heven) as [dataInt16 Hview].
  assert (Hne' : dataInt16 <> []).
  { intros ->. destruct (Int16Array_of_buffer_lookup _ _ Hview) as [Hlen _].
    destruct bytes; [congruence|discriminate Hlen]. }
  pose proof Hview as Hview'. rewrite <- Harray in Hview'.
  destruct (decodeAudioData_mono array rate dataInt16 Hview' Hne' Hrate)
    as (buffer & Hb & _ & Hch).
  exists buffer. split; [exact Hb|].
  rewrite createBlob_wire, Hch, map_map. f_equal.
  etransitivity; [|apply (Uint8Array_of_Int16Array_view bytes dataInt16 Hview)].
  f_equal.
  pose proof (Int16Array_of_buffer_range _ _ Hview) as Hr.
  clear -Hr. induction Hr as [|v a Hv _ IH]; [reflexivity|].
  cbn [map]. rewrite ToInt16_over_32768 by exact Hv. rewrite IH. reflexivity.
Qed.

(** The bytes 00 80 ff 7f: the values -32768 and 32767. *)
Lemma wire_samples_wire_witness :
  exists buffer,
    decodeAudioData (Uint8Array.of_elements [Byte.x00; Byte.x80; Byte.xff; Byte.x7f])
      24000 1
    = Normal buffer /\
    decode (data (createBlob (getChannelData buffer 0)))
    = Normal [Byte.x00; Byte.x80; Byte.xff; Byte.x7f].
Proof.
  apply (wire_samples_wire
           (Uint8Array.of_elements [Byte.x00; Byte.x80; Byte.xff; Byte.x7f])
           [Byte.x00; Byte.x80; Byte.xff; Byte.x7f] 24000).
  - reflexivity.
  - discriminate.
  - reflexivity.
  - reflexivity.
Defined.

Lemma decodeAudioData_no_buffer (array : Uint8Array.t) (rate : positive)
    (numChannels : nat) (dataInt16 : list Z) :
  Int16Array_of_buffer (Uint8Array.buffer array) = Normal dataInt16 ->
  (numChannels = 0 \/ length dataInt16 < numChannels \/ max_channels < numChannels)%nat
  \/ supported_sampleRate rate = false ->
  decodeAudioData array rate numChannels = Throw NotSupportedError.
Proof.
  intros Hview Hc. unfold decodeAudioData. rewrite Hview.
  destruct numChannels as [|c']; [reflexivity|].
  unfold createBuffer. rewrite truncate_nat_ratio by lia.
  match goal with
  | |- context [if ?c then _ else _] =>
      assert (Hcond : c = true); [|rewrite Hcond; reflexivity]
  end.
  rewrite !orb_true_iff, negb_true_iff, Nat.ltb_lt, !Nat.eqb_eq.
  destruct Hc as [[Hc|[Hc|Hc]]|Hc].
  - discriminate Hc.
  - left. right. apply Nat.div_small, Hc.
  - left. left. right. exact Hc.
  - right. exact Hc.
Qed.

Lemma decodeAudioData_odd (array : Uint8Array.t) (rate : positive) (numChannels : nat) :
  (length (Uint8Array.buffer array) mod 2 = 1)%nat ->
  decodeAudioData array rate numChannels = Throw RangeError.
Proof.
  intros Hodd. unfold decodeAudioData.
  rewrite (Int16Array_of_buffer_odd _ Hodd). reflexivity.
Qed.

Lemma length_parity (n : nat) : (n mod 2 = 0 \/ n mod 2 = 1)%nat.
Proof. pose proof (Nat.mod_upper_bound n 2). lia. Qed.

Lemma half_length_view (bytes : list byte) (dataInt16 : list Z) :
  Int16Array_of_buffer bytes = Normal dataInt16 ->
  (length bytes / 2 = length dataInt16)%nat.
Proof.
  intros H. destruct (Int16Array_of_buffer_lookup _ _ H) as [Hlen _].
  rewrite Hlen, Nat.mul_comm. apply Nat.div_mul. lia.
Qed.

(** The three cases of [decodeAudioData], by the length of the buffer under
    the array, the channel count and the rate. *)
Lemma decodeAudioData_cases (array : Uint8Array.t) (rate : positive) (numChannels : nat) :
  let n := length (Uint8Array.buffer array) in
  ((n mod 2 = 1)%nat /\ decodeAudioData array rate numChannels = Throw RangeError) \/
  ((n mod 2 = 0)%nat /\
   ((numChannels = 0 \/ n / 2 < numChannels \/ max_channels < numChannels)%nat
    \/ supported_sampleRate rate = false) /\
   decodeAudioData array rate numChannels = Throw NotSupportedError) \/
  ((n mod 2 = 0)%nat /\ (1 <= numChannels <= n / 2)%nat /\
   (numChannels <= max_channels)%nat /\ supported_sampleRate rate = true /\
   exists dataInt16,
     Int16Array_of_buffer (Uint8Array.buffer array) = Normal dataInt16 /\
     decodeAudioData array rate numChannels
     = Normal {| numberOfChannels := numChannels;
                 buffer_length := length dataInt16 / numChannels;
                 sampleRate := rate;
                 channelData :=
                   map (fun channel =>
                          map (fun i => over_32768
                                          (dataInt16 !! (i * numChannels + channel)%nat))
                            (seq 0 (length dataInt16 / numChannels)))
                     (seq 0 numChannels) |}).
Proof.
  cbv zeta.
  destruct (length_parity (length (Uint8Array.buffer array))) as [Heven|Hodd];
    [|left; split; [exact Hodd|apply decodeAudioData_odd, Hodd]].
  right.
  destruct (Int16Array_of_buffer_even _ Heven) as [dataInt16 Hview].
  rewrite (half_length_view _ _ Hview).
  destruct (supported_sampleRate rate) eqn:Hrate;
    [|left; split; [exact Heven|split; [right; reflexivity|]];
      apply (decodeAudioData_no_buffer _ _ _ _ Hview); right; exact Hrate].
  destruct (Nat.eq_dec numChannels 0%nat) as [Hz|Hz];
    [left; split; [exact Heven|split; [left; left; exact Hz|]];
     apply (decodeAudioData_no_buffer _ _ _ _ Hview); left; left; exact Hz|].
  destruct (le_lt_dec numChannels (length dataInt16)) as [Hle|Hlt];
    [|left; split; [exact Heven|split; [left; right; left; exact Hlt|]];
      apply (decodeAudioData_no_buffer _ _ _ _ Hview); left; right; left; exact Hlt].
  destruct (le_lt_dec numChannels max_channels) as [Hm|Hm];
    [|left; split; [exact Heven|split; [left; right; right; exact Hm|]];
      apply (decodeAudioData_no_buffer _ _ _ _ Hview); left; right; right; exact Hm].
  right. split; [exact Heven|]. split; [lia|]. split; [exact Hm|]. split; [reflexivity|].
  exists dataInt16. split; [exact Hview|].
  apply decodeAudioData_Normal; [exact Hview|lia|exact Hm|exact Hrate].
Qed.

(** X2. The three outcomes of [decodeAudioData], decided by the byte length
    of the buffer under the array, the channel count and the rate: a
    RangeError exactly for an odd byte length; a NotSupportedError exactly
    for an even byte length with no channel, fewer 16-bit values than
    channels (no whole frame, the empty input included), more channels than
    the limit, or a rate outside the limits; a buffer in every other case;
    and no other exception. *)
Theorem decodeAudioData_outcome (array : Uint8Array.t) (rate : positive)
    (numChannels : nat) :
  let n := length (Uint8Array.buffer array) in
  (decodeAudioData array rate numChannels = Throw RangeError
   <-> (n mod 2 = 1)%nat) /\
  (decodeAudioData array rate numChannels = Throw NotSupportedError
   <-> (n mod 2 = 0)%nat /\
       ((numChannels = 0 \/ n / 2 < numChannels \/ max_channels < numChannels)%nat
        \/ supported_sampleRate rate = false)) /\
  ((exists buffer, decodeAudioData array rate numChannels = Normal buffer)
   <-> (n mod 2 = 0)%nat /\ (1 <= numChannels <= n / 2)%nat /\
       (numChannels <= max_channels)%nat /\ supported_sampleRate rate = true) /\
  (forall e, decodeAudioData array rate numChannels = Throw e ->
             e = RangeError \/ e = NotSupportedError).
Proof.
  cbv zeta.
  destruct (decodeAudioData_cases array rate numChannels)
    as [[Hn ->]|[(Hn & Hc & ->)|(Hn & Hc & Hm & Hr & d & _ & ->)]];
    repeat split; intros;
    repeat match goal with
           | H : _ /\ _ |- _ => destruct H
           | H : exists _, _ |- _ => destruct H
           end;
    first [ discriminate | assumption | reflexivity | lia | tauto
          | (eexists; reflexivity) | (left; congruence) | (right; congruence)
          | match goal with
            | H : _ \/ _ |- _ => destruct H as [[?|[?|?]]|?]; first [lia | congruence]
            end ].
Qed.

(** X3. Every buffer that [decodeAudioData] returns is well formed: it has
    [numChannels] channels of [length] samples each and the rate asked for,
    [length] being the number of whole frames in the buffer under the
    array, the whole of it also when the array is a view of a part; it is
    the number of whole frames in the array when the array spans its
    buffer; and every sample is a finite number in [-1, 1). *)
Theorem decodeAudioData_well_formed (array : Uint8Array.t) (rate : positive)
    (numChannels : nat) (buffer : AudioBuffer) :
  decodeAudioData array rate numChannels = Normal buffer ->
  numberOfChannels buffer = numChannels /\
  sampleRate buffer = rate /\
  buffer_length buffer = (length (Uint8Array.buffer array) / 2 / numChannels)%nat /\
  (Uint8Array.spans_buffer array ->
   buffer_length buffer = (Uint8Array.byteLength array / 2 / numChannels)%nat) /\
  length (channelData buffer) = numChannels /\
  Forall (fun samples =>
            length samples = buffer_length buffer /\
            Forall (fun s => exists r, s = Fin r /\ (-1 <= r)%Q /\ (r < 1)%Q) samples)
         (channelData buffer).
Proof.
  intros H.
  destruct (decodeAudioData_cases array rate numChannels)
    as [[_ E]|[(_ & _ & E)|(_ & Hc & _ & _ & dataInt16 & Hview & E)]];
    rewrite E in H; try discriminate H.
  rewrite (half_length_view _ _ Hview) in *.
  injection H as <-. cbn [numberOfChannels sampleRate buffer_length channelData].
  split; [reflexivity|]. split; [reflexivity|]. split; [reflexivity|].
  split; [intros [_ ->]; rewrite (half_length_view _ _ Hview); reflexivity|].
  split; [rewrite length_map, length_seq; reflexivity|].
  apply Forall_forall. intros samples Hs.
  apply list_elem_of_In, in_map_iff in Hs. destruct Hs as (channel & <- & Hch).
  apply in_seq in Hch.
  split; [rewrite length_map, length_seq; reflexivity|].
  apply Forall_forall. intros s Hs.
  apply list_elem_of_In, in_map_iff in Hs. destruct Hs as (i & <- & Hi).
  apply in_seq in Hi.
  assert (Hk : (i * numChannels + channel < length dataInt16)%nat).
  { pose proof (Nat.Div0.mul_div_le (length dataInt16) numChannels). nia. }
  destruct (lookup_lt_is_Some_2 dataInt16 _ Hk) as [v Hv]. rewrite Hv.
  pose proof (Int16Array_of_buffer_range _ _ Hview) as Hr.
  rewrite Forall_forall in Hr.
  assert (Hvr : -32768 <= v < 32768) by (apply Hr; eapply list_elem_of_lookup_2, Hv).
  exists (v # 32768). split; [reflexivity|].
  unfold Qle, Qlt. cbn [Qnum Qden]. lia.
Qed.

(** Three 16-bit values on one channel. *)
Lemma decodeAudioData_well_formed_witness :
  let array := Uint8Array.of_elements
                 [Byte.x00; Byte.x80; Byte.xff; Byte.x7f; Byte.x00; Byte.x01] in
  let buffer := {| numberOfChannels := 1; buffer_length := 3; sampleRate := 24000;
                   channelData := [[Fin (-32768 # 32768); Fin (32767 # 32768);
                                    Fin (256 # 32768)]] |} in
  numberOfChannels buffer = 1%nat /\
  sampleRate buffer = 24000%positive /\
  buffer_length buffer = (length (Uint8Array.buffer array) / 2 / 1)%nat /\
  (Uint8Array.spans_buffer array ->
   buffer_length buffer = (Uint8Array.byteLength array / 2 / 1)%nat) /\
  length (channelData buffer) = 1%nat /\
  Forall (fun samples =>
            length samples = buffer_length buffer /\
            Forall (fun s => exists r, s = Fin r /\ (-1 <= r)%Q /\ (r < 1)%Q) samples)
         (channelData buffer).
Proof.
  apply (decodeAudioData_well_formed
           (Uint8Array.of_elements
              [Byte.x00; Byte.x80; Byte.xff; Byte.x7f; Byte.x00; Byte.x01]) 24000 1).
  reflexivity.
Defined.

(** A view of two bytes of a buffer of six: the elements of the view are
    two, and [decodeAudioData] reads the three 16-bit values of the
    buffer. *)
Lemma decodeAudioData_of_subarray :
  let whole := Uint8Array.of_elements
                 [Byte.x00; Byte.x80; Byte.xff; Byte.x7f; Byte.x00; Byte.x01] in
  let part := Uint8Array.subarray whole 2 4 in
  Uint8Array.elements part = [Byte.xff; Byte.x7f] /\
  exists buffer,
    decodeAudioData part 24000 1 = Normal buffer /\ buffer_length buffer = 3%nat.
Proof. split; [reflexivity|]. eexists. split; reflexivity. Qed.

Lemma Uint8Array_of_Int16Array_length (a : list Z) :
  length (Uint8Array_of_Int16Array a) = (2 * length a)%nat.
Proof.
  induction a as [|v a IH]; [reflexivity|].
  cbn [Uint8Array_of_Int16Array flat_map bytes_of_int16 app length].
  fold (Uint8Array_of_Int16Array a). rewrite IH. lia.
Qed.

Lemma Uint8Array_of_Int16Array_lookup (a : list Z) (i : nat) (v : Z) :
  a !! i = Some v ->
  Uint8Array_of_Int16Array a !! (2 * i)%nat = Some (byte_of_Z v) /\
  Uint8Array_of_Int16Array a !! (2 * i + 1)%nat = Some (byte_of_Z (v / 256)).
Proof.
  revert i. induction a as [|u a IH]; intros i Hi; [destruct i; discriminate Hi|].
  destruct i as [|i].
  - injection Hi as ->. split; reflexivity.
  - cbn [lookup list_lookup] in Hi. destruct (IH i Hi) as [H1 H2].
    replace (2 * S i)%nat with (S (S (2 * i))) by lia.
    replace (S (S (2 * i)) + 1)%nat with (S (S (2 * i + 1))) by lia.
    split; assumption.
Qed.

(** The wire bytes of the sample at index [i]. *)
Lemma createBlob_wire_lookup (samples : list number) (i : nat) (s : number) :
  samples !! i = Some s ->
  exists wire,
    decode (data (createBlob samples)) = Normal wire /\
    length wire = (2 * length samples)%nat /\
    wire !! (2 * i)%nat = Some (byte_of_Z (ToInt16 (times_32768 (Some s)))) /\
    wire !! (2 * i + 1)%nat = Some (byte_of_Z (ToInt16 (times_32768 (Some s)) / 256)).
Proof.
  intros Hi. eexists. split; [apply createBlob_wire|].
  split; [rewrite Uint8Array_of_Int16Array_length, length_map; reflexivity|].
  apply Uint8Array_of_Int16Array_lookup.
  rewrite list_lookup_fmap, Hi. reflexivity.
Qed.

(** X4. [createBlob] puts exactly two bytes per sample on the wire, and a
    sample that is not a finite number (NaN, or an infinity) goes out as
    the two zero bytes, that is as silence. *)
Theorem createBlob_not_finite (samples : list number) (i : nat) (s : number) :
  samples !! i = Some s ->
  (forall q, s <> Fin q) ->
  exists wire,
    decode (data (createBlob samples)) = Normal wire /\
    length wire = (2 * length samples)%nat /\
    wire !! (2 * i)%nat = Some Byte.x00 /\
    wire !! (2 * i + 1)%nat = Some Byte.x00.
Proof.
  intros Hi Hs.
  destruct (createBlob_wire_lookup samples i s Hi) as (wire & Hw & Hlen & Hlo & Hhi).
  exists wire. split; [exact Hw|]. split; [exact Hlen|].
  destruct s as [|neg|q]; [| |destruct (Hs q eq_refl)]; split; assumption.
Qed.

(** NaN between two finite samples. *)
Lemma createBlob_not_finite_witness :
  exists wire,
    decode (data (createBlob [Fin (1 # 2); NaN; Fin (1 # 4)])) = Normal wire /\
    length wire = (2 * 3)%nat /\
    wire !! (2 * 1)%nat = Some Byte.x00 /\
    wire !! (2 * 1 + 1)%nat = Some Byte.x00.
Proof.
  apply (createBlob_not_finite [Fin (1 # 2); NaN; Fin (1 # 4)] 1 NaN).
  - reflexivity.
  - discriminate.
Defined.

(** X5. [createBlob] does not clamp: a sample in [1, 2) goes to the wire as
    its scaled and truncated value minus 65536, a negative 16-bit value, so
    a clipped peak is sent as a trough. *)
Theorem createBlob_wraps_around (samples : list number) (i : nat) (q : Q) :
  samples !! i = Some (Fin q) ->
  (1 <= q)%Q -> (q < 2)%Q ->
  exists wire lo hi,
    decode (data (createBlob samples)) = Normal wire /\
    wire !! (2 * i)%nat = Some lo /\
    wire !! (2 * i + 1)%nat = Some hi /\
    int16_of_bytes lo hi = truncate (q * 32768) - 65536 /\
    -32768 <= int16_of_bytes lo hi < 0.
Proof.
  intros Hi Hlo Hhi.
  destruct (createBlob_wire_lookup samples i (Fin q) Hi) as (wire & Hw & _ & H1 & H2).
  exists wire. do 2 eexists. split; [exact Hw|]. split; [exact H1|]. split; [exact H2|].
  rewrite int16_of_bytes_of_int16 by apply ToInt16_range.
  assert (Ht : 32768 <= truncate (q * 32768) < 65536).
  { destruct q as [a b]. unfold Qle, Qlt, truncate in *. cbn [Qnum Qden Qmult] in *.
    rewrite Pos.mul_1_r.
    pose proof (Z.quot_rem' (a * 32768) (Z.pos b)) as E.
    pose proof (Z.rem_bound_pos (a * 32768) (Z.pos b) ltac:(lia) ltac:(lia)) as R.
    set (t := Z.quot (a * 32768) (Z.pos b)) in *.
    set (r := Z.rem (a * 32768) (Z.pos b)) in *. clearbody t r. nia. }
  cbn [times_32768 ToInt16].
  destruct (Z.leb_spec 32768 (truncate (q * 32768) mod 65536)); lia.
Qed.

(** The sample 1.5. *)
Lemma createBlob_wraps_around_witness :
  exists wire lo hi,
    decode (data (createBlob [Fin (3 # 2)])) = Normal wire /\
    wire !! (2 * 0)%nat = Some lo /\
    wire !! (2 * 0 + 1)%nat = Some hi /\
    int16_of_bytes lo hi = truncate ((3 # 2) * 32768) - 65536 /\
    -32768 <= int16_of_bytes lo hi < 0.
Proof.
  apply (createBlob_wraps_around [Fin (3 # 2)] 0 (3 # 2)).
  - reflexivity.
  - vm_compute. discriminate.
  - reflexivity.
Defined.

(** ** The length of the text *)

Lemma encode_units_text_length (l : list N) :
  length (Base64.encode_units l) = (4 * ((length l + 2) / 3))%nat.
Proof.
  induction l as [|a|a b|a b c l IH] using Base64Facts.list_ind3; try reflexivity.
  cbn [Base64.encode_units length]. rewrite IH.
  replace (S (S (S (length l))) + 2)%nat with (length l + 2 + 1 * 3)%nat by lia.
  rewrite Nat.div_add by lia. lia.
Qed.

(** X6. The text that [encode] returns has four characters for every three
    bytes, the last group padded: its length is [4 * ceil(n / 3)], and it
    is empty only for no byte at all. *)
Theorem encode_length (bytes : list byte) :
  String.length (encode bytes) = (4 * ((length bytes + 2) / 3))%nat /\
  (encode bytes = EmptyString <-> bytes = []).
Proof.
  assert (Hlen : String.length (encode bytes) = (4 * ((length bytes + 2) / 3))%nat).
  { rewrite encode_btoa. unfold Base64.btoa.
    rewrite length_string_of_list_ascii, encode_units_text_length, length_map.
    f_equal. f_equal. f_equal.
    unfold string_of_list_byte. rewrite list_ascii_of_string_of_list_ascii.
    apply length_map. }
  split; [exact Hlen|]. split.
  - intros E. rewrite E in Hlen. cbn [String.length] in Hlen.
    destruct bytes as [|b bytes]; [reflexivity|].
    cbn [length] in Hlen.
    assert (1 <= (S (length bytes) + 2) / 3)%nat
      by (apply Nat.div_le_lower_bound; lia).
    lia.
  - intros ->. reflexivity.
Qed.

(** * Further properties of the AIConversation component *)

Lemma scheduled_app (es es' : list effect) :
  scheduled (es ++ es') = scheduled es ++ scheduled es'.
Proof. unfold scheduled. apply flat_map_app. Qed.

Lemma scheduled_quiet (es : list effect) :
  Forall (fun e => match e with SourceStart _ _ _ => False | _ => True end) es ->
  scheduled es = [].
Proof.
  induction 1 as [|e es He _ IH]; [reflexivity|].
  cbn [scheduled flat_map]. fold (scheduled es). rewrite IH.
  destruct e; try reflexivity. destruct He.
Qed.

Lemma scheduled_held_releases (w : World) : scheduled (held_releases w) = [].
Proof.
  apply scheduled_quiet. unfold held_releases.
  repeat (apply Forall_app; split);
    repeat match goal with
           | |- context [match ?x with _ => _ end] => destruct x
           end;
    try (repeat constructor);
    apply Forall_forall; intros e He;
    apply list_elem_of_In, in_map_iff in He; destruct He as (t & <- & _); exact I.
Qed.

Lemma scheduled_sends (session : handle) (blobs : list Blob) :
  scheduled (map (SendRealtimeInput session) blobs) = [].
Proof. induction blobs as [|b blobs IH]; [reflexivity|exact IH]. Qed.

Lemma playback_untouched_refl (w : World) : playback_untouched w w.
Proof.
  repeat split; try reflexivity. exists []. rewrite app_nil_r. split; reflexivity.
Qed.

(** Close a [playback_untouched] goal whose new effects are listed. *)
Ltac frame :=
  unfold playback_untouched; world_simpl;
  split; [reflexivity|]; split; [reflexivity|]; split; [lia|];
  first [ exists []; rewrite app_nil_r; split; reflexivity
        | eexists; split; [rewrite <- ?app_assoc; reflexivity | reflexivity] ].

Lemma cleanup_sources (speechSynthesis : bool) (w : World) :
  sourcesRef (cleanup speechSynthesis w) = sourcesRef w /\
  liveSpeakerTimeoutRef (cleanup speechSynthesis w) = liveSpeakerTimeoutRef w /\
  liveSpeaker (cleanup speechSynthesis w) = liveSpeaker w.
Proof.
  destruct w as [ms st er ls [s|] [m|] [ic|] [oc|] srcs nx [sp|] tm cl k tr nh];
    destruct speechSynthesis; unfold cleanup; world_compute; repeat split.
Qed.

Lemma cleanup_playback (speechSynthesis : bool) (w : World) : playback_untouched w (cleanup speechSynthesis w).
Proof.
  destruct (cleanup_spec speechSynthesis w) as (_ & Ht & _ & _ & _ & _ & _ & Hn & Hh).
  destruct (cleanup_sources speechSynthesis w) as (Hs & _).
  cbv zeta in Ht, Hn, Hh.
  split; [exact Hn|]. split; [exact Hs|]. split; [lia|].
  eexists. split; [exact Ht|].
  change (ConsoleLog :: ?l) with ([ConsoleLog] ++ l).
  rewrite !scheduled_app, scheduled_held_releases.
  destruct speechSynthesis; reflexivity.
Qed.

Lemma stopSession_playback (speechSynthesis : bool) (w : World) :
  playback_untouched w (stopSession speechSynthesis w).
Proof.
  destruct (cleanup_playback speechSynthesis w) as (H1 & H2 & H3 & es & H4 & H5).
  unfold stopSession. unfold playback_untouched. world_simpl.
  repeat split; try assumption. exists es. split; assumption.
Qed.

Lemma startSession_playback (lessonName apiKey : string) (env_API_KEY : option string)
    (AI_CONVERSATION_PROMPTS : string -> option (list string)) (w : World) :
  playback_untouched w
    (startSession lessonName apiKey env_API_KEY AI_CONVERSATION_PROMPTS w).
Proof.
  unfold startSession.
  destruct (truthy (effectiveApiKey apiKey env_API_KEY)) as [key|]; [|frame].
  destruct (AI_CONVERSATION_PROMPTS lessonName) as [prompts|]; frame.
Qed.

Lemma startSession_catch_playback (message : option string) (w : World) :
  playback_untouched w (startSession_catch message w).
Proof. unfold startSession_catch. frame. Qed.

Lemma startSession_granted_playback (stream : MediaStream) (w : World) :
  playback_untouched w (startSession_granted stream w).
Proof.
  unfold startSession_granted.
  destruct (continuation w) as [|key prompts|]; try apply playback_untouched_refl.
  frame.
Qed.

Lemma sessionPromise_resolved_playback (session : handle) (w : World) :
  playback_untouched w (sessionPromise_resolved session w).
Proof.
  unfold sessionPromise_resolved.
  destruct (closure w) as [cl|]; [|apply playback_untouched_refl].
  destruct (sessionPromise cl) as [thens| |]; try apply playback_untouched_refl.
  world_simpl.
  destruct (continuation w); unfold playback_untouched; world_simpl;
    (split; [reflexivity|]; split; [reflexivity|]; split; [lia|];
     eexists; split; [reflexivity|apply scheduled_sends]).
Qed.

Lemma scheduled_rejections (e : exn) (blobs : list Blob) :
  scheduled (map (fun _ => UnhandledRejection e) blobs) = [].
Proof. induction blobs as [|b blobs IH]; [reflexivity|exact IH]. Qed.

Lemma sessionPromise_rejected_playback (message : option string) (w : World) :
  playback_untouched w (sessionPromise_rejected message w).
Proof.
  unfold sessionPromise_rejected.
  destruct (closure w) as [cl|]; [|apply playback_untouched_refl].
  destruct (sessionPromise cl) as [thens| |]; try apply playback_untouched_refl.
  world_simpl.
  destruct (continuation w); unfold startSession_catch, playback_untouched; world_simpl;
    (split; [reflexivity|]; split; [reflexivity|]; split; [lia|];
     eexists; split; [rewrite <- ?app_assoc; reflexivity|];
     rewrite ?scheduled_app, scheduled_rejections; reflexivity).
Qed.

Lemma onopen_playback (w : World) : playback_untouched w (onopen w).
Proof.
  unfold onopen. destruct (closure w) as [cl|]; [|apply playback_untouched_refl].
  frame.
Qed.

Lemma onaudioprocess_playback (inputData : list number) (w : World) :
  playback_untouched w (onaudioprocess inputData w).
Proof.
  unfold onaudioprocess. destruct (closure w) as [cl|]; [|apply playback_untouched_refl].
  destruct (sessionPromise cl) as [thens|session|]; frame.
Qed.

Lemma indicate_playback (sc : option ServerContent) (w : World) :
  playback_untouched w (indicate sc w).
Proof.
  unfold indicate. destruct sc as [[mt tc]|]; [|apply playback_untouched_refl].
  cbn [modelTurn turnComplete].
  destruct mt as [mt|], tc; try frame.
  world_simpl. destruct (liveSpeakerTimeoutRef w) as [t|]; frame.
Qed.

(** [onmessage] on a message whose audio is not played: nothing to decode,
    no output context, or audio that does not decode. *)
Lemma onmessage_not_played (currentTime : float) (msg : LiveServerMessage) (w : World) :
  outputAudioContextRef w = None \/ inbound_audio msg = None ->
  playback_untouched w (onmessage currentTime msg w).
Proof.
  intros H. unfold onmessage, inbound_audio in *.
  destruct (closure w) as [cl|]; [|apply playback_untouched_refl].
  destruct (truthy (audioData_of msg)) as [audioData|];
    [|apply indicate_playback].
  destruct (outputAudioContextRef w) as [ctx|]; [|apply indicate_playback].
  destruct H as [H|H]; [discriminate H|].
  destruct (decode audioData) as [bytes|e]; [|frame].
  destruct (decodeAudioData (Uint8Array.of_elements bytes) 24000 1) as [b|e];
    [discriminate H|frame].
Qed.

(** [onmessage] on a message whose audio is played: the new source joins
    the live set. *)
Lemma onmessage_audio_sources (currentTime : float) (msg : LiveServerMessage) (w : World)
    (cl : Closure) (ctx : handle) (audioBuffer : AudioBuffer) :
  closure w = Some cl ->
  outputAudioContextRef w = Some ctx ->
  inbound_audio msg = Some audioBuffer ->
  accepted (start_time currentTime (nextStartTimeRef w)) ->
  let w' := onmessage currentTime msg w in
  sourcesRef w' = {[next_handle w]} ∪ sourcesRef w /\
  (next_handle w < next_handle w')%nat.
Proof.
  intros Hcl Hctx Haudio Hstart. cbv zeta.
  rewrite (onmessage_schedule currentTime msg w cl ctx audioBuffer Hcl Hctx Haudio).
  unfold accepted, start_time in Hstart. unfold schedule. world_simpl.
  destruct (nextStartTimeRef w <? currentTime)%float; world_simpl;
    rewrite Hstart;
    match goal with
    | |- context [indicate ?sc ?ws] =>
        destruct (indicate_playback sc ws) as (_ & Hs & Hn & _);
        rewrite Hs; revert Hn; world_simpl; intros Hn; (split; [reflexivity|lia])
    end.
Qed.

(** What an event does to the playback state: nothing; or it plays the audio
    of a message; or [start] throws on the audio of a message; or it is the
    end of a source. *)
Lemma step_playback (lessonName apiKey : string) (env_API_KEY : option string)
    (AI_CONVERSATION_PROMPTS : string -> option (list string)) (speechSynthesis : bool)
    (w : World) (e : event) :
  let w' := step lessonName apiKey env_API_KEY AI_CONVERSATION_PROMPTS speechSynthesis w e in
  playback_untouched w w' \/
  (exists currentTime msg cl ctx audioBuffer,
     w' = onmessage currentTime msg w /\ closure w = Some cl /\
     outputAudioContextRef w = Some ctx /\ inbound_audio msg = Some audioBuffer /\
     accepted (start_time currentTime (nextStartTimeRef w))) \/
  (exists currentTime msg cl ctx audioBuffer thrown,
     w' = onmessage currentTime msg w /\ closure w = Some cl /\
     outputAudioContextRef w = Some ctx /\ inbound_audio msg = Some audioBuffer /\
     start_error (start_time currentTime (nextStartTimeRef w)) = Some thrown) \/
  (exists source, w' = onended source w).
Proof.
  cbv zeta. destruct e; cbn [step].
  - left. apply startSession_playback.
  - left. apply stopSession_playback.
  - left. apply cleanup_playback.
  - left. apply startSession_granted_playback.
  - left. destruct (continuation w); try apply playback_untouched_refl.
    apply startSession_catch_playback.
  - left. apply sessionPromise_resolved_playback.
  - left. apply sessionPromise_rejected_playback.
  - left. apply onopen_playback.
  - destruct (outputAudioContextRef w) as [ctx|] eqn:Hctx;
      [|left; apply onmessage_not_played; left; exact Hctx].
    destruct (inbound_audio msg) as [audioBuffer|] eqn:Ha;
      [|left; apply onmessage_not_played; right; exact Ha].
    destruct (closure w) as [cl|] eqn:Hcl;
      [|left; unfold onmessage; rewrite Hcl; apply playback_untouched_refl].
    destruct (start_error (start_time currentTime (nextStartTimeRef w)))
      as [thrown|] eqn:Hs.
    + right. right. left. exists currentTime, msg, cl, ctx, audioBuffer, thrown.
      repeat split; assumption.
    + right. left. exists currentTime, msg, cl, ctx, audioBuffer.
      repeat split; assumption.
  - left. unfold onclose. frame.
  - left. unfold onerror. frame.
  - left. apply onaudioprocess_playback.
  - right. right. right. exists source. reflexivity.
  - left. frame.
Qed.

Lemma not_before_not_ltb (a b : float) : not_before a b -> (b <? a)%float = false.
Proof.
  intros [->|H]; [|apply leb_not_ltb, H].
  destruct (a <? a)%float eqn:E; [|reflexivity]. apply ltb_ord in E. lia.
Qed.

(** What one event does to the cursor. *)
Lemma step_cursor (lessonName apiKey : string) (env_API_KEY : option string)
    (AI_CONVERSATION_PROMPTS : string -> option (list string)) (speechSynthesis : bool)
    (w : World) (e : event) :
  not_before (nextStartTimeRef w)
    (nextStartTimeRef
       (step lessonName apiKey env_API_KEY AI_CONVERSATION_PROMPTS speechSynthesis w e)).
Proof.
  destruct (step_playback lessonName apiKey env_API_KEY AI_CONVERSATION_PROMPTS
              speechSynthesis w e)
    as [(Hn & _)
       |[(t & msg & cl & ctx & b & Hw & Hcl & Hctx & Ha & Hs)
        |[(t & msg & cl & ctx & b & thrown & Hw & Hcl & Hctx & Ha & Hs)
         |(source & Hw)]]];
    cbv zeta in *.
  - left. exact Hn.
  - rewrite Hw.
    destruct (onmessage_audio t msg w cl ctx b Hcl Hctx Ha Hs) as (_ & _ & Hnext & _).
    cbv zeta in Hnext. rewrite Hnext. right.
    pose proof (start_then_end _ b Hs (inbound_audio_sampleRate _ _ Ha)) as He.
    destruct (start_time_cases t (nextStartTimeRef w)) as [[E Es]|[E Es]];
      rewrite Es in *; [|exact He].
    eapply leb_trans; [apply ltb_leb, E|exact He].
  - rewrite Hw.
    destruct (onmessage_start_throws t msg w cl ctx b thrown Hcl Hctx Ha Hs) as (Hnext & _).
    cbv zeta in Hnext. rewrite Hnext.
    destruct (start_time_cases t (nextStartTimeRef w)) as [[E ->]|[E ->]].
    + right. apply ltb_leb, E.
    + left. reflexivity.
  - rewrite Hw. left. reflexivity.
Qed.

(** X7. The playback cursor never decreases, whatever happens to the
    component: no event (start, stop, unmount, a transport callback, the
    end of a source) moves [nextStartTimeRef] back, and nothing resets it,
    so a session started after a stop goes on from the cursor of the one
    before.  The cursor after the events is the cursor before them or a
    number that is not less, and it is never less: the sums of binary64
    numbers round, and rounding keeps the order. *)
Theorem cursor_never_decreases (lessonName apiKey : string)
    (env_API_KEY : option string)
    (AI_CONVERSATION_PROMPTS : string -> option (list string)) (speechSynthesis : bool)
    (events : list event) (w : World) :
  let w' := run lessonName apiKey env_API_KEY AI_CONVERSATION_PROMPTS speechSynthesis
              events w in
  not_before (nextStartTimeRef w) (nextStartTimeRef w') /\
  (nextStartTimeRef w' <? nextStartTimeRef w)%float = false.
Proof.
  cbv zeta.
  assert (H : not_before (nextStartTimeRef w)
                (nextStartTimeRef
                   (run lessonName apiKey env_API_KEY AI_CONVERSATION_PROMPTS
                      speechSynthesis events w))).
  { revert w. induction events as [|e events IH]; intros w; [left; reflexivity|].
    unfold run in *. cbn [fold_left].
    eapply not_before_trans; [apply step_cursor|apply IH]. }
  split; [exact H|apply not_before_not_ltb, H].
Qed.

(** X8. Inbound audio after a teardown is dropped: once [stopSession] has
    run, a message, with or without audio, starts no buffer and leaves the
    cursor and the live set as they are. *)
Theorem onmessage_after_stop (speechSynthesis : bool) (currentTime : float)
    (msg : LiveServerMessage) (w : World) :
  let w1 := stopSession speechSynthesis w in
  let w2 := onmessage currentTime msg w1 in
  nextStartTimeRef w2 = nextStartTimeRef w1 /\
  sourcesRef w2 = sourcesRef w1 /\
  scheduled (trace w2) = scheduled (trace w1).
Proof.
  cbv zeta.
  destruct (stopSession_spec speechSynthesis w) as ((_ & _ & _ & _ & Hout) & _).
  destruct (onmessage_not_played currentTime msg _ (or_introl Hout))
    as (Hn & Hs & _ & es & Ht & Hq).
  split; [exact Hn|]. split; [exact Hs|].
  rewrite Ht, scheduled_app, Hq. apply app_nil_r.
Qed.

(** X9. A message whose audio does not decode (text that is not base64, an
    odd number of bytes, no byte at all) is dropped whole: the handler's
    promise is rejected, no buffer is started, and the rest of the handler
    is skipped, so the speaking indicator is not updated either. *)
Theorem onmessage_undecodable (currentTime : float) (msg : LiveServerMessage) (w : World)
    (cl : Closure) (ctx : handle) (audioData : string) :
  closure w = Some cl ->
  outputAudioContextRef w = Some ctx ->
  truthy (audioData_of msg) = Some audioData ->
  inbound_audio msg = None ->
  exists e, onmessage currentTime msg w = emit [UnhandledRejection e] w.
Proof.
  intros Hcl Hctx Hd Ha. unfold onmessage, inbound_audio in *.
  rewrite Hcl, Hctx, Hd in *.
  destruct (decode audioData) as [bytes|e]; [|exists e; reflexivity].
  destruct (decodeAudioData (Uint8Array.of_elements bytes) 24000 1) as [b|e];
    [discriminate Ha|].
  exists e. reflexivity.
Qed.

(** Three bytes of audio while the connect is pending. *)
Lemma onmessage_undecodable_witness :
  exists e,
    onmessage 0.5 (Examples.audio_message "AAAA") Examples.connecting
    = emit [UnhandledRejection e] Examples.connecting.
Proof.
  apply (onmessage_undecodable 0.5 (Examples.audio_message "AAAA")
           Examples.connecting Examples.connecting_closure 1%nat "AAAA");
    reflexivity.
Defined.

(** X10. The live set only holds sources that were started: in every state
    reached from a state where this holds (the initial state is one), each
    source in [sourcesRef] is a buffer source made by [onmessage] and
    started by it. *)
Theorem live_set_started (lessonName apiKey : string) (env_API_KEY : option string)
    (AI_CONVERSATION_PROMPTS : string -> option (list string)) (speechSynthesis : bool)
    (events : list event) (w : World) :
  live_sources_started w ->
  live_sources_started
    (run lessonName apiKey env_API_KEY AI_CONVERSATION_PROMPTS speechSynthesis events w).
Proof.
  revert w. induction events as [|e events IH]; intros w Hw; [exact Hw|].
  unfold run in *. cbn [fold_left]. apply IH. clear IH.
  destruct (step_playback lessonName apiKey env_API_KEY AI_CONVERSATION_PROMPTS
              speechSynthesis w e)
    as [(_ & Hs & Hn & es & Ht & _)
       |[(t & msg & cl & ctx & b & Hw' & Hcl & Hctx & Ha & Hacc)
        |[(t & msg & cl & ctx & b & thrown & Hw' & Hcl & Hctx & Ha & Hthr)
         |(source & Hw')]]];
    cbv zeta in *; intros s Hin.
  - rewrite Hs in Hin. destruct (Hw s Hin) as (Hlt & when & buffer & Hstart).
    split; [lia|]. exists when, buffer. rewrite Ht. apply in_or_app. left. exact Hstart.
  - rewrite Hw' in *.
    destruct (onmessage_audio t msg w cl ctx b Hcl Hctx Ha Hacc)
      as (_ & _ & _ & rest & Ht & _).
    destruct (onmessage_audio_sources t msg w cl ctx b Hcl Hctx Ha Hacc) as (Hs & Hn).
    cbv zeta in *. rewrite Hs in Hin. rewrite Ht.
    apply elem_of_union in Hin as [Hin|Hin].
    + apply elem_of_singleton in Hin. subst s. split; [lia|].
      eexists _, _. apply in_or_app. right. right. right. left. reflexivity.
    + destruct (Hw s Hin) as (Hlt & when & buffer & Hstart).
      split; [lia|]. exists when, buffer. apply in_or_app. left. exact Hstart.
  - rewrite Hw' in *.
    destruct (onmessage_start_throws t msg w cl ctx b thrown Hcl Hctx Ha Hthr)
      as (_ & Hs & _ & Hn & Ht).
    cbv zeta in *. rewrite Hs in Hin. rewrite Ht, Hn.
    destruct (Hw s Hin) as (Hlt & when & buffer & Hstart).
    split; [lia|]. exists when, buffer. apply in_or_app. left. exact Hstart.
  - rewrite Hw' in *. unfold onended in *. revert Hin. world_simpl. intros Hin.
    apply elem_of_difference in Hin as [Hin _]. apply (Hw s Hin).
Qed.

(** From the first render. *)
Lemma live_set_started_witness :
  live_sources_started
    (Examples.run_lesson
       [ClickStart; GetUserMediaResolved Examples.microphone;
        Message 0.5 (Examples.audio_message "AAA="); Ended 3%nat] initial).
Proof.
  apply (live_set_started "Bai 1" "stored-key" None Examples.prompts true).
  intros s Hs. apply not_elem_of_empty in Hs. destruct Hs.
Defined.



(** Chunks handed to the audio callback while the connect is pending. *)
Lemma onaudioprocess_pending (chunks : list (list number)) (w : World) (cl : Closure)
    (thens : list Blob) :
  closure w = Some cl ->
  sessionPromise cl = Pending thens ->
  let w' := fold_left (fun w inputData => onaudioprocess inputData w) chunks w in
  w' = set_closure
         (Some (with_sessionPromise (Pending (thens ++ map createBlob chunks)) cl)) w.
Proof.
  revert w cl thens. induction chunks as [|c chunks IH]; intros w cl thens Hcl Hp; cbv zeta.
  - cbn [fold_left map]. rewrite app_nil_r.
    destruct w, cl. cbn in Hcl, Hp. subst. reflexivity.
  - cbn [fold_left map].
    assert (E : onaudioprocess c w
                = set_closure
                    (Some (with_sessionPromise (Pending (thens ++ [createBlob c])) cl)) w).
    { unfold onaudioprocess. rewrite Hcl, Hp. reflexivity. }
    rewrite E.
    rewrite (IH _ (with_sessionPromise (Pending (thens ++ [createBlob c])) cl)
               (thens ++ [createBlob c])) by reflexivity.
    rewrite <- app_assoc. destruct w, cl. reflexivity.
Qed.

(** X12. Captured chunks wait for the session: while the connect is pending
    the audio callback sends nothing; when the session resolves, every
    chunk captured so far is sent to it once, in capture order; a chunk
    captured after that is sent at once; and if the connect fails instead,
    none of them is ever sent, nor is a chunk captured after the failure. *)
Theorem chunks_wait_for_session (chunks : list (list number)) (session : handle)
    (message : option string) (inputData : list number) (w : World) (cl : Closure) :
  closure w = Some cl ->
  sessionPromise cl = Pending [] ->
  let w1 := fold_left (fun w inputData => onaudioprocess inputData w) chunks w in
  let w2 := sessionPromise_resolved session w1 in
  trace w1 = trace w /\
  trace w2 = trace w ++ map (fun c => SendRealtimeInput session (createBlob c)) chunks /\
  trace (onaudioprocess inputData w2)
  = trace w2 ++ [SendRealtimeInput session (createBlob inputData)] /\
  Forall (fun e => match e with SendRealtimeInput _ _ => False | _ => True end)
    (drop (length (trace w))
       (trace (onaudioprocess inputData (sessionPromise_rejected message w1)))).
Proof.
  intros Hcl Hp. cbv zeta.
  rewrite (onaudioprocess_pending chunks w cl [] Hcl Hp). cbn [app].
  set (cl1 := with_sessionPromise (Pending (map createBlob chunks)) cl).
  split; [reflexivity|]. split; [|split].
  - unfold sessionPromise_resolved. world_simpl. cbn [cl1 with_sessionPromise sessionPromise].
    destruct (continuation w); world_simpl; rewrite map_map; reflexivity.
  - unfold sessionPromise_resolved. world_simpl. cbn [cl1 with_sessionPromise sessionPromise].
    destruct (continuation w); unfold onaudioprocess; world_simpl;
      cbn [with_sessionPromise sessionPromise]; world_simpl; reflexivity.
  - unfold sessionPromise_rejected. world_simpl. cbn [cl1 with_sessionPromise sessionPromise].
    destruct (continuation w); unfold onaudioprocess, startSession_catch; world_simpl;
      cbn [with_sessionPromise sessionPromise]; world_simpl;
      rewrite <- ?app_assoc, ?drop_app_length;
      apply Forall_forall; intros e He;
      repeat (rewrite elem_of_app in He || rewrite elem_of_cons in He);
      repeat match goal with H : _ \/ _ |- _ => destruct H end; subst; try exact I;
      try match goal with
          | H : _ ∈ [] |- _ => apply elem_of_nil in H; destruct H
          | H : _ ∈ map _ _ |- _ =>
              apply list_elem_of_In, in_map_iff in H; destruct H as (? & <- & _); exact I
          end.
Qed.

(** Two chunks while the connect is pending. *)
Lemma chunks_wait_for_session_witness :
  let chunks := [[Fin (1 # 2)]; [Fin (1 # 4); NaN]] in
  let w1 := fold_left (fun w inputData => onaudioprocess inputData w) chunks
              Examples.connecting in
  let w2 := sessionPromise_resolved 7%nat w1 in
  trace w1 = trace Examples.connecting /\
  trace w2 = trace Examples.connecting
             ++ map (fun c => SendRealtimeInput 7%nat (createBlob c)) chunks /\
  trace (onaudioprocess [Fin 0] w2)
  = trace w2 ++ [SendRealtimeInput 7%nat (createBlob [Fin 0])] /\
  Forall (fun e => match e with SendRealtimeInput _ _ => False | _ => True end)
    (drop (length (trace Examples.connecting))
       (trace (onaudioprocess [Fin 0] (sessionPromise_rejected None w1)))).
Proof.
  apply (chunks_wait_for_session [[Fin (1 # 2)]; [Fin (1 # 4); NaN]] 7%nat None [Fin 0]
           Examples.connecting Examples.connecting_closure); reflexivity.
Defined.

(** Run the handlers on a world given by its fields. *)
Ltac handlers_compute :=
  cbv [stopSession cleanup sessionPromise_resolved sessionPromise_rejected
       startSession_catch onopen onerror onclose startSession_granted
       onaudioprocess with_sessionPromise truthy
       localStream inputAudioContext outputAudioContext outputNode sessionPromise
       setMicState setStatus setError setLiveSpeaker set_sessionRef
       set_streamRef set_inputAudioContextRef set_outputAudioContextRef
       set_sourcesRef set_nextStartTimeRef set_scriptProcessorRef
       set_liveSpeakerTimeoutRef set_closure set_continuation emit fresh
       micState status error liveSpeaker sessionRef streamRef inputAudioContextRef
       outputAudioContextRef sourcesRef nextStartTimeRef scriptProcessorRef
       liveSpeakerTimeoutRef closure continuation trace next_handle].

(** X13. A whole session: from any state, with a key and prompts at hand,
    start, the microphone grant, the open callback, the resolved session and
    then stop perform exactly these effects in this order, so everything
    that the session acquired (the session, each track of the stream, the
    script processor, both contexts) is released once by the stop, and the
    component ends idle with every ref null. *)
Theorem session_then_stop (lessonName apiKey : string) (env_API_KEY : option string)
    (AI_CONVERSATION_PROMPTS : string -> option (list string)) (speechSynthesis : bool)
    (key : string) (prompts : list string) (stream : MediaStream) (session : handle)
    (w : World) :
  truthy (effectiveApiKey apiKey env_API_KEY) = Some key ->
  AI_CONVERSATION_PROMPTS lessonName = Some prompts ->
  let w' := run lessonName apiKey env_API_KEY AI_CONVERSATION_PROMPTS speechSynthesis
              [ClickStart; GetUserMediaResolved stream; Open; SessionResolved session;
               ClickStop] w in
  let n := next_handle w in
  micState w' = Idle /\ status w' = StatusStopped /\ error w' = None /\ released w' /\
  trace w'
  = trace w
    ++ [GetUserMedia; NewAudioContext n 16000; NewAudioContext (S n) 24000;
        CreateGain (S n) (S (S n)); ConnectDestination (S (S n)) (S n);
        LiveConnect key prompts;
        CreateMediaStreamSource n stream (S (S (S n)));
        CreateScriptProcessor n (S (S (S (S n))));
        NodeConnect (S (S (S n))) (S (S (S (S n))));
        ConnectDestination (S (S (S (S n)))) n;
        ConsoleLog; SessionClose session]
    ++ map TrackStop (getTracks stream)
    ++ [NodeDisconnect (S (S (S (S n)))); ContextClose n; ContextClose (S n)]
    ++ (if speechSynthesis then [SpeechSynthesisCancel] else []).
Proof.
  intros Hkey Hprompts. cbv zeta.
  unfold run. cbn [fold_left step]. unfold startSession. rewrite Hkey, Hprompts.
  destruct w as [ms st er ls s m ic oc srcs nx sp tm cl k tr nh].
  unfold released. destruct speechSynthesis; handlers_compute;
    rewrite <- !app_assoc; repeat split; reflexivity.
Qed.

(** Lesson "Bai 1" with a stored key, from the first render. *)
Lemma session_then_stop_witness :
  let w' := Examples.run_lesson
              [ClickStart; GetUserMediaResolved Examples.microphone; Open;
               SessionResolved 7%nat; ClickStop] initial in
  let n := next_handle initial in
  micState w' = Idle /\ status w' = StatusStopped /\ error w' = None /\ released w' /\
  trace w'
  = trace initial
    ++ [GetUserMedia; NewAudioContext n 16000; NewAudioContext (S n) 24000;
        CreateGain (S n) (S (S n)); ConnectDestination (S (S n)) (S n);
        LiveConnect "stored-key" ["q1"%string; "q2"%string];
        CreateMediaStreamSource n Examples.microphone (S (S (S n)));
        CreateScriptProcessor n (S (S (S (S n))));
        NodeConnect (S (S (S n))) (S (S (S (S n))));
        ConnectDestination (S (S (S (S n)))) n;
        ConsoleLog; SessionClose 7%nat]
    ++ map TrackStop (getTracks Examples.microphone)
    ++ [NodeDisconnect (S (S (S (S n)))); ContextClose n; ContextClose (S n)]
    ++ (if true then [SpeechSynthesisCancel] else []).
Proof.
  apply (session_then_stop "Bai 1" "stored-key" None Examples.prompts true
           "stored-key" ["q1"%string; "q2"%string] Examples.microphone 7%nat initial);
    reflexivity.
Defined.

(** X14. A start on top of held resources leaks them: when the microphone
    is granted while [streamRef] still holds an earlier stream (the state
    after a transport error, where the start button is shown again), the
    ref is overwritten and nothing is released, so a track of the earlier
    stream is not stopped then, and not by the next stop either. *)
Theorem restart_leaks_stream (speechSynthesis : bool) (stream earlier : MediaStream)
    (track : handle) (key : string) (prompts : list string) (w : World) :
  continuation w = AwaitGetUserMedia key prompts ->
  streamRef w = Some earlier ->
  In track (getTracks earlier) ->
  ~ In track (getTracks stream) ->
  let w1 := startSession_granted stream w in
  let w2 := stopSession speechSynthesis w1 in
  streamRef w1 = Some stream /\
  ~ In (TrackStop track) (drop (length (trace w)) (trace w2)).
Proof.
  intros Hk Hs Ht Hn. cbv zeta. unfold startSession_granted. rewrite Hk.
  destruct w as [ms st er ls s m ic oc srcs nx sp tm cl k tr nh].
  cbn in Hk, Hs. subst m.
  split; [reflexivity|].
  destruct s as [s|], sp as [sp|], speechSynthesis; handlers_compute;
    rewrite <- !app_assoc; rewrite drop_app_length;
    cbn [app In]; rewrite ?in_app_iff; cbn [In]; rewrite ?in_map_iff;
    intros H; decompose [or ex and] H; try discriminate; try contradiction;
    match goal with E : TrackStop _ = TrackStop _ |- _ => injection E as -> end;
    contradiction.
Qed.

(** A second stream after a transport error. *)
Lemma restart_leaks_stream_witness :
  let w := Examples.run_lesson
             [ClickStart; GetUserMediaResolved Examples.microphone; TransportError;
              ClickStart] initial in
  let stream := {| stream_id := 200%nat; getTracks := [201%nat] |} in
  let w1 := startSession_granted stream w in
  let w2 := stopSession true w1 in
  streamRef w1 = Some stream /\
  ~ In (TrackStop 101%nat) (drop (length (trace w)) (trace w2)).
Proof.
  apply (restart_leaks_stream true {| stream_id := 200%nat; getTracks := [201%nat] |}
           Examples.microphone 101%nat "stored-key" ["q1"%string; "q2"%string]).
  - reflexivity.
  - reflexivity.
  - left. reflexivity.
  - intros [H|[]]. discriminate H.
Defined.

(** X15. A failed connect leaves the session's resources held: when the
    promise of [ai.live.connect] is rejected, the [catch] block sets the
    error state and shows the message of the exception (or the default
    text), and releases nothing: the microphone stream and both contexts
    stay in their refs.  The chunks that were waiting are not sent: after
    the error log, the promise of each of their [then] calls is rejected
    with the same reason, and no one handles it. *)
Theorem connect_failure_keeps_resources (message : option string) (w : World)
    (cl : Closure) (thens : list Blob) :
  closure w = Some cl ->
  sessionPromise cl = Pending thens ->
  continuation w = AwaitSessionPromise ->
  let w' := sessionPromise_rejected message w in
  micState w' = Error /\
  error w' = Some match truthy message with
                  | Some m => ErrMessage m
                  | None => ErrCannotStartRecording
                  end /\
  trace w' = trace w ++ ConsoleError
                        :: map (fun _ => UnhandledRejection (Rejection message)) thens /\
  sessionRef w' = sessionRef w /\ streamRef w' = streamRef w /\
  scriptProcessorRef w' = scriptProcessorRef w /\
  inputAudioContextRef w' = inputAudioContextRef w /\
  outputAudioContextRef w' = outputAudioContextRef w /\
  continuation w' = NotRunning.
Proof.
  intros Hcl Hp Hk. cbv zeta. unfold sessionPromise_rejected.
  rewrite Hcl, Hp. world_simpl. rewrite Hk. unfold startSession_catch. world_simpl.
  rewrite <- app_assoc. repeat split; reflexivity.
Qed.

(** The connect fails with a message while two chunks are waiting. *)
Lemma connect_failure_keeps_resources_witness :
  let w := Examples.run_lesson
             [ClickStart; GetUserMediaResolved Examples.microphone; Open;
              AudioProcess [Fin (1 # 2)]; AudioProcess [Fin (1 # 4)]] initial in
  let w' := sessionPromise_rejected (Some "403"%string) w in
  micState w' = Error /\
  error w' = Some match truthy (Some "403"%string) with
                  | Some m => ErrMessage m
                  | None => ErrCannotStartRecording
                  end /\
  trace w' = trace w ++ ConsoleError
                        :: map (fun _ => UnhandledRejection (Rejection (Some "403"%string)))
                             [createBlob [Fin (1 # 2)]; createBlob [Fin (1 # 4)]] /\
  sessionRef w' = sessionRef w /\ streamRef w' = streamRef w /\
  scriptProcessorRef w' = scriptProcessorRef w /\
  inputAudioContextRef w' = inputAudioContextRef w /\
  outputAudioContextRef w' = outputAudioContextRef w /\
  continuation w' = NotRunning.
Proof.
  apply (connect_failure_keeps_resources (Some "403"%string)
           (Examples.run_lesson
              [ClickStart; GetUserMediaResolved Examples.microphone; Open;
               AudioProcess [Fin (1 # 2)]; AudioProcess [Fin (1 # 4)]] initial)
           (with_sessionPromise
              (Pending [createBlob [Fin (1 # 2)]; createBlob [Fin (1 # 4)]])
              Examples.connecting_closure)
           [createBlob [Fin (1 # 2)]; createBlob [Fin (1 # 4)]]); reflexivity.
Defined.

(** X16. A lesson without prompts: with a key at hand and no entry for the
    lesson in the prompts table, [startSession] ends in the error state
    with the lesson named in the text, before the microphone is asked for:
    it performs no effect and leaves every ref and the suspended call as
    they were. *)
Theorem startSession_unknown_lesson (lessonName apiKey : string)
    (env_API_KEY : option string)
    (AI_CONVERSATION_PROMPTS : string -> option (list string)) (key : string) (w : World) :
  truthy (effectiveApiKey apiKey env_API_KEY) = Some key ->
  AI_CONVERSATION_PROMPTS lessonName = None ->
  let w' := startSession lessonName apiKey env_API_KEY AI_CONVERSATION_PROMPTS w in
  micState w' = Error /\
  error w' = Some (ErrNoLessonContent lessonName) /\
  trace w' = trace w /\ continuation w' = continuation w /\ closure w' = closure w /\
  sessionRef w' = sessionRef w /\ streamRef w' = streamRef w /\
  scriptProcessorRef w' = scriptProcessorRef w /\
  inputAudioContextRef w' = inputAudioContextRef w /\
  outputAudioContextRef w' = outputAudioContextRef w.
Proof.
  intros Hkey Hp. cbv zeta. unfold startSession. rewrite Hkey, Hp. world_simpl.
  repeat split; reflexivity.
Qed.

(** Lesson "Bai 99" has no prompts. *)
Lemma startSession_unknown_lesson_witness :
  let w' := startSession "Bai 99" "stored-key" None Examples.prompts initial in
  micState w' = Error /\
  error w' = Some (ErrNoLessonContent "Bai 99") /\
  trace w' = trace initial /\ continuation w' = continuation initial /\
  closure w' = closure initial /\
  sessionRef w' = sessionRef initial /\ streamRef w' = streamRef initial /\
  scriptProcessorRef w' = scriptProcessorRef initial /\
  inputAudioContextRef w' = inputAudioContextRef initial /\
  outputAudioContextRef w' = outputAudioContextRef initial.
Proof.
  apply (startSession_unknown_lesson "Bai 99" "stored-key" None Examples.prompts
           "stored-key" initial); reflexivity.
Defined.

(** X17. The stored key comes first: with a non-empty stored key the
    environment variable plays no part, [startSession] does the same
    whatever [process.env.API_KEY] holds, and the connection is made with
    the stored key. *)
Theorem stored_key_first (lessonName apiKey : string)
    (env1 env2 : option string)
    (AI_CONVERSATION_PROMPTS : string -> option (list string))
    (prompts : list string) (stream : MediaStream) (w : World) :
  apiKey <> EmptyString ->
  AI_CONVERSATION_PROMPTS lessonName = Some prompts ->
  let w1 := startSession lessonName apiKey env1 AI_CONVERSATION_PROMPTS w in
  w1 = startSession lessonName apiKey env2 AI_CONVERSATION_PROMPTS w /\
  continuation w1 = AwaitGetUserMedia apiKey prompts /\
  last (trace (startSession_granted stream w1)) = Some (LiveConnect apiKey prompts).
Proof.
  intros Hkey Hp. cbv zeta. unfold startSession, effectiveApiKey.
  destruct apiKey as [|c rest]; [congruence|]. cbn [truthy]. rewrite Hp.
  split; [reflexivity|]. split; [reflexivity|].
  unfold startSession_granted. world_simpl. apply last_snoc.
Qed.

(** A stored key and a different key in the environment. *)
Lemma stored_key_first_witness :
  let w1 := startSession "Bai 1" "stored-key" (Some "env-key"%string) Examples.prompts
              initial in
  w1 = startSession "Bai 1" "stored-key" None Examples.prompts initial /\
  continuation w1 = AwaitGetUserMedia "stored-key" ["q1"%string; "q2"%string] /\
  last (trace (startSession_granted Examples.microphone w1))
  = Some (LiveConnect "stored-key" ["q1"%string; "q2"%string]).
Proof.
  apply (stored_key_first "Bai 1" "stored-key" (Some "env-key"%string) None
           Examples.prompts ["q1"%string; "q2"%string] Examples.microphone initial).
  - discriminate.
  - reflexivity.
Defined.

(** X18. A refused microphone leaves nothing held: when [getUserMedia] is
    rejected after a start, the [catch] block shows the message of the
    exception (or the default text) in the error state, and the start has
    made no context and no connection: the only effects are the request for
    the microphone and the error log, and every ref is as it was, so a
    component with nothing held still holds nothing. *)
Theorem microphone_refused (lessonName apiKey : string) (env_API_KEY : option string)
    (AI_CONVERSATION_PROMPTS : string -> option (list string)) (speechSynthesis : bool)
    (key : string) (prompts : list string) (message : option string) (w : World) :
  truthy (effectiveApiKey apiKey env_API_KEY) = Some key ->
  AI_CONVERSATION_PROMPTS lessonName = Some prompts ->
  let w' := run lessonName apiKey env_API_KEY AI_CONVERSATION_PROMPTS speechSynthesis
              [ClickStart; GetUserMediaRejected message] w in
  micState w' = Error /\
  error w' = Some match truthy message with
                  | Some m => ErrMessage m
                  | None => ErrCannotStartRecording
                  end /\
  trace w' = trace w ++ [GetUserMedia; ConsoleError] /\
  next_handle w' = next_handle w /\
  sessionRef w' = sessionRef w /\ streamRef w' = streamRef w /\
  scriptProcessorRef w' = scriptProcessorRef w /\
  inputAudioContextRef w' = inputAudioContextRef w /\
  outputAudioContextRef w' = outputAudioContextRef w /\
  closure w' = closure w /\
  continuation w' = NotRunning /\
  (released w -> released w').
Proof.
  intros Hkey Hprompts. cbv zeta. unfold run. cbn [fold_left step].
  unfold startSession. rewrite Hkey, Hprompts.
  destruct w as [ms st er sp se str ic oc so nx scp tm cl co tr nh].
  unfold released. handlers_compute.
  rewrite <- app_assoc.
  repeat split; try reflexivity; tauto.
Qed.

Lemma microphone_refused_witness :
  let w' := Examples.run_lesson
              [ClickStart; GetUserMediaRejected (Some "Permission denied"%string)]
              initial in
  micState w' = Error /\
  error w' = Some (ErrMessage "Permission denied") /\
  trace w' = [GetUserMedia; ConsoleError] /\
  released w'.
Proof.
  destruct (microphone_refused "Bai 1" "stored-key" None Examples.prompts true
              "stored-key" ["q1"%string; "q2"%string]
              (Some "Permission denied"%string) initial)
    as (Hm & He & Ht & _ & _ & _ & _ & _ & _ & _ & _ & Hr).
  - reflexivity.
  - reflexivity.
  - cbv zeta. repeat split; try assumption; apply Hr; repeat split.
Defined.

(** ** The timer of the speaking indicator *)

Lemma timers_untouched_refl (w : World) : timers_untouched w w.
Proof. split; [reflexivity|]. exists []. rewrite app_nil_r. split; constructor. Qed.

Lemma timers_held_releases (w : World) :
  Forall (fun e => forall pending, timer_effect pending e = pending) (held_releases w).
Proof.
  unfold held_releases.
  repeat (apply Forall_app; split);
    repeat match goal with
           | |- context [match ?x with _ => _ end] => destruct x
           end;
    try (repeat constructor);
    apply Forall_forall; intros e He;
    apply list_elem_of_In, in_map_iff in He; destruct He as (t & <- & _); reflexivity.
Qed.

(** Close a [timers_untouched] goal whose new effects are listed. *)
Ltac quiet :=
  unfold timers_untouched; world_simpl;
  split; [reflexivity|];
  first [ exists []; rewrite app_nil_r; split; [reflexivity|constructor]
        | eexists; split; [rewrite <- ?app_assoc; reflexivity | repeat constructor] ].

Lemma cleanup_timers (speechSynthesis : bool) (w : World) :
  timers_untouched w (cleanup speechSynthesis w).
Proof.
  destruct (cleanup_spec speechSynthesis w) as (_ & Ht & _).
  destruct (cleanup_sources speechSynthesis w) as (_ & Hr & _).
  cbv zeta in Ht. split; [exact Hr|]. eexists. split; [exact Ht|].
  constructor; [reflexivity|]. apply Forall_app. split; [apply timers_held_releases|].
  destruct speechSynthesis; repeat constructor.
Qed.

Lemma step_timers (lessonName apiKey : string) (env_API_KEY : option string)
    (AI_CONVERSATION_PROMPTS : string -> option (list string)) (speechSynthesis : bool)
    (w : World) (e : event) :
  let w' := step lessonName apiKey env_API_KEY AI_CONVERSATION_PROMPTS speechSynthesis w e in
  timers_untouched w w' \/
  (exists sc w1, w' = indicate sc w1 /\ timers_untouched w w1).
Proof.
  cbv zeta. destruct e; cbn [step].
  - left. unfold startSession.
    destruct (truthy (effectiveApiKey apiKey env_API_KEY)) as [key|]; [|quiet].
    destruct (AI_CONVERSATION_PROMPTS lessonName) as [prompts|]; quiet.
  - left. destruct (cleanup_timers speechSynthesis w) as (Hr & es & Ht & Hq).
    unfold stopSession, timers_untouched. world_simpl.
    split; [exact Hr|]. exists es. split; assumption.
  - left. apply cleanup_timers.
  - left. unfold startSession_granted.
    destruct (continuation w) as [|key prompts|]; try apply timers_untouched_refl. quiet.
  - left. destruct (continuation w); try apply timers_untouched_refl.
    unfold startSession_catch. quiet.
  - left. unfold sessionPromise_resolved.
    destruct (closure w) as [cl|]; [|apply timers_untouched_refl].
    destruct (sessionPromise cl) as [thens| |]; try apply timers_untouched_refl.
    world_simpl.
    destruct (continuation w); unfold timers_untouched; world_simpl;
      (split; [reflexivity|]; eexists; split; [reflexivity|];
       apply Forall_forall; intros e He;
       apply list_elem_of_In, in_map_iff in He; destruct He as (b & <- & _); reflexivity).
  - left. unfold sessionPromise_rejected.
    destruct (closure w) as [cl|]; [|apply timers_untouched_refl].
    destruct (sessionPromise cl) as [thens| |]; try apply timers_untouched_refl.
    world_simpl.
    destruct (continuation w); unfold startSession_catch, timers_untouched; world_simpl;
      (split; [reflexivity|]; eexists; split; [rewrite <- ?app_assoc; reflexivity|];
       apply Forall_forall; intros e He;
       repeat (rewrite elem_of_app in He || rewrite elem_of_cons in He);
       repeat match goal with H : _ \/ _ |- _ => destruct H end; subst; try reflexivity;
       try match goal with
           | H : _ ∈ [] |- _ => apply elem_of_nil in H; destruct H
           | H : _ ∈ map _ _ |- _ =>
               apply list_elem_of_In, in_map_iff in H; destruct H as (? & <- & _);
               reflexivity
           end).
  - left. unfold onopen.
    destruct (closure w) as [cl|]; [|apply timers_untouched_refl]. quiet.
  - unfold onmessage.
    destruct (closure w) as [cl|]; [|left; apply timers_untouched_refl].
    destruct (truthy (audioData_of msg)) as [audioData|];
      [|right; exists (serverContent msg), w; split;
        [reflexivity|apply timers_untouched_refl]].
    destruct (outputAudioContextRef w) as [ctx|];
      [|right; exists (serverContent msg), w; split;
        [reflexivity|apply timers_untouched_refl]].
    destruct (decode audioData) as [bytes|e]; [|left; quiet].
    destruct (decodeAudioData (Uint8Array.of_elements bytes) 24000 1) as [b|e];
      [|left; quiet].
    unfold schedule. world_simpl.
    destruct (nextStartTimeRef w <? currentTime)%float; world_simpl;
      (destruct (start_error _) as [thrown|];
       [left; quiet|right; eexists _, _; split; [reflexivity|quiet]]).
  - left. unfold onclose. quiet.
  - left. unfold onerror. quiet.
  - left. unfold onaudioprocess.
    destruct (closure w) as [cl|]; [|apply timers_untouched_refl].
    destruct (sessionPromise cl) as [thens|session|]; quiet.
  - left. unfold onended. quiet.
  - left. quiet.
Qed.

Lemma pending_timeouts_app (es es' : list effect) :
  pending_timeouts (es ++ es') = fold_left timer_effect es' (pending_timeouts es).
Proof. unfold pending_timeouts. apply fold_left_app. Qed.

Lemma timers_untouched_invariant (w w' : World) :
  timers_untouched w w' -> one_indicator_timer w -> one_indicator_timer w'.
Proof.
  intros (Hr & es & Ht & Hq) Hw. unfold one_indicator_timer in *.
  rewrite Hr, Ht, pending_timeouts_app, <- Hw.
  generalize (pending_timeouts (trace w)). clear -Hq.
  induction Hq as [|e es He _ IH]; intros s; [reflexivity|].
  cbn [fold_left]. rewrite He. apply IH.
Qed.

Lemma indicate_invariant (sc : option ServerContent) (w : World) :
  one_indicator_timer w -> one_indicator_timer (indicate sc w).
Proof.
  unfold one_indicator_timer, indicate. intros Hw.
  destruct sc as [[mt tc]|]; [|exact Hw]. cbn [modelTurn turnComplete].
  destruct mt as [mt|], tc; world_simpl; try exact Hw.
  destruct (liveSpeakerTimeoutRef w) as [t|]; world_simpl;
    rewrite ?pending_timeouts_app, Hw; cbn [fold_left timer_effect];
    apply set_eq; intros x;
    rewrite ?elem_of_union, ?elem_of_difference, ?elem_of_singleton, ?elem_of_empty;
    tauto.
Qed.

(** X19. The speaking indicator has one timer at most.  If the timers set
    and not cleared are none, or the single timer that
    [liveSpeakerTimeoutRef] holds, then the same is true after any sequence
    of events: a fragment of a model turn clears the timer before it when it
    sets its own, and no other handler sets or clears a timer. *)
Theorem indicator_timer_is_single (lessonName apiKey : string)
    (env_API_KEY : option string)
    (AI_CONVERSATION_PROMPTS : string -> option (list string)) (speechSynthesis : bool)
    (events : list event) (w : World) :
  one_indicator_timer w ->
  one_indicator_timer
    (run lessonName apiKey env_API_KEY AI_CONVERSATION_PROMPTS speechSynthesis events w).
Proof.
  revert w. induction events as [|e events IH]; intros w Hw; [exact Hw|].
  unfold run in *. cbn [fold_left]. apply IH. clear IH.
  destruct (step_timers lessonName apiKey env_API_KEY AI_CONVERSATION_PROMPTS
              speechSynthesis w e) as [Hq|(sc & w1 & -> & Hq)]; cbv zeta in *.
  - eapply timers_untouched_invariant; eassumption.
  - apply indicate_invariant. eapply timers_untouched_invariant; eassumption.
Qed.

(** Two fragments of a model turn, then the end of the turn. *)
Lemma indicator_timer_is_single_witness :
  one_indicator_timer
    (Examples.run_lesson
       [ClickStart; GetUserMediaResolved Examples.microphone;
        Message 0.5 (Examples.audio_message "AAA=");
        Message 1 (Examples.audio_message "AAA=");
        Message 2 {| serverContent := Some {| modelTurn := None; turnComplete := true |} |}]
       initial).
Proof.
  apply (indicator_timer_is_single "Bai 1" "stored-key" None Examples.prompts true).
  reflexivity.
Defined.

(** * The typing exercise *)

Module TypingExerciseFacts.
Import TypingExercise.

Lemma fold_left_shift (f : VocabularyWord.t -> Z) (l : list VocabularyWord.t) (a : Z) :
  fold_left (fun acc w => acc + f w) l a = a + fold_left (fun acc w => acc + f w) l 0.
Proof.
  revert a. induction l as [|w l IH]; intros a; cbn [fold_left]; [lia|].
  rewrite (IH (a + f w)), (IH (0 + f w)). lia.
Qed.

(** The score is the sum of the points of the rendered classes. *)
Lemma currentScore_points (words : list VocabularyWord.t) (inputs : gmap Z ustring) :
  currentScore words inputs
  = fold_left (fun acc w => acc + points (rendered inputs w)) words 0.
Proof.
  unfold currentScore. generalize 0. induction words as [|w words IH]; intros a;
    [reflexivity|].
  cbn [fold_left]. rewrite IH. f_equal.
  unfold rendered, getInputClassName.
  destruct (inputs !! VocabularyWord.id w) as [v|]; [|cbn [points]; lia].
  repeat case_decide; cbn [points]; first [lia | congruence].
Qed.

Lemma currentScore_cons (w : VocabularyWord.t) (words : list VocabularyWord.t)
    (inputs : gmap Z ustring) :
  currentScore (w :: words) inputs
  = points (rendered inputs w) + currentScore words inputs.
Proof.
  rewrite !currentScore_points. cbn [fold_left].
  rewrite fold_left_shift. lia.
Qed.

Lemma points_bound (c : InputClassName) : -1 <= points c <= 1.
Proof. destruct c; cbn; lia. Qed.

(** X20. The score is the number of green fields minus the number of red
    ones, as [getInputClassName] colours them; it lies between minus the
    number of words and the number of words. *)
Theorem score_counts_colours (st : State) :
  let classes := map (rendered (userInputs st)) (shuffledWords st) in
  score (scoreEffect st)
  = Z.of_nat (length (List.filter (fun c => if c is ClassCorrect then true else false)
                        classes))
    - Z.of_nat (length (List.filter (fun c => if c is ClassIncorrect then true else false)
                          classes)) /\
  - Z.of_nat (length (shuffledWords st)) <= score (scoreEffect st)
  <= Z.of_nat (length (shuffledWords st)).
Proof.
  cbv zeta. cbn [scoreEffect score]. generalize (userInputs st) as inputs.
  generalize (shuffledWords st) as words. clear st.
  induction words as [|w words IH]; intros inputs; [cbn; lia|].
  rewrite currentScore_cons. cbn [map List.filter length].
  destruct (IH inputs) as [E B].
  destruct (rendered inputs w); cbn [points length]; lia.
Qed.

(** X21. Shuffling does not change the score: the same words in another
    order, with the same inputs, give the same score. *)
Theorem score_of_shuffle (words shuffled : list VocabularyWord.t)
    (inputs : gmap Z ustring) :
  Permutation shuffled words ->
  currentScore shuffled inputs = currentScore words inputs.
Proof.
  induction 1 as [|w l l' _ IH|w w' l|l l' l'' _ IH1 _ IH2].
  - reflexivity.
  - rewrite !currentScore_cons, IH. reflexivity.
  - rewrite !currentScore_cons. lia.
  - congruence.
Qed.

Lemma score_of_shuffle_witness :
  let a := {| VocabularyWord.id := 1; VocabularyWord.char := [20320%N];
              VocabularyWord.pinyin := []; VocabularyWord.vi := [] |} in
  let b := {| VocabularyWord.id := 2; VocabularyWord.char := [22909%N];
              VocabularyWord.pinyin := []; VocabularyWord.vi := [] |} in
  currentScore [b; a] (<[1 := [20320%N]]> ∅) = currentScore [a; b] (<[1 := [20320%N]]> ∅).
Proof.
  intros a b. apply (score_of_shuffle [a; b] [b; a]). apply perm_swap.
Defined.

(** X22. Full marks exactly when every field is green: the score equals
    the number of words if and only if every word has its own characters
    typed in, which a word with no character can never have. *)
Theorem full_marks (words : list VocabularyWord.t) (inputs : gmap Z ustring) :
  currentScore words inputs = Z.of_nat (length words)
  <-> Forall (fun w => VocabularyWord.char w <> [] /\
                       inputs !! VocabularyWord.id w = Some (VocabularyWord.char w))
        words.
Proof.
  assert (Hgreen : forall w, rendered inputs w = ClassCorrect
                     <-> VocabularyWord.char w <> [] /\
                         inputs !! VocabularyWord.id w = Some (VocabularyWord.char w)).
  { intros w. unfold rendered, getInputClassName.
    destruct (inputs !! VocabularyWord.id w) as [v|].
    - destruct (decide (v = [])) as [->|Hv].
      + split; [discriminate|]. intros [H1 [=H2]]. congruence.
      + destruct (decide (v = VocabularyWord.char w)) as [->|Hc].
        * split; [intros _; split; [exact Hv|reflexivity]|reflexivity].
        * split; [discriminate|]. intros [_ [=H2]]. congruence.
    - split; [discriminate|]. intros [_ H]. discriminate H. }
  assert (Hub : forall l, currentScore l inputs <= Z.of_nat (length l)).
  { induction l as [|w l IH]; [cbn; lia|].
    rewrite currentScore_cons. pose proof (points_bound (rendered inputs w)).
    cbn [length]. lia. }
  induction words as [|w words IH].
  - split; [constructor|reflexivity].
  - rewrite currentScore_cons. cbn [length]. split.
    + intros H. pose proof (points_bound (rendered inputs w)) as Hp.
      pose proof (Hub words) as Hu.
      assert (Hw : rendered inputs w = ClassCorrect)
        by (destruct (rendered inputs w); cbn [points] in *; [lia|reflexivity|lia]).
      constructor; [apply Hgreen, Hw|]. apply IH. rewrite Hw in H. cbn [points] in H. lia.
    + intros H. apply Forall_cons_1 in H as [Hw H].
      apply Hgreen in Hw. rewrite Hw. cbn [points]. apply IH in H. lia.
Qed.

Lemma currentScore_other (wordId : Z) (v : ustring) (words : list VocabularyWord.t)
    (inputs : gmap Z ustring) :
  ~ In wordId (map VocabularyWord.id words) ->
  currentScore words (<[wordId := v]> inputs) = currentScore words inputs.
Proof.
  induction words as [|w words IH]; intros Hn; [reflexivity|].
  rewrite !currentScore_cons. cbn [map In] in Hn.
  rewrite IH by tauto. unfold rendered.
  rewrite lookup_insert_ne by (intros E; apply Hn; left; symmetry; exact E).
  reflexivity.
Qed.

(** X23. Typing into the field of a word changes the score by that word
    alone: with distinct word ids, after [handleInputChange] the score is
    the score before, minus the points of the word's field as it was, plus
    the points of the trimmed text against the word. *)
Theorem score_after_input (st : State) (word : VocabularyWord.t) (value : ustring) :
  NoDup (map VocabularyWord.id (shuffledWords st)) ->
  In word (shuffledWords st) ->
  score (scoreEffect (handleInputChange (VocabularyWord.id word) value st))
  = score (scoreEffect st)
    - points (rendered (userInputs st) word)
    + points (getInputClassName word (Some (trim value))).
Proof.
  cbn [scoreEffect handleInputChange score shuffledWords userInputs].
  generalize (userInputs st) as inputs. generalize (shuffledWords st) as words. clear st.
  induction words as [|w words IH]; intros inputs Hnd Hin; [destruct Hin|].
  cbn [map] in Hnd. apply NoDup_cons in Hnd as [Hw Hnd].
  rewrite !currentScore_cons. destruct Hin as [->|Hin].
  - rewrite currentScore_other by (rewrite <- list_elem_of_In; exact Hw).
    unfold rendered at 1. rewrite lookup_insert_eq. lia.
  - rewrite (IH inputs Hnd Hin).
    assert (Hne : VocabularyWord.id word <> VocabularyWord.id w).
    { intros E. apply Hw. rewrite <- E. apply list_elem_of_In, in_map, Hin. }
    unfold rendered at 1. rewrite lookup_insert_ne by exact Hne.
    fold (rendered inputs w). lia.
Qed.

Lemma score_after_input_witness :
  let a := {| VocabularyWord.id := 1; VocabularyWord.char := [20320%N];
              VocabularyWord.pinyin := []; VocabularyWord.vi := [] |} in
  let b := {| VocabularyWord.id := 2; VocabularyWord.char := [22909%N];
              VocabularyWord.pinyin := []; VocabularyWord.vi := [] |} in
  let st := scoreEffect (shuffleAndReset [b; a]) in
  score (scoreEffect (handleInputChange (VocabularyWord.id a) [32%N; 20320%N; 32%N] st))
  = score (scoreEffect st)
    - points (rendered (userInputs st) a)
    + points (getInputClassName a (Some (trim [32%N; 20320%N; 32%N]))).
Proof.
  intros a b st. apply (score_after_input st a [32%N; 20320%N; 32%N]).
  - cbn. repeat constructor; rewrite ?list_elem_of_In; cbn; intuition discriminate.
  - right. left. reflexivity.
Defined.

Lemma trimStart_white (pre s : ustring) :
  Forall (fun c => is_white_space c = true) pre -> trimStart (pre ++ s) = trimStart s.
Proof.
  induction 1 as [|c pre Hc _ IH]; [reflexivity|].
  cbn [app trimStart]. rewrite Hc. exact IH.
Qed.

Lemma trimStart_clean (c : N) (s : ustring) :
  is_white_space c = false -> trimStart (c :: s) = c :: s.
Proof. intros Hc. cbn [trimStart]. rewrite Hc. reflexivity. Qed.

Lemma trim_padding (pre v post : ustring) :
  Forall (fun c => is_white_space c = true) pre ->
  Forall (fun c => is_white_space c = true) post ->
  v = [] \/
  ((exists a, head v = Some a /\ is_white_space a = false) /\
   (exists b, last v = Some b /\ is_white_space b = false)) ->
  trim (pre ++ v ++ post) = v.
Proof.
  intros Hpre Hpost Hv. unfold trim, trimEnd.
  rewrite trimStart_white by exact Hpre.
  assert (Hrev : Forall (fun c => is_white_space c = true) (rev post))
    by (apply List.Forall_rev, Hpost).
  destruct Hv as [->|[(a & Ha & Hwa) (b & Hb & Hwb)]].
  - cbn [app].
    assert (E : trimStart post = []).
    { pose proof (trimStart_white post [] Hpost) as E. rewrite app_nil_r in E. exact E. }
    rewrite E. reflexivity.
  - destruct v as [|a' v]; [discriminate Ha|]. injection Ha as ->.
    cbn [app]. rewrite trimStart_clean by exact Hwa.
    change (a :: v ++ post) with ((a :: v) ++ post).
    rewrite rev_app_distr, trimStart_white by exact Hrev.
    destruct (rev (a :: v)) as [|b' r] eqn:Er.
    + apply (f_equal (@length N)) in Er. rewrite length_rev in Er. discriminate Er.
    + assert (Hl : last (a :: v) = Some b').
      { rewrite <- (rev_involutive (a :: v)), Er. cbn [rev]. apply last_snoc. }
      rewrite Hb in Hl. injection Hl as <-.
      rewrite trimStart_clean by exact Hwb.
      rewrite <- Er. apply rev_involutive.
Qed.

(** X24. White space around the typed text does not count: an input of
    white space only is stored as the empty string, which is scored and
    coloured as an untouched field; and text padded with white space is
    stored as the text alone. *)
Theorem input_padding_ignored (wordId : Z) (pre v post : ustring) (st : State)
    (word : VocabularyWord.t) :
  Forall (fun c => is_white_space c = true) pre ->
  Forall (fun c => is_white_space c = true) post ->
  v = [] \/
  ((exists a, head v = Some a /\ is_white_space a = false) /\
   (exists b, last v = Some b /\ is_white_space b = false)) ->
  handleInputChange wordId (pre ++ v ++ post) st = handleInputChange wordId v st /\
  userInputs (handleInputChange wordId v st) !! wordId = Some v /\
  (v = [] -> getInputClassName word (Some (trim (pre ++ v ++ post))) = ClassEmpty).
Proof.
  intros Hpre Hpost Hv.
  pose proof (trim_padding pre v post Hpre Hpost Hv) as E1.
  pose proof (trim_padding [] v [] (Forall_nil_2 _) (Forall_nil_2 _) Hv) as E2.
  cbn [app] in E2. rewrite app_nil_r in E2.
  unfold handleInputChange. rewrite E1, E2. split; [reflexivity|]. split.
  - cbn [userInputs]. apply lookup_insert_eq.
  - intros ->. reflexivity.
Qed.

Lemma input_padding_ignored_witness :
  let word := {| VocabularyWord.id := 1; VocabularyWord.char := [20320%N];
                 VocabularyWord.pinyin := []; VocabularyWord.vi := [] |} in
  let st := shuffleAndReset [word] in
  handleInputChange 1 ([32%N; 12288%N] ++ [20320%N] ++ [10%N]) st
  = handleInputChange 1 [20320%N] st /\
  userInputs (handleInputChange 1 [20320%N] st) !! 1 = Some [20320%N] /\
  ([20320%N] = [] ->
   getInputClassName word (Some (trim ([32%N; 12288%N] ++ [20320%N] ++ [10%N])))
   = ClassEmpty).
Proof.
  intros word st.
  apply (input_padding_ignored 1 [32%N; 12288%N] [20320%N] [10%N] st word).
  - repeat constructor.
  - repeat constructor.
  - right. split; exists 20320%N; split; reflexivity.
Defined.

End TypingExerciseFacts.

(** * The stored API key *)

(** X25. The key saved in the settings is the key read at the next load:
    after [handleSaveSettings] the key is in the state and in
    [localStorage], the dialog is closed, the other stored items are as
    they were, and the initial [userApiKey] of a later load is that key; a
    conversation started then, the key being non-empty, goes on with it
    whatever the environment holds. *)
Theorem saved_key_is_read_back (key : string) (st : App.Settings) :
  let st' := App.handleSaveSettings key st in
  App.userApiKey st' = key /\
  App.isSettingsOpen st' = false /\
  App.initialUserApiKey (Some (App.localStorage st')) = key /\
  (forall item, item <> "gemini_api_key"%string ->
     App.localStorage st' !! item = App.localStorage st !! item) /\
  (key <> EmptyString ->
   forall lessonName env_API_KEY AI_CONVERSATION_PROMPTS prompts w,
     AI_CONVERSATION_PROMPTS lessonName = Some prompts ->
     continuation
       (startSession lessonName (App.initialUserApiKey (Some (App.localStorage st')))
          env_API_KEY AI_CONVERSATION_PROMPTS w)
     = AwaitGetUserMedia key prompts).
Proof.
  cbv zeta. unfold App.handleSaveSettings, App.initialUserApiKey.
  cbn [App.userApiKey App.isSettingsOpen App.localStorage].
  rewrite lookup_insert_eq. cbn [default from_option]. unfold id.
  repeat split.
  - intros item Hne. apply lookup_insert_ne. congruence.
  - intros Hkey lessonName env_API_KEY AI_CONVERSATION_PROMPTS prompts w Hp.
    unfold startSession, effectiveApiKey.
    destruct key as [|c rest]; [congruence|]. cbn [truthy]. rewrite Hp. reflexivity.
Qed.

(** A key saved over an empty storage, the page loaded again and lesson
    "Bai 1" started. *)
Lemma saved_key_is_read_back_witness :
  continuation
    (startSession "Bai 1"
       (App.initialUserApiKey
          (Some (App.localStorage
                   (App.handleSaveSettings "saved-key"
                      {| App.userApiKey := EmptyString;
                         App.isSettingsOpen := true;
                         App.localStorage := ∅ |}))))
       None Examples.prompts initial)
  = AwaitGetUserMedia "saved-key" ["q1"%string; "q2"%string].
Proof.
  destruct (saved_key_is_read_back "saved-key"
              {| App.userApiKey := EmptyString;
                 App.isSettingsOpen := true;
                 App.localStorage := ∅ |}) as (_ & _ & _ & _ & H).
  apply H; [discriminate | reflexivity].
Defined.
